(** * Santorini rules engine: a shallow embedding of [main.py] and of
    [SantoriniGUI.new_game], and the properties of the engine.

    Python objects are embedded as records.  A [Worker] object is shared
    between [Player.workers], [Tile.worker] and [Game.selected_worker]; the
    embedding keeps each worker once, inside its player, and every other
    place holds a reference [(player index, worker index)] to it.  The tiles
    of the grid are referenced from the grid only and are kept by value.

    Integers are [Z] (Python integers are unbounded), list indices that the
    code never makes negative are [nat]. *)

From Stdlib Require Import ZArith Lia Ascii String.
From stdpp Require Import prelude strings.

Local Open Scope Z_scope.

(** ** Python exceptions and fallible pure calls *)

Inductive PyExn : Set :=
| IndexError
| TypeError
| AttributeError
| ValueError
| ZeroDivisionError.

Inductive Result (A : Type) : Type :=
| Ok (a : A)
| Raise (e : PyExn).

Arguments Ok {A} a.
Arguments Raise {A} e.

(** A coordinate pair [(row, col)]. *)
Definition Position : Type := Z * Z.

(** The identity of a [Worker] object: the index of its player in
    [Game.players] and its index in [Player.workers]. *)
Definition WorkerRef : Type := nat * nat.

(** [range(lo, hi)] *)
Definition range (lo hi : Z) : list Z := seqZ lo (hi - lo).

(** [l.remove(x)]: removes the first occurrence of [x] (the code calls it
    only after checking [x in l]). *)
Fixpoint list_remove_first {A} `{EqDecision A} (x : A) (l : list A) : list A :=
  match l with
  | [] => []
  | y :: l' => if decide (x = y) then l' else y :: list_remove_first x l'
  end.

(** [x in l] where [x] may be [None] and [l] holds tuples only. *)
Definition opt_in {A} `{EqDecision A} (x : option A) (l : list A) : bool :=
  match x with
  | Some a => bool_decide (a ∈ l)
  | None => false
  end.

(** ** class Level(Enum) *)

Module Level.

Inductive t : Set := GROUND | LEVEL1 | LEVEL2 | LEVEL3 | DOME.

#[global] Instance eq_dec : EqDecision t.
Proof. solve_decision. Defined.

Definition value (l : t) : Z :=
  match l with
  | GROUND => 0
  | LEVEL1 => 1
  | LEVEL2 => 2
  | LEVEL3 => 3
  | DOME => 4
  end.

(** [Level(v)]: the member with value [v]; Python raises [ValueError] when
    there is none. *)
Definition of_value (v : Z) : Result t :=
  if decide (v = 0) then Ok GROUND
  else if decide (v = 1) then Ok LEVEL1
  else if decide (v = 2) then Ok LEVEL2
  else if decide (v = 3) then Ok LEVEL3
  else if decide (v = 4) then Ok DOME
  else Raise ValueError.

End Level.

(** ** class Tile *)

Module Tile.

Record t : Type := mk { level : Level.t; worker : option WorkerRef }.

#[global] Instance eq_dec : EqDecision t.
Proof. solve_decision. Defined.

(** [Tile.__init__] *)
Definition init : t := {| level := Level.GROUND; worker := None |}.

Definition is_dome (self : t) : bool :=
  bool_decide (level self = Level.DOME).

Definition is_higher_than (self other_tile : t) : bool :=
  bool_decide (Level.value (level self) > Level.value (level other_tile)).

Definition level_value (self : t) : Z := Level.value (level self).

(** [Tile.build]: the returned pair is the boolean the method returns and
    the tile after the call. *)
Definition build (self : t) : Result (bool * t) :=
  if bool_decide (worker self ≠ None) || is_dome self then Ok (false, self)
  else if bool_decide (level self = Level.LEVEL3)
  then Ok (true, {| level := Level.DOME; worker := worker self |})
  else match Level.of_value (Level.value (level self) + 1) with
       | Ok l => Ok (true, {| level := l; worker := worker self |})
       | Raise e => Raise e
       end.

End Tile.

(** ** class Worker (the fields; [move_to] follows the board) *)

Module Worker.

(** [ref] stands for the identity of the object; its first component is the
    [player] back-reference.  Two workers of different players can carry the
    same [name] (it is built from the first letter of the player's name). *)
Record t : Type := mk {
  ref : WorkerRef;
  name : string;
  position : option Position;
  prev_position : option Position
}.

#[global] Instance eq_dec : EqDecision t.
Proof. solve_decision. Defined.

Definition player (self : t) : nat := fst (ref self).

(** [Worker.__init__] *)
Definition init (ref : WorkerRef) (name : string) : t :=
  {| ref := ref; name := name; position := None; prev_position := None |}.

End Worker.

(** ** class Board *)

Module Board.

Record t : Type := mk { size : Z; grid : list (list Tile.t) }.

#[global] Instance eq_dec : EqDecision t.
Proof. solve_decision. Defined.

(** [Board.__init__] *)
Definition init (size : Z) : t :=
  {| size := size;
     grid := map (fun _ => map (fun _ => Tile.init) (range 0 size)) (range 0 size) |}.

Definition is_valid_position (self : t) (position : Position) : bool :=
  let '(row, col) := position in
  bool_decide (0 <= row < size self) && bool_decide (0 <= col < size self).

(** [Board.get_block]: [None] is the [None] the method returns for a
    position off the board.  On a grid of [size] rows of [size] tiles, which
    is what [Board.__init__] builds and every operation keeps, both lookups
    succeed for a valid position. *)
Definition get_block (self : t) (position : Position) : option Tile.t :=
  let '(row, col) := position in
  if is_valid_position self position
  then grid self !! Z.to_nat row ≫= fun r => r !! Z.to_nat col
  else None.

(** The in-place update of a tile object: [tile] is written over the tile
    that [get_block] returned for [position].  There is no such tile for a
    position off the board. *)
Definition set_block (self : t) (position : Position) (tile : Tile.t) : t :=
  let '(row, col) := position in
  if is_valid_position self position then
    {| size := size self;
       grid := match grid self !! Z.to_nat row with
               | Some r => <[Z.to_nat row := <[Z.to_nat col := tile]> r]> (grid self)
               | None => grid self
               end |}
  else self.

Definition get_adjacent_positions (self : t) (position : Position)
  : list Position :=
  let '(row, col) := position in
  filter (fun p => p ≠ position ∧ is_valid_position self p)
    (r ← range (row - 1) (row + 2); c ← range (col - 1) (col + 2); [(r, c)]).

Definition get_valid_moves (self : t) (position : Position)
  (athena_active : bool) : list Position :=
  if negb (is_valid_position self position) then []
  else match get_block self position with
  | None => []
  | Some current_block =>
    let current_level := Tile.level_value current_block in
    filter (fun adj_pos => Is_true
      match get_block self adj_pos with
      | Some adj_block =>
        if bool_decide (Tile.worker adj_block = None)
           && negb (Tile.is_dome adj_block)
        then
          let adjacent_level := Tile.level_value adj_block in
          let level_diff := adjacent_level - current_level in
          bool_decide (level_diff <= 1)
          && negb (bool_decide (level_diff = 1) && athena_active)
        else false
      | None => false
      end) (get_adjacent_positions self position)
  end.

Definition get_valid_builds (self : t) (position : Position) : list Position :=
  if negb (is_valid_position self position) then []
  else filter (fun adj_pos => Is_true
      match get_block self adj_pos with
      | Some adj_block =>
        bool_decide (Tile.worker adj_block = None)
        && negb (Tile.is_dome adj_block)
      | None => false
      end) (get_adjacent_positions self position).

Definition get_valid_builds_with_zeus (self : t) (position : Position)
  : list Position :=
  let valid_builds := get_valid_builds self position in
  match get_block self position with
  | Some tile =>
    if bool_decide (Tile.worker tile ≠ None) && negb (Tile.is_dome tile)
       && bool_decide (Level.value (Tile.level tile) < 3)
    then valid_builds ++ [position]
    else valid_builds
  | None => valid_builds
  end.

End Board.

(** ** Worker.move_to and Board.place_worker *)

(** [Worker.move_to(self, new_position, board)].  The method mutates the
    worker and two tiles of the board; the embedding returns the boolean
    together with the worker and the board after the call.  Nothing is
    mutated before the last point where the method can raise. *)
Definition Worker_move_to (self : Worker.t) (new_position : Position)
  (board : Board.t) : Result (bool * Worker.t * Board.t) :=
  if negb (Board.is_valid_position board new_position)
  then Ok (false, self, board)
  else match Board.get_block board new_position with
  | None => Raise AttributeError
  | Some target_tile =>
    if bool_decide (Tile.worker target_tile ≠ None) || Tile.is_dome target_tile
    then Ok (false, self, board)
    else
      let vacated :=
        match Worker.position self with
        | Some cur =>
          match Board.get_block board cur with
          | Some current_tile =>
            Ok (Board.set_block board cur
                  {| Tile.level := Tile.level current_tile; Tile.worker := None |})
          | None => Raise AttributeError
          end
        | None => Ok board
        end in
      match vacated with
      | Raise e => Raise e
      | Ok board1 =>
        let board2 :=
          Board.set_block board1 new_position
            {| Tile.level := Tile.level target_tile;
               Tile.worker := Some (Worker.ref self) |} in
        Ok (true,
            {| Worker.ref := Worker.ref self;
               Worker.name := Worker.name self;
               Worker.position := Some new_position;
               Worker.prev_position := Worker.position self |},
            board2)
      end
  end.

Definition Board_place_worker (self : Board.t) (worker : Worker.t)
  (position : Position) : Result (bool * Worker.t * Board.t) :=
  Worker_move_to worker position self.

(** ** class GodCard and its subclasses *)

Module GodCard.

(** [Base name] is an instance of the base class [GodCard] itself. *)
Inductive t : Type :=
| Base (name : string)
| Artemis
| Demeter
| Zeus.

#[global] Instance eq_dec : EqDecision t.
Proof. solve_decision. Defined.

Definition name (self : t) : string :=
  match self with
  | Base n => n
  | Artemis => "Artemis"
  | Demeter => "Demeter"
  | Zeus => "Zeus"
  end.

(** [can_use_power(self, worker, board, current_position)].  A worker whose
    position is [None] makes the board queries raise [TypeError] (the
    position is unpacked into a row and a column).  Zeus's method returns
    the tile, [None] or a boolean, of which callers could only take the
    truth value, given here. *)
Definition can_use_power (self : t) (worker : Worker.t) (board : Board.t)
  (current_position : Position) : Result bool :=
  match self with
  | Base _ => Ok false
  | Artemis =>
    match Worker.position worker with
    | None => Raise TypeError
    | Some pos =>
      let valid_moves := Board.get_valid_moves board pos false in
      let valid_moves :=
        if bool_decide (valid_moves ≠ [])
           && opt_in (Worker.prev_position worker) valid_moves
        then match Worker.prev_position worker with
             | Some pp => list_remove_first pp valid_moves
             | None => valid_moves
             end
        else valid_moves in
      Ok (bool_decide (Z.of_nat (length valid_moves) > 0))
    end
  | Demeter =>
    match Worker.position worker with
    | None => Raise TypeError
    | Some pos =>
      let valid_builds := Board.get_valid_builds board pos in
      Ok (bool_decide (Z.of_nat (length valid_builds) > 1))
    end
  | Zeus =>
    match Worker.position worker with
    | None => Raise TypeError
    | Some pos =>
      match Board.get_block board pos with
      | Some tile =>
        Ok (negb (Tile.is_dome tile) && bool_decide (Tile.level_value tile < 3))
      | None => Ok false
      end
    end
  end.

(** [use_power] returns [False] in the base class and is not overridden. *)
Definition use_power (self : t) (worker : Worker.t) (board : Board.t)
  (target_position : Position) : bool := false.

End GodCard.

(** ** class Move and class Build *)

Module Move.

Record t : Type := mk {
  worker : WorkerRef;
  from_pos : Position;
  to_pos : Position;
  is_winning_move : bool
}.

#[global] Instance eq_dec : EqDecision t.
Proof. solve_decision. Defined.

(** [Move.__init__] *)
Definition init (worker : WorkerRef) (from_pos to_pos : Position) : t :=
  {| worker := worker; from_pos := from_pos; to_pos := to_pos;
     is_winning_move := false |}.

Definition set_winning (self : t) : t :=
  {| worker := worker self; from_pos := from_pos self; to_pos := to_pos self;
     is_winning_move := true |}.

(** [Move.execute(self, board)]; [w] is the object [self.worker] refers to.
    Returns the boolean, the move, the worker and the board after the
    call. *)
Definition execute (self : t) (w : Worker.t) (board : Board.t)
  : Result (bool * t * Worker.t * Board.t) :=
  if negb (Board.is_valid_position board (to_pos self))
  then Ok (false, self, w, board)
  else
    let valid_moves := Board.get_valid_moves board (from_pos self) false in
    if negb (bool_decide (to_pos self ∈ valid_moves))
    then Ok (false, self, w, board)
    else match Board_place_worker board w (to_pos self) with
    | Raise e => Raise e
    | Ok (success, w', board') =>
      if success then
        match Board.get_block board' (to_pos self) with
        | None => Raise AttributeError
        | Some tile =>
          let new_level := Tile.level_value tile in
          if bool_decide (new_level = Level.value Level.LEVEL3)
          then Ok (success, set_winning self, w', board')
          else Ok (success, self, w', board')
        end
      else Ok (success, self, w', board')
    end.

Definition is_win (self : t) : bool := is_winning_move self.

End Move.

Module Build.

Record t : Type := mk { position : Position; worker_pos : Position }.

#[global] Instance eq_dec : EqDecision t.
Proof. solve_decision. Defined.

(** [Build.execute(self, board)]: the boolean and the board after the
    call. *)
Definition execute (self : t) (board : Board.t) : Result (bool * Board.t) :=
  if negb (Board.is_valid_position board (position self))
  then Ok (false, board)
  else
    let valid_builds := Board.get_valid_builds board (worker_pos self) in
    if negb (bool_decide (position self ∈ valid_builds))
    then Ok (false, board)
    else match Board.get_block board (position self) with
    | None => Raise AttributeError
    | Some tile =>
      match Tile.build tile with
      | Raise e => Raise e
      | Ok (r, tile') => Ok (r, Board.set_block board (position self) tile')
      end
    end.

End Build.

(** ** class Player *)

Module Player.

(** [dark_color] is a display string derived from [color] with floating
    point arithmetic; the engine never reads it and it is left out. *)
Record t : Type := mk {
  name : string;
  god_card : option GodCard.t;
  workers : list Worker.t;
  color : string
}.

#[global] Instance eq_dec : EqDecision t.
Proof. solve_decision. Defined.

(** [Player.__init__]; [index] is the place the player takes in
    [Game.players].  [name[0]] raises [IndexError] on an empty name. *)
Definition init (index : nat) (name : string) (god_card : option GodCard.t)
  (color : string) : Result t :=
  match name with
  | EmptyString => Raise IndexError
  | String c _ =>
    let initial := String c EmptyString in
    Ok {| name := name;
          god_card := god_card;
          workers := [ Worker.init (index, 0%nat) (initial +:+ "1");
                       Worker.init (index, 1%nat) (initial +:+ "2") ];
          color := color |}
  end.

Definition get_worker_positions (self : t) : list Position :=
  omap Worker.position (workers self).

Definition set_workers (ws : list Worker.t) (self : t) : t :=
  {| name := name self; god_card := god_card self; workers := ws;
     color := color self |}.

End Player.

(** ** class Timer

    The remaining seconds per player, the thread and the start stamp depend
    on the wall clock and are not part of the embedding; the two flags
    are. *)

Module Timer.

Record t : Type := mk { enabled : bool; running : bool }.

#[global] Instance eq_dec : EqDecision t.
Proof. solve_decision. Defined.

Definition init : t := {| enabled := true; running := false |}.

Definition start (self : t) : t :=
  if negb (enabled self) || running self then self
  else {| enabled := enabled self; running := true |}.

Definition stop (self : t) : t :=
  {| enabled := enabled self; running := false |}.

End Timer.

(** ** class Hint: the proposal it returns (a dict with a ["type"] key) *)

Inductive HintAction : Type :=
| HintSelect (worker : WorkerRef) (position : option Position)
| HintMove (position : Position)
| HintBuild (position : Position).

#[global] Instance HintAction_eq_dec : EqDecision HintAction.
Proof. solve_decision. Defined.

(** ** class Game *)

Module Game.

(** The values [Game.phase] takes: [ph_select] is the string ["select"],
    and so on. *)
Inductive Phase : Set :=
| ph_setup | ph_place | ph_select | ph_move | ph_build
| ph_second_move | ph_second_build.

#[global] Instance Phase_eq_dec : EqDecision Phase.
Proof. solve_decision. Defined.

(** The ["type"] of [Game.second_action]. *)
Inductive ActionType : Set := a_move | a_build.

#[global] Instance ActionType_eq_dec : EqDecision ActionType.
Proof. solve_decision. Defined.

(** [Game.second_action], a dict [{"type": ..., "first_pos": ...}]. *)
Record SecondAction : Type := mkSecond {
  sa_type : ActionType;
  first_pos : Position
}.

#[global] Instance SecondAction_eq_dec : EqDecision SecondAction.
Proof. solve_decision. Defined.

(** The fields of a [Game].  [winner] holds the index of the winning player
    in [players].  [gui] tells whether a GUI is attached: the engine only
    tests it and sends it notifications.  [start_time] (wall clock) and
    [last_move_data], [game_history], [game_mode] (set by [__init__] and
    never touched again) are left out. *)
Record t : Type := mk {
  board : Board.t;
  players : list Player.t;
  current_player_index : nat;
  winner : option nat;
  turn_count : Z;
  athena_activated : bool;
  gui : bool;
  selected_worker : option WorkerRef;
  phase : Phase;
  second_action : option SecondAction;
  god_power_active : bool;
  last_move : option Move.t;
  last_build : option Build.t;
  timer : option Timer.t;
  hint_counts : list Z
}.

#[global] Instance eq_dec : EqDecision t.
Proof. solve_decision. Defined.

(** [Game.__init__] *)
Definition init (gui : bool) : t :=
  {| board := Board.init 5;
     players := [];
     current_player_index := 0;
     winner := None;
     turn_count := 0;
     athena_activated := false;
     gui := gui;
     selected_worker := None;
     phase := ph_setup;
     second_action := None;
     god_power_active := false;
     last_move := None;
     last_build := None;
     timer := None;
     hint_counts := [3; 3] |}.

(** *** Assignments to the fields.  No method assigns [athena_activated] or
    [gui] after [__init__]. *)

Definition set_board (v : Board.t) (s : t) : t :=
  mk v (players s) (current_player_index s) (winner s) (turn_count s)
     (athena_activated s) (gui s) (selected_worker s) (phase s)
     (second_action s) (god_power_active s) (last_move s) (last_build s)
     (timer s) (hint_counts s).

Definition set_players (v : list Player.t) (s : t) : t :=
  mk (board s) v (current_player_index s) (winner s) (turn_count s)
     (athena_activated s) (gui s) (selected_worker s) (phase s)
     (second_action s) (god_power_active s) (last_move s) (last_build s)
     (timer s) (hint_counts s).

Definition set_current_player_index (v : nat) (s : t) : t :=
  mk (board s) (players s) v (winner s) (turn_count s)
     (athena_activated s) (gui s) (selected_worker s) (phase s)
     (second_action s) (god_power_active s) (last_move s) (last_build s)
     (timer s) (hint_counts s).

Definition set_winner (v : option nat) (s : t) : t :=
  mk (board s) (players s) (current_player_index s) v (turn_count s)
     (athena_activated s) (gui s) (selected_worker s) (phase s)
     (second_action s) (god_power_active s) (last_move s) (last_build s)
     (timer s) (hint_counts s).

Definition set_turn_count (v : Z) (s : t) : t :=
  mk (board s) (players s) (current_player_index s) (winner s) v
     (athena_activated s) (gui s) (selected_worker s) (phase s)
     (second_action s) (god_power_active s) (last_move s) (last_build s)
     (timer s) (hint_counts s).

Definition set_selected_worker (v : option WorkerRef) (s : t) : t :=
  mk (board s) (players s) (current_player_index s) (winner s) (turn_count s)
     (athena_activated s) (gui s) v (phase s)
     (second_action s) (god_power_active s) (last_move s) (last_build s)
     (timer s) (hint_counts s).

Definition set_phase (v : Phase) (s : t) : t :=
  mk (board s) (players s) (current_player_index s) (winner s) (turn_count s)
     (athena_activated s) (gui s) (selected_worker s) v
     (second_action s) (god_power_active s) (last_move s) (last_build s)
     (timer s) (hint_counts s).

Definition set_second_action (v : option SecondAction) (s : t) : t :=
  mk (board s) (players s) (current_player_index s) (winner s) (turn_count s)
     (athena_activated s) (gui s) (selected_worker s) (phase s)
     v (god_power_active s) (last_move s) (last_build s)
     (timer s) (hint_counts s).

Definition set_god_power_active (v : bool) (s : t) : t :=
  mk (board s) (players s) (current_player_index s) (winner s) (turn_count s)
     (athena_activated s) (gui s) (selected_worker s) (phase s)
     (second_action s) v (last_move s) (last_build s)
     (timer s) (hint_counts s).

Definition set_last_move (v : option Move.t) (s : t) : t :=
  mk (board s) (players s) (current_player_index s) (winner s) (turn_count s)
     (athena_activated s) (gui s) (selected_worker s) (phase s)
     (second_action s) (god_power_active s) v (last_build s)
     (timer s) (hint_counts s).

Definition set_last_build (v : option Build.t) (s : t) : t :=
  mk (board s) (players s) (current_player_index s) (winner s) (turn_count s)
     (athena_activated s) (gui s) (selected_worker s) (phase s)
     (second_action s) (god_power_active s) (last_move s) v
     (timer s) (hint_counts s).

Definition set_timer (v : option Timer.t) (s : t) : t :=
  mk (board s) (players s) (current_player_index s) (winner s) (turn_count s)
     (athena_activated s) (gui s) (selected_worker s) (phase s)
     (second_action s) (god_power_active s) (last_move s) (last_build s)
     v (hint_counts s).

Definition set_hint_counts (v : list Z) (s : t) : t :=
  mk (board s) (players s) (current_player_index s) (winner s) (turn_count s)
     (athena_activated s) (gui s) (selected_worker s) (phase s)
     (second_action s) (god_power_active s) (last_move s) (last_build s)
     (timer s) v.

(** *** The monad of the methods: a method reads and mutates the game and
    returns a value or raises; a raised exception leaves the mutations made
    so far in place. *)

Inductive Res (A : Type) : Type :=
| Done (a : A) (s : t)
| Fail (e : PyExn) (s : t).

Arguments Done {A} a s.
Arguments Fail {A} e s.

Definition M (A : Type) : Type := t -> Res A.

Definition ret {A} (a : A) : M A := fun s => Done a s.

Definition bind {A B} (m : M A) (k : A -> M B) : M B :=
  fun s => match m s with
           | Done a s' => k a s'
           | Fail e s' => Fail e s'
           end.

Definition raise {A} (e : PyExn) : M A := fun s => Fail e s.

Definition get : M t := fun s => Done s s.

Definition modify (f : t -> t) : M unit := fun s => Done tt (f s).

(** The value of a pure call that may raise. *)
Definition lift {A} (r : Result A) : M A :=
  match r with
  | Ok a => ret a
  | Raise e => raise e
  end.

(** The game after a call, however it ended. *)
Definition state_of {A} (r : Res A) : t :=
  match r with
  | Done _ s => s
  | Fail _ s => s
  end.

(** The value a call returned, if it returned. *)
Definition value_of {A} (r : Res A) : option A :=
  match r with
  | Done a _ => Some a
  | Fail _ _ => None
  end.

Notation "'let*' x := m 'in' k" := (bind m (fun x => k))
  (at level 10, x name, m at level 100, k at level 200,
   format "'[v' 'let*'  x  :=  m  'in'  '/' k ']'").
Notation "'run' m 'in' k" := (bind m (fun _ : unit => k))
  (at level 10, m at level 100, k at level 200,
   format "'[v' 'run'  m  'in'  '/' k ']'").

(** *** Access to the shared objects *)

(** The worker object a reference stands for. *)
Definition find_worker (s : t) (r : WorkerRef) : option Worker.t :=
  players s !! fst r ≫= fun p => Player.workers p !! snd r.

(** Writes a mutated worker object back to its place. *)
Definition store_worker (w : Worker.t) (s : t) : t :=
  let r := Worker.ref w in
  match players s !! fst r with
  | Some p =>
    set_players
      (<[fst r := Player.set_workers (<[snd r := w]> (Player.workers p)) p]>
         (players s)) s
  | None => s
  end.

(** Dereferences [r].  A reference held by a tile, by [selected_worker] or
    taken from [Player.workers] always stands for an object in Python; a
    reference that resolves to nothing can only come from a state the
    program does not build, and the embedding raises there. *)
Definition worker_of (r : WorkerRef) : M Worker.t :=
  fun s => match find_worker s r with
           | Some w => Done w s
           | None => Fail AttributeError s
           end.

(** The player object a worker's [player] field stands for; as for
    [worker_of], the embedding raises where the reference resolves to
    nothing. *)
Definition player_of (i : nat) : M Player.t :=
  fun s => match players s !! i with
           | Some p => Done p s
           | None => Fail AttributeError s
           end.

(** [self.board.place_worker(worker, position)] on the game's board. *)
Definition place_worker (r : WorkerRef) (position : Position) : M bool :=
  let* w := worker_of r in
  let* s := get in
  let* res := lift (Board_place_worker (board s) w position) in
  let '(ok, w', board') := res in
  run modify (set_board board') in
  run modify (store_worker w') in
  ret ok.

(** *** Timer calls and GUI notifications

    With a GUI attached the engine sends it status texts, highlights and
    board refreshes, which read the game and change nothing in it.  The one
    notification that calls back into the engine is [show_game_over], whose
    first statement is [self.game.stop_timer()]; the dialog it then opens can
    only replace the GUI's game by a fresh one and leaves this one as it
    is. *)

Definition stop_timer : M unit :=
  modify (fun s => set_timer (Timer.stop <$> timer s) s).

Definition start_timer : M unit :=
  modify (fun s => set_timer (Timer.start <$> timer s) s).

(** [if self.gui: ... self.gui.show_game_over(...)] *)
Definition gui_show_game_over : M unit :=
  let* s := get in
  if gui s then stop_timer else ret tt.

(** *** Methods *)

Definition get_current_player : M Player.t :=
  fun s => match players s !! current_player_index s with
           | Some p => Done p s
           | None => Fail IndexError s
           end.

(** [(self.current_player_index + 1) % len(self.players)] *)
Definition next_player_index : M nat :=
  let* s := get in
  if bool_decide (length (players s) = 0%nat) then raise ZeroDivisionError
  else ret ((current_player_index s + 1) `mod` length (players s))%nat.

Definition add_player (name : string) (god_card : option GodCard.t)
  (color : string) : M Player.t :=
  let* s := get in
  let* player := lift (Player.init (length (players s)) name god_card color) in
  run modify (set_players (players s ++ [player])) in
  ret player.

(** [l.pop()] on a non-empty list: the last element and the rest. *)
Definition list_pop {A} (l : list A) : option (A * list A) :=
  match reverse l with
  | [] => None
  | x :: r => Some (x, reverse r)
  end.

(** The workers in the order of
    [for player in self.players: for worker in player.workers]. *)
Definition worker_refs (s : t) : list WorkerRef :=
  p ← players s; Worker.ref <$> Player.workers p.

(** The double loop of [randomly_place_workers] over the workers that are
    left, with the positions that are left. *)
Fixpoint place_workers (refs : list WorkerRef) (available_positions : list Position)
  : M unit :=
  match refs with
  | [] => ret tt
  | r :: refs' =>
    match list_pop available_positions with
    | Some (position, rest) =>
      let* _ := place_worker r position in
      place_workers refs' rest
    | None => place_workers refs' available_positions
    end
  end.

(** [randomly_place_workers]; [shuffled] is the list of all positions as
    [random.shuffle] left it. *)
Definition randomly_place_workers (shuffled : list Position) : M unit :=
  let* s := get in
  place_workers (worker_refs s) shuffled.

(** The list [random.shuffle] receives in [randomly_place_workers]. *)
Definition all_positions (s : t) : list Position :=
  r ← range 0 (Board.size (board s)); c ← range 0 (Board.size (board s)); [(r, c)].

(** [check_game_over] returns [True], [False] or nothing; its caller takes
    the truth value. *)
Definition check_game_over : M bool :=
  let* s := get in
  if bool_decide (phase s ≠ ph_select) || bool_decide (winner s ≠ None)
  then ret false
  else
    let* current_player := get_current_player in
    let can_move :=
      existsb (fun worker =>
        match Worker.position worker with
        | Some pos =>
          bool_decide
            (Board.get_valid_moves (board s) pos (athena_activated s) ≠ [])
        | None => false
        end) (Player.workers current_player) in
    if negb can_move then
      let* w := next_player_index in
      run modify (set_winner (Some w)) in
      run gui_show_game_over in
      ret true
    else ret false.

(** [next_turn].  With a GUI, the statements between [check_game_over] and
    [start_timer] refresh the hint button, the status text, the turn
    indicator and the two clock displays; they change nothing in the game.
    They read [hint_counts[current_player_index]], the current player and
    [player_timers[0]], [player_timers[1]], which are there in a session of
    two players; the refreshes are not part of the embedding. *)
Definition next_turn : M unit :=
  run stop_timer in
  let* i := next_player_index in
  run modify (set_current_player_index i) in
  run modify (fun s => set_turn_count (turn_count s + 1) s) in
  run modify (set_selected_worker None) in
  run modify (set_phase ph_select) in
  run modify (set_second_action None) in
  run modify (set_god_power_active false) in
  let* over := check_game_over in
  if over then ret tt else start_timer.

Definition _handle_select_phase (position : Position) : M unit :=
  let* current_player := get_current_player in
  let* s := get in
  match Board.get_block (board s) position with
  | Some tile =>
    match Tile.worker tile with
    | Some wref =>
      let* worker := worker_of wref in
      if bool_decide (Worker.player worker ≠ current_player_index s) then ret tt
      else
        let valid_moves :=
          Board.get_valid_moves (board s) position (athena_activated s) in
        if bool_decide (valid_moves ≠ []) then
          run modify (set_selected_worker (Some wref)) in
          modify (set_phase ph_move)
        else ret tt
    | None => ret tt
    end
  | None => ret tt
  end.

Definition _handle_place_phase (position : Position) : M unit :=
  let* current_player := get_current_player in
  match filter (fun w => Worker.position w = None) (Player.workers current_player) with
  | worker_to_place :: _ =>
    let* placed := place_worker (Worker.ref worker_to_place) position in
    if placed then
      let* current_player := get_current_player in
      if forallb (fun w => bool_decide (Worker.position w ≠ None))
           (Player.workers current_player)
      then
        let* i := next_player_index in
        run modify (set_current_player_index i) in
        let* current_player := get_current_player in
        let* s := get in
        if forallb (fun p =>
             forallb (fun w => bool_decide (Worker.position w ≠ None))
               (Player.workers p)) (players s)
        then
          run modify (set_phase ph_select) in
          run modify (fun s => set_turn_count (turn_count s + 1) s) in
          run modify (set_selected_worker None) in
          modify (set_second_action None)
        else ret tt
      else ret tt
    else ret tt
  | [] => next_turn
  end.

Definition activate_god_power : M bool :=
  let* current_player := get_current_player in
  match Player.god_card current_player with
  | None => ret false
  | Some _ =>
    let* s := get in
    let valid_phases := [ph_select; ph_move; ph_build] in
    if negb (bool_decide (phase s ∈ valid_phases)) then ret false
    else if god_power_active s then ret false
    else
      run modify (set_god_power_active true) in
      ret true
  end.

(** [player.god_card and player.god_card.name == n] *)
Definition has_card_named (player : Player.t) (n : string) : bool :=
  match Player.god_card player with
  | Some card => bool_decide (GodCard.name card = n)
  | None => false
  end.

(** Runs [move.execute(self.board)] and writes the mutated worker and board
    back; returns the boolean and the move object after the call. *)
Definition execute_move (move : Move.t) : M (bool * Move.t) :=
  let* worker := worker_of (Move.worker move) in
  let* s := get in
  let* res := lift (Move.execute move worker (board s)) in
  let '(success, move', worker', board') := res in
  run modify (set_board board') in
  run modify (store_worker worker') in
  ret (success, move').

(** Runs [build.execute(self.board)] and writes the board back. *)
Definition execute_build (b : Build.t) : M bool :=
  let* s := get in
  let* res := lift (Build.execute b (board s)) in
  let '(success, board') := res in
  run modify (set_board board') in
  ret success.

(** The part of [_handle_move_phase] under
    [if player.god_card and ... "Artemis" and self.god_power_active]: tells
    whether the method returned from inside it (the second move was
    offered). *)
Definition offer_second_move (wref : WorkerRef) (prev_position position : Position)
  : M bool :=
  let* worker := worker_of wref in
  let* player := player_of (Worker.player worker) in
  let* s := get in
  match Player.god_card player with
  | Some card =>
    if bool_decide (GodCard.name card = "Artemis") && god_power_active s then
      let* can := lift (GodCard.can_use_power card worker (board s) position) in
      if can then
        let valid_second_moves :=
          Board.get_valid_moves (board s) position (athena_activated s) in
        let valid_second_moves :=
          if bool_decide (prev_position ∈ valid_second_moves)
          then list_remove_first prev_position valid_second_moves
          else valid_second_moves in
        if bool_decide (valid_second_moves ≠ []) then
          run modify (set_phase ph_second_move) in
          run modify (set_second_action (Some (mkSecond a_move position))) in
          ret true
        else ret false
      else ret false
    else ret false
  | None => ret false
  end.

Definition _handle_move_phase (position : Position) : M unit :=
  let* s := get in
  match selected_worker s with
  | None => ret tt
  | Some wref =>
    let* worker := worker_of wref in
    match Worker.position worker with
    | None => raise TypeError
    | Some prev_position =>
      let valid_moves :=
        Board.get_valid_moves (board s) prev_position (athena_activated s) in
      if bool_decide (position ∈ valid_moves) then
        match Board.get_block (board s) prev_position with
        | None => raise AttributeError
        | Some prev_tile =>
          let move := Move.init wref prev_position position in
          let* r := execute_move move in
          let '(success, move) := r in
          if success then
            run modify (set_last_move (Some move)) in
            if Move.is_win move then
              run modify (set_winner (Some (Worker.player worker))) in
              gui_show_game_over
            else
              let* offered := offer_second_move wref prev_position position in
              if offered then ret tt else modify (set_phase ph_build)
          else ret tt
        end
      else ret tt
    end
  end.

(** The branch of [_handle_build_phase] under
    [if position == self.selected_worker.position]: when the tile is not a
    dome and below level 3, the worker is taken off the tile, the tile is
    built on and the worker is put back.  Tells whether that was done. *)
Definition build_under_worker (position : Position) : M bool :=
  let* s := get in
  match Board.get_block (board s) position with
  | Some tile =>
    if negb (Tile.is_dome tile) && bool_decide (Tile.level_value tile < 3)
    then
      let worker := Tile.worker tile in
      let lifted := {| Tile.level := Tile.level tile; Tile.worker := None |} in
      run modify (fun s => set_board (Board.set_block (board s) position lifted) s) in
      let* r := lift (Tile.build lifted) in
      let '(_, built) := r in
      run modify (fun s =>
        set_board (Board.set_block (board s) position
                     {| Tile.level := Tile.level built; Tile.worker := worker |}) s) in
      ret true
    else ret false
  | None => ret false
  end.

Definition _handle_build_phase (position : Position) : M unit :=
  let* s := get in
  match selected_worker s with
  | None => ret tt
  | Some wref =>
    let* current_player := get_current_player in
    let is_zeus := god_power_active s && has_card_named current_player "Zeus" in
    let* worker := worker_of wref in
    match Worker.position worker with
    | None => raise TypeError
    | Some worker_pos =>
      let valid_builds :=
        if is_zeus then Board.get_valid_builds_with_zeus (board s) worker_pos
        else Board.get_valid_builds (board s) worker_pos in
      if bool_decide (position ∈ valid_builds) then
        if bool_decide (position = worker_pos) then
          let* built := build_under_worker position in
          if built then next_turn else ret tt
        else
          let build := Build.mk position worker_pos in
          let* success := execute_build build in
          if success then
            run modify (set_last_build (Some build)) in
            let* player := player_of (Worker.player worker) in
            let* offered :=
              if has_card_named player "Demeter" && god_power_active s
                 && existsb (fun pos => bool_decide (pos ≠ position)) valid_builds
              then
                let valid_second_builds :=
                  filter (fun pos => pos ≠ position) valid_builds in
                if bool_decide (valid_second_builds ≠ []) then
                  run modify (set_phase ph_second_build) in
                  run modify (set_second_action (Some (mkSecond a_build position))) in
                  ret true
                else ret false
              else ret false in
            if offered then ret tt else next_turn
          else ret tt
      else ret tt
    end
  end.

(** The list [valid_moves] of [_handle_second_move_phase], once the
    statement that removes the worker's previous position has run; the
    worker stands on [position]. *)
Definition second_move_targets (board : Board.t) (athena_activated : bool)
  (worker : Worker.t) (position : Position) : list Position :=
  let valid_moves := Board.get_valid_moves board position athena_activated in
  match Worker.prev_position worker with
  | Some pp =>
    if bool_decide (pp ∈ valid_moves)
    then list_remove_first pp valid_moves else valid_moves
  | None => valid_moves
  end.

Definition _handle_second_move_phase (position : Position) : M unit :=
  let* s := get in
  match selected_worker s, second_action s with
  | Some wref, Some action =>
    if bool_decide (sa_type action ≠ a_move) then ret tt
    else
      let first_pos := first_pos action in
      let* worker := worker_of wref in
      match Worker.position worker with
      | None => raise TypeError
      | Some prev_position =>
        let valid_moves :=
          second_move_targets (board s) (athena_activated s) worker prev_position in
        if bool_decide (position ∈ valid_moves) then
          let move := Move.init wref prev_position position in
          let* r := execute_move move in
          let '(success, move) := r in
          if success then
            if Move.is_win move then
              run modify (set_winner (Some (Worker.player worker))) in
              gui_show_game_over
            else modify (set_phase ph_build)
          else ret tt
        else ret tt
      end
  | _, _ => ret tt
  end.

Definition _handle_second_build_phase (position : Position) : M unit :=
  let* s := get in
  match selected_worker s, second_action s with
  | Some wref, Some action =>
    if bool_decide (sa_type action ≠ a_build) then ret tt
    else
      let first_build_pos := first_pos action in
      let* worker := worker_of wref in
      match Worker.position worker with
      | None => raise TypeError
      | Some worker_pos =>
        let valid_builds :=
          filter (fun pos => pos ≠ first_build_pos)
            (Board.get_valid_builds (board s) worker_pos) in
        if bool_decide (position ∈ valid_builds) then
          let build := Build.mk position worker_pos in
          let* success := execute_build build in
          if success then next_turn else ret tt
        else ret tt
      end
  | _, _ => ret tt
  end.

Definition handle_tile_click (row col : Z) : M unit :=
  let* s := get in
  if bool_decide (winner s ≠ None) then ret tt
  else
    let position := (row, col) in
    match phase s with
    | ph_place => _handle_place_phase position
    | ph_select => _handle_select_phase position
    | ph_move => _handle_move_phase position
    | ph_build => _handle_build_phase position
    | ph_second_move => _handle_second_move_phase position
    | ph_second_build => _handle_second_build_phase position
    | ph_setup => ret tt
    end.

Definition skip_second_action : M unit :=
  let* s := get in
  if bool_decide (phase s = ph_second_move) then
    run modify (set_phase ph_build) in
    match selected_worker s with
    | None => raise AttributeError
    | Some wref =>
      let* worker := worker_of wref in
      match Worker.position worker with
      | None => raise TypeError
      | Some _ => ret tt
      end
    end
  else if bool_decide (phase s = ph_second_build) then next_turn
  else ret tt.

Definition initialize_timers : M unit := modify (set_timer (Some Timer.init)).

(** [Game.handle_timeout].  With a GUI, the status text reads the current
    player's name once the winner is set. *)
Definition handle_timeout : M unit :=
  let* s := get in
  if bool_decide (winner s = None) then
    let* w := next_player_index in
    run modify (set_winner (Some w)) in
    if gui s then
      let* _ := get_current_player in
      gui_show_game_over
    else ret tt
  else ret tt.

(** [Timer.handle_timeout], on the timer's game. *)
Definition Timer_handle_timeout : M unit :=
  let* s := get in
  if bool_decide (winner s = None) then
    let* w := next_player_index in
    run modify (set_winner (Some w)) in
    if gui s then
      let* _ := get_current_player in
      gui_show_game_over
    else ret tt
  else ret tt.

(** The branch of [Timer.start]'s [timer_tick] taken when the current
    player's time has run out: [self.running = False].  With a GUI the
    branch also hands [Timer.handle_timeout] to the event loop
    ([root.after(0, ...)]), which calls it later. *)
Definition Timer_tick_expired : M unit :=
  modify (fun s => set_timer (Timer.stop <$> timer s) s).

(** The expiry of a clock when the event loop runs the scheduled
    [Timer.handle_timeout] before any other event: the branch of the tick,
    then the callback.  The event loop may also run other handlers first;
    the callback then finds the game as they left it. *)
Definition timer_expired : M unit :=
  run Timer_tick_expired in
  let* s := get in
  if gui s then Timer_handle_timeout else ret tt.

(** [start_game]; [shuffled] as in [randomly_place_workers].  With a GUI,
    the turn indicator reads the current player; the refresh of the two
    clock displays, which reads [player_timers[0]] and [player_timers[1]],
    is not part of the embedding, as in [next_turn]. *)
Definition start_game (shuffled : list Position) : M unit :=
  run randomly_place_workers shuffled in
  run initialize_timers in
  run modify (set_phase ph_select) in
  let* s := get in
  run (if gui s then let* _ := get_current_player in ret tt else ret tt) in
  start_timer.

(** *** class Hint and Game.provide_hint *)

(** The loop of [Hint.find_best_move] in phase ["select"]; the accumulator
    is [(best_score, best_action)]. *)
Definition hint_select_step (s : t) (acc : Z * option HintAction)
  (worker : Worker.t) : Z * option HintAction :=
  let '(best_score, best_action) := acc in
  match Worker.position worker with
  | None => acc
  | Some pos =>
    let valid_moves := Board.get_valid_moves (board s) pos (athena_activated s) in
    if bool_decide (valid_moves ≠ []) then
      if bool_decide (Z.of_nat (length valid_moves) > best_score)
      then (Z.of_nat (length valid_moves),
            Some (HintSelect (Worker.ref worker) (Worker.position worker)))
      else acc
    else acc
  end.

(** The loop in phase ["move"]. *)
Definition hint_move_step (s : t) (worker_pos : Position)
  (acc : Result (Z * option HintAction)) (move_pos : Position)
  : Result (Z * option HintAction) :=
  match acc with
  | Raise e => Raise e
  | Ok (best_score, best_action) =>
    match Board.get_block (board s) worker_pos, Board.get_block (board s) move_pos with
    | Some current_tile, Some target_tile =>
      let score := 0 in
      let current_level := Tile.level_value current_tile in
      let target_level := Tile.level_value target_tile in
      let score :=
        if bool_decide (target_level > current_level)
        then score + 5 * (target_level - current_level) else score in
      let score :=
        if bool_decide (target_level = 3) then score + 100 else score in
      if bool_decide (score > best_score)
      then Ok (score, Some (HintMove move_pos))
      else Ok (best_score, best_action)
    | _, _ => Raise AttributeError
    end
  end.

(** The loop in phase ["build"]. *)
Definition hint_build_step (s : t)
  (acc : Result (Z * option HintAction)) (build_pos : Position)
  : Result (Z * option HintAction) :=
  match acc with
  | Raise e => Raise e
  | Ok (best_score, best_action) =>
    match Board.get_block (board s) build_pos with
    | Some tile =>
      let build_level := Tile.level_value tile in
      let score := 3 - build_level in
      if bool_decide (score > best_score)
      then Ok (score, Some (HintBuild build_pos))
      else Ok (best_score, best_action)
    | None => Raise AttributeError
    end
  end.

(** [Hint.find_best_move(game)] *)
Definition Hint_find_best_move : M (option HintAction) :=
  let* current_player := get_current_player in
  let* s := get in
  let start : Z * option HintAction := (-1, None) in
  match phase s, selected_worker s with
  | ph_select, _ =>
    ret (snd (foldl (hint_select_step s) start (Player.workers current_player)))
  | ph_move, Some wref =>
    let* worker := worker_of wref in
    match Worker.position worker with
    | None => raise TypeError
    | Some worker_pos =>
      let valid_moves :=
        Board.get_valid_moves (board s) worker_pos (athena_activated s) in
      let* best := lift (foldl (hint_move_step s worker_pos) (Ok start) valid_moves) in
      ret (snd best)
    end
  | ph_build, Some wref =>
    let* worker := worker_of wref in
    match Worker.position worker with
    | None => raise TypeError
    | Some worker_pos =>
      let valid_builds := Board.get_valid_builds (board s) worker_pos in
      let* best := lift (foldl (hint_build_step s) (Ok start) valid_builds) in
      ret (snd best)
    end
  | _, _ => ret None
  end.

(** [self.hint_counts[i]] *)
Definition hint_count (i : nat) : M Z :=
  fun s => match hint_counts s !! i with
           | Some c => Done c s
           | None => Fail IndexError s
           end.

(** [self.hint_counts[i] += d] *)
Definition add_hint_count (i : nat) (d : Z) : M unit :=
  let* c := hint_count i in
  modify (fun s => set_hint_counts (<[i := c + d]> (hint_counts s)) s).

(** [provide_hint].  With a GUI, the status text of the refusal reads the
    current player's name; the other status texts and the highlight are
    built from the proposal and the count at hand. *)
Definition provide_hint : M (option HintAction) :=
  let* s := get in
  if bool_decide (winner s ≠ None) then ret None
  else
    let player_index := current_player_index s in
    let* c := hint_count player_index in
    if bool_decide (c <= 0) then
      if gui s then
        let* _ := get_current_player in
        ret None
      else ret None
    else
      run add_hint_count player_index (-1) in
      let* hint := Hint_find_best_move in
      match hint with
      | None =>
        run add_hint_count player_index 1 in
        ret None
      | Some h => ret (Some h)
      end.

End Game.

(** ** class SantoriniGUI (gui.py): the calls into the engine *)

Module SantoriniGUI.

(** [simpledialog.askstring(...) or default] *)
Definition name_or (answer : option string) (default : string) : string :=
  match answer with
  | Some (String c r) => String c r
  | _ => default
  end.

(** The cards [new_game] hands to player 1 and player 2.  [god_cards] is the
    list [[Artemis(), Demeter()]] as [random.shuffle] left it and [choice]
    is the value of [random.choice([True, False])]. *)
Definition deal_cards (god_cards : list GodCard.t) (choice : bool)
  : Result (GodCard.t * GodCard.t) :=
  let zeus := GodCard.Zeus in
  match god_cards !! 0%nat with
  | Some first => Ok (if choice then (zeus, first) else (first, zeus))
  | None => Raise IndexError
  end.

(** [new_game]: the game it builds, run from [Game(gui=self)].
    [shuffled] is the list of board positions as [random.shuffle] left it in
    [randomly_place_workers]. *)
Definition new_game (p1_answer p2_answer : option string)
  (god_cards : list GodCard.t) (choice : bool) (shuffled : list Position)
  : Game.Res unit :=
  let p1_name := name_or p1_answer "Player 1" in
  let p2_name := name_or p2_answer "Player 2" in
  Game.bind (Game.lift (deal_cards god_cards choice)) (fun cards =>
  Game.bind (Game.add_player p1_name (Some (fst cards)) "#00D0FF") (fun _ =>
  Game.bind (Game.add_player p2_name (Some (snd cards)) "#FF0088") (fun _ =>
  Game.bind Game.get_current_player (fun _ =>
  Game.start_game shuffled))))
  (Game.init true).

(** [activate_god_power(self, player_index)], bound to a click on a player's
    card. *)
Definition activate_god_power (player_index : nat) : Game.M unit :=
  Game.bind Game.get (fun s =>
  if bool_decide (Game.current_player_index s = player_index)
  then Game.bind Game.activate_god_power (fun _ => Game.ret tt)
  else Game.ret tt).

(** [show_hint], bound to the hint button. *)
Definition show_hint : Game.M unit :=
  Game.bind Game.get (fun s =>
  if bool_decide (Game.winner s = None) then
    Game.bind (Game.hint_count (Game.current_player_index s)) (fun c =>
    if bool_decide (c <= 0) then Game.ret tt
    else Game.bind Game.provide_hint (fun _ => Game.ret tt))
  else Game.bind Game.provide_hint (fun _ => Game.ret tt)).

End SantoriniGUI.

(** * Vocabulary of the properties *)

(** The grid has [size] rows of [size] tiles. *)
Definition Board_wf (b : Board.t) : Prop :=
  length (Board.grid b) = Z.to_nat (Board.size b) ∧
  Forall (fun r => length r = Z.to_nat (Board.size b)) (Board.grid b).

(** The Moore neighbourhood of [p], clipped at the edges of the board. *)
Definition Board_adjacent (b : Board.t) (p a : Position) : Prop :=
  a ≠ p ∧ Board.is_valid_position b a = true ∧
  p.1 - 1 <= a.1 <= p.1 + 1 ∧ p.2 - 1 <= a.2 <= p.2 + 1.

(** The calls that reach a game from outside: the two calls that set a
    session up, the calls bound to the widgets of the GUI, and the expiry of
    a clock. *)
Inductive Call : Type :=
| CAddPlayer (name : string) (god_card : option GodCard.t) (color : string)
| CStartGame (shuffled : list Position)
| CTileClick (row col : Z)
| CSkipSecondAction
| CActivateGodPower
| CProvideHint
| CHandleTimeout
| CTimerExpired
| CGuiActivateGodPower (player_index : nat)
| CGuiShowHint.

Definition perform (c : Call) : Game.M unit :=
  match c with
  | CAddPlayer name god_card color =>
    Game.bind (Game.add_player name god_card color) (fun _ => Game.ret tt)
  | CStartGame shuffled => Game.start_game shuffled
  | CTileClick row col => Game.handle_tile_click row col
  | CSkipSecondAction => Game.skip_second_action
  | CActivateGodPower =>
    Game.bind Game.activate_god_power (fun _ => Game.ret tt)
  | CProvideHint => Game.bind Game.provide_hint (fun _ => Game.ret tt)
  | CHandleTimeout => Game.handle_timeout
  | CTimerExpired => Game.timer_expired
  | CGuiActivateGodPower i => SantoriniGUI.activate_god_power i
  | CGuiShowHint => SantoriniGUI.show_hint
  end.

(** The states a game goes through, whether its calls return or raise. *)
Inductive reachable : Game.t → Prop :=
| reachable_init gui : reachable (Game.init gui)
| reachable_call c s : reachable s → reachable (Game.state_of (perform c s)).

(** A call leaves every state in relation [R] with the state it ends in. *)
Definition preserves {A} (R : relation Game.t) (m : Game.M A) : Prop :=
  ∀ s, R s (Game.state_of (m s)).

(** No tile of [b'] is lower than the same tile of [b]. *)
Definition Board_levels_le (b b' : Board.t) : Prop :=
  Board.size b' = Board.size b ∧
  ∀ p t, Board.get_block b p = Some t →
    ∃ t', Board.get_block b' p = Some t' ∧
      Level.value (Tile.level t) <= Level.value (Tile.level t').

Definition levels_le (s s' : Game.t) : Prop :=
  Board_levels_le (Game.board s) (Game.board s').

(** [athena_activated] is the same in both states. *)
Definition same_athena (s s' : Game.t) : Prop :=
  Game.athena_activated s' = Game.athena_activated s.

(** From [s] to [s'] the turn counter has not gone back, and if it has not
    moved an active god power is still active. *)
Definition power_kept (s s' : Game.t) : Prop :=
  Game.turn_count s <= Game.turn_count s' ∧
  (Game.turn_count s' = Game.turn_count s →
   Game.god_power_active s = true → Game.god_power_active s' = true).

(** Every tile of [b'] is as high as the same tile of [b]. *)
Definition Board_same_levels (b b' : Board.t) : Prop :=
  Board.size b' = Board.size b ∧
  ∀ p, Tile.level <$> Board.get_block b' p = Tile.level <$> Board.get_block b p.

(** The turn counter has not gone back. *)
Definition turn_le (s s' : Game.t) : Prop :=
  Game.turn_count s <= Game.turn_count s'.

(** The board of the scenarios: an empty board with one worker on
    [(2, 2)], as [Worker.move_to] leaves it, and the same board once that
    worker has built on [(1, 1)], as [Build.execute] leaves it. *)
Definition scenario_worker : Worker.t := Worker.init (0%nat, 0%nat) "A1".

Definition board_worker_22 : Result (bool * Worker.t * Board.t) :=
  Worker_move_to scenario_worker (2, 2) (Board.init 5).

Definition board_raised_11 : Result (bool * Board.t) :=
  match board_worker_22 with
  | Ok (_, _, b) => Build.execute (Build.mk (1, 1) (2, 2)) b
  | Raise e => Raise e
  end.

(** A board on which the corner [(0, 0)] is walled in by three domes. *)
Definition board_walled_corner : Board.t :=
  let dome := {| Tile.level := Level.DOME; Tile.worker := None |} in
  Board.set_block (Board.set_block (Board.set_block (Board.init 5)
    (0, 1) dome) (1, 0) dome) (1, 1) dome.

(** [god_power_active] is the same in both states. *)
Definition same_power (s s' : Game.t) : Prop :=
  Game.god_power_active s' = Game.god_power_active s.

(** The state after a list of calls, in order. *)
Definition run_calls (cs : list Call) (s : Game.t) : Game.t :=
  foldl (fun s c => Game.state_of (perform c s)) s cs.

(** The spec's [canActivate] for a state: the current player's card says
    its power can be used, for the selected worker if there is one and for
    some worker of the player otherwise. *)
Definition can_activate (s : Game.t) : Prop :=
  ∃ (p : Player.t) (card : GodCard.t) (w : Worker.t) (pos : Position),
    Game.players s !! Game.current_player_index s = Some p ∧
    Player.god_card p = Some card ∧
    match Game.selected_worker s with
    | Some r => Game.find_worker s r = Some w
    | None => w ∈ Player.workers p
    end ∧
    Worker.position w = Some pos ∧
    GodCard.can_use_power card w (Game.board s) pos = Ok true.

(** The positions of a board of size 5 in the order in which
    [randomly_place_workers] lists them. *)
Definition positions_5 : list Position := Game.all_positions (Game.init true).

(** A shuffle that leaves the list as it is: the workers of player 1 go to
    (4,4) and (4,3), those of player 2 to (4,2) and (4,1). *)
Definition shuffle_id : list Position := positions_5.

(** A shuffle that sends the workers of player 1 to (0,1) and (1,1) and
    those of player 2 to (1,0) and (4,4). *)
Definition shuffle_corner : list Position :=
  filter (fun p => p ∉ [(4,4); (1,0); (1,1); (0,1)]) positions_5
  ++ [(4,4); (1,0); (1,1); (0,1)].

(** A session as [new_game] sets it up, call by call. *)
Definition session (p1 p2 : string) (c1 c2 : GodCard.t)
  (shuffled : list Position) : list Call :=
  [ CAddPlayer p1 (Some c1) "#00D0FF";
    CAddPlayer p2 (Some c2) "#FF0088";
    CStartGame shuffled ].

(** Player 1 holds Artemis and player 2 Zeus; player 1 turns the power on,
    selects the worker on (4,4) and moves it to (3,3), and is offered a second
    move. *)
Definition game_second_move : Game.t :=
  run_calls
    (session "Player 1" "Player 2" GodCard.Artemis GodCard.Zeus shuffle_id
     ++ [CActivateGodPower; CTileClick 4 4; CTileClick 3 3])
    (Game.init true).

(** The same game once player 1's clock has run out during the second
    move. *)
Definition game_timed_out : Game.t :=
  run_calls [CTimerExpired] game_second_move.

(** A fresh session in which player 1's clock runs out before any move. *)
Definition game_timed_out_at_start : Game.t :=
  run_calls
    (session "Player 1" "Player 2" GodCard.Artemis GodCard.Zeus shuffle_id
     ++ [CTimerExpired])
    (Game.init true).

(** Player 1 holds Demeter and player 2 Zeus; player 1 selects the worker on
    (0,1) and moves it into the corner (0,0), from where a single tile can be
    built on. *)
Definition game_cornered : Game.t :=
  run_calls
    (session "Player 1" "Player 2" GodCard.Demeter GodCard.Zeus shuffle_corner
     ++ [CTileClick 0 1; CTileClick 0 0])
    (Game.init true).

(** No hint count is negative. *)
Definition hints_nonneg (s : Game.t) : Prop :=
  Forall (fun c => 0 <= c) (Game.hint_counts s).

(** A call does not make a hint count negative. *)
Definition hints_kept_nonneg (s s' : Game.t) : Prop :=
  hints_nonneg s → hints_nonneg s'.

(** The game after the statement [self.hint_counts[player_index] -= 1] of
    [provide_hint], when the count was [c]. *)
Definition hint_taken (s : Game.t) (c : Z) : Game.t :=
  Game.set_hint_counts
    (<[Game.current_player_index s := c - 1]> (Game.hint_counts s)) s.

(** The players, with their workers, are the same in both states. *)
Definition same_players (s s' : Game.t) : Prop :=
  Game.players s' = Game.players s.

(** The players hold the same cards in both states. *)
Definition same_cards (s s' : Game.t) : Prop :=
  Player.god_card <$> Game.players s' = Player.god_card <$> Game.players s.

(** The worker object [w] once it has moved to [pos]. *)
Definition moved (w : Worker.t) (pos : Position) : Worker.t :=
  {| Worker.ref := Worker.ref w;
     Worker.name := Worker.name w;
     Worker.position := Some pos;
     Worker.prev_position := Worker.position w |}.

(** The tile [t] once the worker [r] stands on it. *)
Definition occupied (t : Tile.t) (r : WorkerRef) : Tile.t :=
  {| Tile.level := Tile.level t; Tile.worker := Some r |}.

(** Worker [r] stands on [pos]: the worker object says so and the tile
    says so. *)
Definition placed_at (s : Game.t) (r : WorkerRef) (pos : Position) : Prop :=
  ∃ w t,
    Game.find_worker s r = Some w ∧ Worker.ref w = r ∧
    Worker.position w = Some pos ∧
    Board.is_valid_position (Game.board s) pos = true ∧
    Board.get_block (Game.board s) pos = Some t ∧ Tile.worker t = Some r.

(** A game with its two players added and nothing else done. *)
Definition two_players (gui : bool) (n1 : string) (c1 : option GodCard.t)
  (col1 : string) (n2 : string) (c2 : option GodCard.t) (col2 : string)
  : Game.Res Player.t :=
  Game.bind (Game.add_player n1 c1 col1) (fun _ => Game.add_player n2 c2 col2)
    (Game.init gui).

(** The card of a player without a special ability: no card at all, or an
    instance of the base class [GodCard], whose [can_use_power] is always
    false. *)
Definition default_card (c : option GodCard.t) : Prop :=
  c = None ∨ ∃ n, c = Some (GodCard.Base n).

(** The game of [game_second_move] just before the first move: player 1
    has turned Artemis on and selected the worker on (4,4). *)
Definition game_selected : Game.t :=
  run_calls
    (session "Player 1" "Player 2" GodCard.Artemis GodCard.Zeus shuffle_id
     ++ [CActivateGodPower; CTileClick 4 4])
    (Game.init true).

(** Player 1 holds Demeter and player 2 Zeus; player 1 turns the power on,
    moves the worker on (4,4) to (3,3) and builds on (2,2); a second build is
    offered. *)
Definition game_second_build : Game.t :=
  run_calls
    (session "Player 1" "Player 2" GodCard.Demeter GodCard.Zeus shuffle_id
     ++ [CActivateGodPower; CTileClick 4 4; CTileClick 3 3; CTileClick 2 2])
    (Game.init true).

(** The tile [t] once its worker has left. *)
Definition vacated (t : Tile.t) : Tile.t :=
  {| Tile.level := Tile.level t; Tile.worker := None |}.

(** The tile at [q] after the worker [w] has moved to [pos], when it was
    [t] before. *)
Definition tile_after_move (w : Worker.t) (pos q : Position) (t : Tile.t)
  : Tile.t :=
  if decide (q = pos) then occupied t (Worker.ref w)
  else if decide (Worker.position w = Some q) then vacated t
  else t.

(** The board [b'] has the size of [b], and is well-formed if [b] is. *)
Definition Board_shape_kept (b b' : Board.t) : Prop :=
  Board.size b' = Board.size b ∧ (Board_wf b → Board_wf b').

(** The board keeps its size, and stays well-formed if it was. *)
Definition board_shape_kept (s s' : Game.t) : Prop :=
  Board_shape_kept (Game.board s) (Game.board s').

(** The winner, if there is one, is the same afterwards. *)
Definition winner_kept (s s' : Game.t) : Prop :=
  ∀ i, Game.winner s = Some i → Game.winner s' = Some i.

(** [winner] is the same in both states. *)
Definition same_winner (s s' : Game.t) : Prop :=
  Game.winner s' = Game.winner s.

(** The workers and the tiles agree: every worker object carries the
    reference it is found under, every placed worker is on the tile its
    position names, and every tile that holds a worker holds one whose
    position is that tile. *)
Definition workers_consistent (s : Game.t) : Prop :=
  Board_wf (Game.board s) ∧
  (∀ r w, Game.find_worker s r = Some w → Worker.ref w = r) ∧
  (∀ r w pos,
     Game.find_worker s r = Some w → Worker.position w = Some pos →
     ∃ t, Board.get_block (Game.board s) pos = Some t ∧ Tile.worker t = Some r) ∧
  (∀ pos t r,
     Board.get_block (Game.board s) pos = Some t → Tile.worker t = Some r →
     ∃ w, Game.find_worker s r = Some w ∧ Worker.position w = Some pos).

(** The workers and the tiles agree afterwards if they did before. *)
Definition consistent_kept (s s' : Game.t) : Prop :=
  workers_consistent s → workers_consistent s'.

(** Every tile of [b'] holds the worker the same tile of [b] holds. *)
Definition Board_same_workers (b b' : Board.t) : Prop :=
  ∀ q, Tile.worker <$> Board.get_block b' q = Tile.worker <$> Board.get_block b q.

(** The phase is not ["place"] afterwards unless it was before. *)
Definition place_kept_out (s s' : Game.t) : Prop :=
  Game.phase s ≠ Game.ph_place → Game.phase s' ≠ Game.ph_place.

(** No placed worker of player [p] has a tile to move to. *)
Definition stuck (s : Game.t) (p : Player.t) : Prop :=
  ∀ w pos, w ∈ Player.workers p → Worker.position w = Some pos →
    Board.get_valid_moves (Game.board s) pos (Game.athena_activated s) = [].

(** The tile at [pos] holds the worker [r] of the player whose turn it is,
    and the worker has a tile to move to. *)
Definition selectable (s : Game.t) (pos : Position) (r : WorkerRef) : Prop :=
  ∃ t, Board.get_block (Game.board s) pos = Some t ∧ Tile.worker t = Some r ∧
       fst r = Game.current_player_index s ∧
       Board.get_valid_moves (Game.board s) pos (Game.athena_activated s) ≠ [].

(** The list [valid_builds] of [_handle_build_phase] for a worker on [wp],
    when [cp] is the player whose turn it is. *)
Definition build_targets (s : Game.t) (cp : Player.t) (wp : Position)
  : list Position :=
  if Game.god_power_active s && Game.has_card_named cp "Zeus"
  then Board.get_valid_builds_with_zeus (Game.board s) wp
  else Board.get_valid_builds (Game.board s) wp.

(** The tile [t'] is [t] one level higher, with the same occupant. *)
Definition raised (t t' : Tile.t) : Prop :=
  Tile.worker t' = Tile.worker t ∧
  Level.value (Tile.level t') = Level.value (Tile.level t) + 1.

(** The game with the tile [t'] at [pos]. *)
Definition built_on (s : Game.t) (pos : Position) (t' : Tile.t) : Game.t :=
  Game.set_board (Board.set_block (Game.board s) pos t') s.



(** One step of a search for the first candidate of the best score: the
    accumulator holds the best score so far and the proposal that has it. *)
Definition best_step {A} (score : A → Z) (act : A → HintAction)
  (acc : Z * option HintAction) (x : A) : Z * option HintAction :=
  if bool_decide (score x > acc.1) then (score x, Some (act x)) else acc.

(** The score [Hint.find_best_move] gives a worker in phase ["select"]: the
    number of tiles it can move to; a worker that is not placed or cannot
    move is passed over. *)
Definition hint_select_score (s : Game.t) (w : Worker.t) : Z :=
  match Worker.position w with
  | Some pos =>
    let valid_moves :=
      Board.get_valid_moves (Game.board s) pos (Game.athena_activated s) in
    if bool_decide (valid_moves ≠ []) then Z.of_nat (length valid_moves) else -1
  | None => -1
  end.

(** The score of a move from a tile at level [cur] to one at level [tgt]. *)
Definition hint_move_score (cur tgt : Z) : Z :=
  (if bool_decide (tgt > cur) then 5 * (tgt - cur) else 0)
  + (if bool_decide (tgt = 3) then 100 else 0).

(** The level of the tile at [p]; 0 off the board. *)
Definition level_at (s : Game.t) (p : Position) : Z :=
  match Board.get_block (Game.board s) p with
  | Some t => Tile.level_value t
  | None => 0
  end.


(** The selected worker, if there is one, is a placed worker of the game. *)
Definition selection_ok (s : Game.t) : Prop :=
  ∀ r, Game.selected_worker s = Some r →
    ∃ w, Game.find_worker s r = Some w ∧ is_Some (Worker.position w).

(** A session in play: two players with a hint count each, a valid turn
    index, workers and tiles that agree, a selection that stands for a
    placed worker and is there during a second move, and a phase other than
    ["place"]. *)
Definition in_play (s : Game.t) : Prop :=
  workers_consistent s ∧
  length (Game.players s) = 2%nat ∧ length (Game.hint_counts s) = 2%nat ∧
  (Game.current_player_index s < 2)%nat ∧
  selection_ok s ∧
  (Game.phase s = Game.ph_second_move → is_Some (Game.selected_worker s)) ∧
  Game.phase s ≠ Game.ph_place.


(** The numbers of players and of hint counts are kept, and so is the
    validity of the turn index. *)
Definition seats_kept (s s' : Game.t) : Prop :=
  length (Game.players s') = length (Game.players s) ∧
  length (Game.hint_counts s') = length (Game.hint_counts s) ∧
  ((Game.current_player_index s < length (Game.players s))%nat →
   (Game.current_player_index s' < length (Game.players s'))%nat).

(** Consistency and a good selection are kept. *)
Definition selection_kept (s s' : Game.t) : Prop :=
  workers_consistent s ∧ selection_ok s →
  workers_consistent s' ∧ selection_ok s'.

(** The phase is not ["second_move"] afterwards unless it was before. *)
Definition second_move_kept_out (s s' : Game.t) : Prop :=
  Game.phase s ≠ Game.ph_second_move → Game.phase s' ≠ Game.ph_second_move.

(** [selected_worker] is the same in both states. *)
Definition same_selected (s s' : Game.t) : Prop :=
  Game.selected_worker s' = Game.selected_worker s.

(** [selected_worker] and [phase] are the same in both states. *)
Definition same_selection_phase (s s' : Game.t) : Prop :=
  Game.selected_worker s' = Game.selected_worker s ∧
  Game.phase s' = Game.phase s.


(** The turn, the winner, the turn counter, the hint counts and the GUI
    are the same in both states. *)
Definition same_round (s s' : Game.t) : Prop :=
  Game.current_player_index s' = Game.current_player_index s ∧
  Game.winner s' = Game.winner s ∧
  Game.turn_count s' = Game.turn_count s ∧
  Game.hint_counts s' = Game.hint_counts s ∧
  Game.gui s' = Game.gui s.


(** * Properties *)

(** ** Boards *)

Module BoardFacts.

Lemma length_range lo hi : length (range lo hi) = Z.to_nat (hi - lo).
Proof. apply length_seqZ. Qed.

Lemma elem_of_range x lo hi : x ∈ range lo hi ↔ lo <= x < hi.
Proof. unfold range. rewrite elem_of_seqZ. lia. Qed.

Lemma NoDup_range lo hi : NoDup (range lo hi).
Proof. apply NoDup_seqZ. Qed.

Lemma wf_init n : Board_wf (Board.init n).
Proof.
  split; simpl.
  - rewrite length_map, length_range. f_equal. lia.
  - apply Forall_forall. intros r Hr. apply list_elem_of_fmap in Hr as (? & -> & _).
    rewrite length_map, length_range. f_equal. lia.
Qed.

Lemma valid_iff b row col :
  Board.is_valid_position b (row, col) = true ↔
  0 <= row < Board.size b ∧ 0 <= col < Board.size b.
Proof.
  unfold Board.is_valid_position. rewrite andb_true_iff, !bool_decide_eq_true.
  tauto.
Qed.

Lemma get_block_Some_valid b p t :
  Board.get_block b p = Some t → Board.is_valid_position b p = true.
Proof.
  destruct p as [row col]. unfold Board.get_block.
  destruct (Board.is_valid_position b (row, col)); [done | discriminate].
Qed.

Lemma get_block_invalid b p :
  Board.is_valid_position b p = false → Board.get_block b p = None.
Proof. destruct p as [row col]. unfold Board.get_block. by intros ->. Qed.

Lemma get_block_valid b p :
  Board_wf b → Board.is_valid_position b p = true → is_Some (Board.get_block b p).
Proof.
  intros [Hlen Hrows] Hv. destruct p as [row col]. unfold Board.get_block.
  rewrite Hv. apply valid_iff in Hv as [Hr Hc].
  destruct (lookup_lt_is_Some_2 (Board.grid b) (Z.to_nat row)) as [r Hrow]; [lia|].
  rewrite Hrow. simpl.
  apply lookup_lt_is_Some_2.
  rewrite Forall_forall in Hrows.
  rewrite (Hrows r); [lia|]. by eapply list_elem_of_lookup_2.
Qed.

Lemma size_set_block b p t : Board.size (Board.set_block b p t) = Board.size b.
Proof.
  destruct p as [row col]. unfold Board.set_block.
  by destruct (Board.is_valid_position b (row, col)).
Qed.

Lemma valid_set_block b p t q :
  Board.is_valid_position (Board.set_block b p t) q = Board.is_valid_position b q.
Proof.
  destruct q as [r c]. unfold Board.is_valid_position. by rewrite size_set_block.
Qed.

Lemma wf_set_block b p t : Board_wf b → Board_wf (Board.set_block b p t).
Proof.
  intros [Hlen Hrows]. destruct p as [row col]. unfold Board.set_block.
  destruct (Board.is_valid_position b (row, col)); [|done].
  destruct (Board.grid b !! Z.to_nat row) as [r|] eqn:Hrow; [|done].
  split; simpl.
  - by rewrite length_insert.
  - apply Forall_insert; [done|]. rewrite length_insert.
    rewrite Forall_forall in Hrows. apply Hrows. by eapply list_elem_of_lookup_2.
Qed.

Lemma get_block_set_block_eq b p t0 t :
  Board.get_block b p = Some t0 → Board.get_block (Board.set_block b p t) p = Some t.
Proof.
  intros Hget. pose proof (get_block_Some_valid _ _ _ Hget) as Hv.
  destruct p as [row col]. unfold Board.get_block in *.
  rewrite valid_set_block, Hv in *. unfold Board.set_block. rewrite Hv.
  destruct (Board.grid b !! Z.to_nat row) as [r|] eqn:Hrow; [|done].
  simpl in *. rewrite list_lookup_insert_eq; [|by eapply lookup_lt_Some].
  simpl. rewrite list_lookup_insert_eq; [done|by eapply lookup_lt_Some].
Qed.

Lemma get_block_set_block_ne b p q t :
  p ≠ q → Board.get_block (Board.set_block b p t) q = Board.get_block b q.
Proof.
  intros Hne. destruct p as [row col], q as [row' col'].
  unfold Board.get_block. rewrite valid_set_block.
  destruct (Board.is_valid_position b (row', col')) eqn:Hq; [|done].
  unfold Board.set_block.
  destruct (Board.is_valid_position b (row, col)) eqn:Hp; [|done].
  apply valid_iff in Hq, Hp.
  destruct (Board.grid b !! Z.to_nat row) as [r|] eqn:Hrow; [|done]. simpl.
  destruct (decide (row = row')) as [<-|Hr].
  - rewrite list_lookup_insert_eq; [|by eapply lookup_lt_Some].
    rewrite Hrow. simpl. rewrite list_lookup_insert_ne; [done|].
    intros ?. apply Hne. f_equal. lia.
  - rewrite list_lookup_insert_ne; [done|lia].
Qed.

Lemma elem_of_get_adjacent_positions b p a :
  a ∈ Board.get_adjacent_positions b p ↔ Board_adjacent b p a.
Proof.
  destruct p as [row col], a as [r c]. unfold Board.get_adjacent_positions, Board_adjacent.
  rewrite list_elem_of_filter, list_elem_of_bind. simpl. split.
  - intros [[Hne Hv] (r' & Hc & Hr)]. apply list_elem_of_bind in Hc as (c' & Hc & Hc').
    apply list_elem_of_singleton in Hc. injection Hc as -> ->.
    apply elem_of_range in Hr, Hc'. apply Is_true_true in Hv. repeat split; try done; lia.
  - intros (Hne & Hv & Hr & Hc). split; [split; [done|by apply Is_true_true]|].
    exists r. split; [|apply elem_of_range; lia].
    apply list_elem_of_bind. exists c. split; [apply list_elem_of_singleton; done|].
    apply elem_of_range; lia.
Qed.

Lemma NoDup_get_adjacent_positions b p : NoDup (Board.get_adjacent_positions b p).
Proof.
  destruct p as [row col]. unfold Board.get_adjacent_positions.
  apply NoDup_filter. apply NoDup_bind.
  - intros r1 r2 q _ _ H1 H2.
    apply list_elem_of_bind in H1 as (c1 & H1 & _), H2 as (c2 & H2 & _).
    apply list_elem_of_singleton in H1, H2. congruence.
  - intros r _. apply NoDup_bind.
    + intros c1 c2 q _ _ H1 H2. apply list_elem_of_singleton in H1, H2. congruence.
    + intros. apply NoDup_singleton.
    + apply NoDup_range.
  - apply NoDup_range.
Qed.

End BoardFacts.

Module BoardLaws.

Import BoardFacts.

(** What [get_valid_moves] returns, position by position. *)
Lemma elem_of_get_valid_moves b p a flag :
  a ∈ Board.get_valid_moves b p flag ↔
  ∃ tp ta, Board.get_block b p = Some tp ∧ Board.get_block b a = Some ta ∧
    Board_adjacent b p a ∧ Tile.worker ta = None ∧ Tile.is_dome ta = false ∧
    Tile.level_value ta - Tile.level_value tp <= 1 ∧
    ¬ (Tile.level_value ta - Tile.level_value tp = 1 ∧ flag = true).
Proof.
  unfold Board.get_valid_moves.
  destruct (Board.is_valid_position b p) eqn:Hv; simpl.
  - destruct (Board.get_block b p) as [tp|] eqn:Hp.
    + rewrite list_elem_of_filter, elem_of_get_adjacent_positions. split.
      * intros [Hok Hadj]. destruct (Board.get_block b a) as [ta|]; [|done].
        exists tp, ta. split_and!; try done;
          destruct (Tile.worker ta), (Tile.is_dome ta); simpl in Hok; try done;
          apply andb_prop_elim in Hok as [H1 H2];
          apply bool_decide_unpack in H1; try done.
        intros [H3 ->]. apply negb_prop_elim in H2. apply H2.
        rewrite andb_true_r. by apply bool_decide_pack.
      * intros (tp' & ta & [= <-] & -> & Hadj & Hw & Hd & Hle & Hn).
        split; [|done]. rewrite Hw, Hd. simpl.
        apply andb_prop_intro. split; [by apply bool_decide_pack|].
        apply negb_prop_intro. intros H%andb_prop_elim. destruct H as [H1 H2].
        apply Hn. split; [by apply bool_decide_unpack in H1|].
        by apply Is_true_true.
    + split; [inversion 1|]. by intros (? & ? & ? & _).
  - split; [inversion 1|]. intros (tp & ? & Hp & _).
    apply get_block_Some_valid in Hp. congruence.
Qed.

(** What [get_valid_builds] returns. *)
Lemma elem_of_get_valid_builds b p a :
  a ∈ Board.get_valid_builds b p ↔
  ∃ ta, Board.is_valid_position b p = true ∧ Board.get_block b a = Some ta ∧
    Board_adjacent b p a ∧ Tile.worker ta = None ∧ Tile.is_dome ta = false.
Proof.
  unfold Board.get_valid_builds.
  destruct (Board.is_valid_position b p) eqn:Hv; simpl.
  - rewrite list_elem_of_filter, elem_of_get_adjacent_positions. split.
    + intros [Hok Hadj]. destruct (Board.get_block b a) as [ta|]; [|done].
      exists ta. apply andb_prop_elim in Hok as [H1 H2].
      apply bool_decide_unpack in H1. apply negb_prop_elim in H2.
      split_and!; try done. by destruct (Tile.is_dome ta).
    + intros (ta & _ & -> & Hadj & Hw & Hd). split; [|done].
      rewrite Hw, Hd. done.
  - split; [inversion 1|]. by intros (? & ? & _).
Qed.

Lemma NoDup_get_valid_moves b p flag : NoDup (Board.get_valid_moves b p flag).
Proof.
  unfold Board.get_valid_moves.
  destruct (negb _); [constructor|].
  destruct (Board.get_block b p); [|constructor].
  apply NoDup_filter, NoDup_get_adjacent_positions.
Qed.

End BoardLaws.

(** ** Tile heights under the operations on tiles and boards *)

Module HeightFacts.

Import BoardFacts.

#[global] Instance Board_levels_le_preorder : PreOrder Board_levels_le.
Proof.
  split.
  - intros b. split; [done|]. intros p t Hp. exists t. split; [done|lia].
  - intros b1 b2 b3 [Hs1 H1] [Hs2 H2]. split; [congruence|].
    intros p t Hp. destruct (H1 p t Hp) as (t' & Hp' & Hle).
    destruct (H2 p t' Hp') as (t'' & Hp'' & Hle').
    exists t''. split; [done|lia].
Qed.

#[global] Instance Board_same_levels_preorder : PreOrder Board_same_levels.
Proof.
  split.
  - intros b. by split.
  - intros b1 b2 b3 [Hs1 H1] [Hs2 H2]. split; [congruence|].
    intros p. by rewrite H2, H1.
Qed.

Lemma same_levels_le b b' : Board_same_levels b b' → Board_levels_le b b'.
Proof.
  intros [Hs H]. split; [done|]. intros p t Hp. specialize (H p).
  rewrite Hp in H. destruct (Board.get_block b' p) as [t'|]; [|done].
  exists t'. split; [done|]. simpl in H. injection H as ->. lia.
Qed.

Lemma same_levels_set_block b p t0 t :
  Board.get_block b p = Some t0 → Tile.level t = Tile.level t0 →
  Board_same_levels b (Board.set_block b p t).
Proof.
  intros Hp Hl. split; [apply size_set_block|]. intros q.
  destruct (decide (p = q)) as [<-|Hne].
  - rewrite (get_block_set_block_eq _ _ t0), Hp by done. simpl. by f_equal.
  - by rewrite get_block_set_block_ne.
Qed.

Lemma levels_le_set_block b p t0 t :
  Board.get_block b p = Some t0 →
  Level.value (Tile.level t0) <= Level.value (Tile.level t) →
  Board_levels_le b (Board.set_block b p t).
Proof.
  intros Hp Hl. split; [apply size_set_block|]. intros q tq Hq.
  destruct (decide (p = q)) as [<-|Hne].
  - rewrite (get_block_set_block_eq _ _ t0) by done.
    exists t. split; [done|]. congruence.
  - rewrite get_block_set_block_ne by done. exists tq. split; [done|lia].
Qed.

(** [Tile.build] never raises; a refused build leaves the tile as it is and
    a successful one raises it by one level and keeps its occupant. *)
Lemma Tile_build_cases t :
  (Tile.build t = Ok (false, t) ∧ (Tile.worker t ≠ None ∨ Tile.level t = Level.DOME)) ∨
  (∃ t', Tile.build t = Ok (true, t') ∧ Tile.worker t = None ∧
     Tile.worker t' = None ∧
     Level.value (Tile.level t') = Level.value (Tile.level t) + 1).
Proof.
  destruct t as [l w]. unfold Tile.build, Tile.is_dome. simpl.
  destruct w as [w|]; simpl.
  - left. split; [done|]. by left.
  - destruct l; simpl; eauto 10.
Qed.

Lemma Worker_move_to_same_levels w p b r w' b' :
  Worker_move_to w p b = Ok (r, w', b') → Board_same_levels b b'.
Proof.
  unfold Worker_move_to. intros H.
  destruct (negb _); [injection H as <- <- <-; reflexivity|].
  destruct (Board.get_block b p) as [target|] eqn:Hp; [|done].
  destruct (_ || _); [injection H as <- <- <-; reflexivity|].
  destruct (Worker.position w) as [cur|].
  - destruct (Board.get_block b cur) as [current|] eqn:Hc; [|done].
    injection H as <- <- <-.
    set (b1 := Board.set_block b cur _).
    assert (Board_same_levels b b1) as H1 by by eapply same_levels_set_block.
    etrans; [exact H1|].
    destruct H1 as [_ H1]. specialize (H1 p). rewrite Hp in H1.
    destruct (Board.get_block b1 p) as [t1|] eqn:Hp1; [|done].
    eapply same_levels_set_block; [done|]. simpl in *. congruence.
  - injection H as <- <- <-. by eapply same_levels_set_block.
Qed.

Lemma Move_execute_same_levels m w b r m' w' b' :
  Move.execute m w b = Ok (r, m', w', b') → Board_same_levels b b'.
Proof.
  unfold Move.execute, Board_place_worker. intros H.
  destruct (negb _); [injection H as <- <- <- <-; reflexivity|].
  destruct (negb _); [injection H as <- <- <- <-; reflexivity|].
  destruct (Worker_move_to w (Move.to_pos m) b) as [[[ok w1] b1]|] eqn:Hm; [|done].
  apply Worker_move_to_same_levels in Hm.
  destruct ok; [|by injection H as <- <- <- <-].
  destruct (Board.get_block b1 _); [|done].
  destruct (bool_decide _); by injection H as <- <- <- <-.
Qed.

Lemma Build_execute_levels_le bd b r b' :
  Build.execute bd b = Ok (r, b') → Board_levels_le b b'.
Proof.
  unfold Build.execute. intros H.
  destruct (negb _); [injection H as <- <-; reflexivity|].
  destruct (negb _); [injection H as <- <-; reflexivity|].
  destruct (Board.get_block b _) as [tile|] eqn:Hp; [|done].
  destruct (Tile_build_cases tile) as [[Hb _]|(t' & Hb & _ & _ & Hl)];
    rewrite Hb in H; injection H as <- <-;
    (eapply levels_le_set_block; [done|lia]).
Qed.

End HeightFacts.

(** ** The methods of [Game]: what a call preserves *)

Module GameFacts.

Import Game.

Section Preservation.

Context (R : relation Game.t) `{!PreOrder R}.

Lemma preserves_ret {A} (a : A) : preserves R (ret a).
Proof. intros s. simpl. reflexivity. Qed.

Lemma preserves_raise {A} e : preserves R (@raise A e).
Proof. intros s. simpl. reflexivity. Qed.

Lemma preserves_get : preserves R get.
Proof. intros s. simpl. reflexivity. Qed.

Lemma preserves_lift {A} (r : Result A) : preserves R (lift r).
Proof. destruct r; [apply preserves_ret | apply preserves_raise]. Qed.

Lemma preserves_bind {A B} (m : M A) (k : A → M B) :
  preserves R m → (∀ a, preserves R (k a)) → preserves R (bind m k).
Proof.
  intros Hm Hk s. unfold bind. specialize (Hm s).
  destruct (m s) as [a s'|e s']; simpl in *; [|done].
  etrans; [exact Hm | apply Hk].
Qed.

Lemma preserves_modify (f : t → t) : (∀ s, R s (f s)) → preserves R (modify f).
Proof. intros Hf s. apply Hf. Qed.

Lemma preserves_worker_of r : preserves R (worker_of r).
Proof. intros s. unfold worker_of. destruct (find_worker s r); simpl; reflexivity. Qed.

Lemma preserves_player_of i : preserves R (player_of i).
Proof. intros s. unfold player_of. destruct (players s !! i); simpl; reflexivity. Qed.

Lemma preserves_get_current_player : preserves R get_current_player.
Proof.
  intros s. unfold get_current_player.
  destruct (players s !! current_player_index s); simpl; reflexivity.
Qed.

Lemma preserves_hint_count i : preserves R (hint_count i).
Proof. intros s. unfold hint_count. destruct (hint_counts s !! i); simpl; reflexivity. Qed.

Lemma preserves_next_player_index : preserves R next_player_index.
Proof.
  intros s. unfold next_player_index, bind, get.
  destruct (bool_decide _); simpl; reflexivity.
Qed.

End Preservation.

(** Takes a method apart along its binds and branches; what is left are the
    assignments. *)
Ltac preserve_step :=
  first
    [ solve [auto 1]
    | progress intros
    | match goal with |- PreOrder _ => exact _ end
    | apply preserves_ret | apply preserves_raise | apply preserves_get
    | apply preserves_lift | apply preserves_worker_of
    | apply preserves_player_of | apply preserves_get_current_player
    | apply preserves_hint_count | apply preserves_next_player_index
    | apply preserves_bind
    | match goal with
      | |- preserves _ (match ?x with _ => _ end) => destruct x
      end ].

Ltac preserve := repeat preserve_step.

(** [Hint.find_best_move] only reads the game. *)
Lemma find_best_move_reads (R : relation Game.t) `{!PreOrder R} :
  preserves R Hint_find_best_move.
Proof. unfold Hint_find_best_move. preserve. Qed.

(** [provide_hint], for a relation that does not look at the hint
    counts. *)
Lemma hint_provide_hint (R : relation Game.t) `{!PreOrder R} :
  (∀ v s, R s (set_hint_counts v s)) → preserves R provide_hint.
Proof.
  intros HR. unfold provide_hint, add_hint_count.
  pose proof (find_best_move_reads R).
  repeat first
    [ preserve_step
    | apply preserves_modify; intros ?; cbv beta; solve [auto] ].
Qed.

(** The calls that write the board, for a relation that does not look at
    the board or at the workers. *)
Section BoardCalls.

Context (R : relation Game.t) `{!PreOrder R}.

Context
  (R_board : ∀ v s, R s (set_board v s))
  (R_players : ∀ v s, R s (set_players v s)).

Lemma R_store_worker w s : R s (store_worker w s).
Proof. unfold store_worker. destruct (players s !! _); [apply R_players | reflexivity]. Qed.

Ltac board_frame :=
  repeat first
    [ preserve_step
    | apply preserves_modify; intros ?; cbv beta;
      solve [auto using R_store_worker] ].

Lemma board_place_worker r p : preserves R (place_worker r p).
Proof. unfold place_worker. board_frame. Qed.

Lemma board_execute_move m : preserves R (execute_move m).
Proof. unfold execute_move. board_frame. Qed.

Lemma board_execute_build b : preserves R (execute_build b).
Proof. unfold execute_build. board_frame. Qed.

Lemma board_build_under_worker p : preserves R (build_under_worker p).
Proof. unfold build_under_worker. board_frame. Qed.

End BoardCalls.

(** [next_turn], for a relation that every assignment respects. *)
Section NextTurn.

Context (R : relation Game.t) `{!PreOrder R}.

Context
  (R_current_player_index : ∀ v s, R s (set_current_player_index v s))
  (R_winner : ∀ v s, R s (set_winner v s))
  (R_turn_count : ∀ s, R s (set_turn_count (turn_count s + 1) s))
  (R_selected_worker : ∀ v s, R s (set_selected_worker v s))
  (R_phase : ∀ v s, R s (set_phase v s))
  (R_second_action : ∀ v s, R s (set_second_action v s))
  (R_power : ∀ v s, R s (set_god_power_active v s))
  (R_timer : ∀ v s, R s (set_timer v s)).

Ltac turn_frame :=
  repeat first
    [ preserve_step
    | apply preserves_modify; intros ?; cbv beta; solve [auto] ].

Lemma turn_check_game_over : preserves R check_game_over.
Proof. unfold check_game_over, gui_show_game_over, stop_timer. turn_frame. Qed.

Lemma turn_next_turn : preserves R next_turn.
Proof.
  unfold next_turn, stop_timer, start_timer. pose proof turn_check_game_over.
  turn_frame.
Qed.

End NextTurn.

(** A relation that the assignments to the fields respect is preserved by
    every method, once it is known for the calls that write the board and
    for [next_turn]. *)
Section Frame.

Context (R : relation Game.t) `{!PreOrder R}.

Context
  (R_players : ∀ v s, R s (set_players v s))
  (R_current_player_index : ∀ v s, R s (set_current_player_index v s))
  (R_winner : ∀ v s, R s (set_winner v s))
  (R_turn_count : ∀ s, R s (set_turn_count (turn_count s + 1) s))
  (R_selected_worker : ∀ v s, R s (set_selected_worker v s))
  (R_phase : ∀ v s, R s (set_phase v s))
  (R_second_action : ∀ v s, R s (set_second_action v s))
  (R_power_on : ∀ s, R s (set_god_power_active true s))
  (R_last_move : ∀ v s, R s (set_last_move v s))
  (R_last_build : ∀ v s, R s (set_last_build v s))
  (R_timer : ∀ v s, R s (set_timer v s)).

Context
  (R_provide_hint : preserves R provide_hint)
  (R_place_worker : ∀ r p, preserves R (place_worker r p))
  (R_execute_move : ∀ m, preserves R (execute_move m))
  (R_execute_build : ∀ b, preserves R (execute_build b))
  (R_build_under_worker : ∀ p, preserves R (build_under_worker p))
  (R_next_turn : preserves R next_turn).

Ltac frame :=
  repeat first
    [ preserve_step
    | apply preserves_modify; intros ?; cbv beta; solve [auto] ].

Lemma frame_stop_timer : preserves R stop_timer.
Proof. unfold stop_timer. frame. Qed.

Lemma frame_start_timer : preserves R start_timer.
Proof. unfold start_timer. frame. Qed.

Lemma frame_gui_show_game_over : preserves R gui_show_game_over.
Proof. unfold gui_show_game_over. pose proof frame_stop_timer. frame. Qed.

Lemma frame_add_player n g c : preserves R (add_player n g c).
Proof. unfold add_player. frame. Qed.

Lemma frame_place_workers refs avail : preserves R (place_workers refs avail).
Proof.
  revert avail. induction refs as [|r refs IH]; intros avail;
    cbn [place_workers]; frame.
Qed.

Lemma frame_start_game shuffled : preserves R (start_game shuffled).
Proof.
  unfold start_game, randomly_place_workers, initialize_timers.
  pose proof frame_start_timer. pose proof frame_place_workers. frame.
Qed.

Lemma frame_select position : preserves R (_handle_select_phase position).
Proof. unfold _handle_select_phase. frame. Qed.

Lemma frame_place position : preserves R (_handle_place_phase position).
Proof. unfold _handle_place_phase. frame. Qed.

Lemma frame_activate_god_power : preserves R activate_god_power.
Proof. unfold activate_god_power. frame. Qed.

Lemma frame_offer_second_move w pp p : preserves R (offer_second_move w pp p).
Proof. unfold offer_second_move. frame. Qed.

Lemma frame_move position : preserves R (_handle_move_phase position).
Proof.
  unfold _handle_move_phase.
  pose proof frame_gui_show_game_over. pose proof frame_offer_second_move. frame.
Qed.

Lemma frame_build position : preserves R (_handle_build_phase position).
Proof. unfold _handle_build_phase. frame. Qed.

Lemma frame_second_move position : preserves R (_handle_second_move_phase position).
Proof.
  unfold _handle_second_move_phase. pose proof frame_gui_show_game_over. frame.
Qed.

Lemma frame_second_build position : preserves R (_handle_second_build_phase position).
Proof. unfold _handle_second_build_phase. frame. Qed.

Lemma frame_handle_tile_click row col : preserves R (handle_tile_click row col).
Proof.
  unfold handle_tile_click.
  pose proof frame_select. pose proof frame_place. pose proof frame_move.
  pose proof frame_build. pose proof frame_second_move.
  pose proof frame_second_build. frame.
Qed.

Lemma frame_skip_second_action : preserves R skip_second_action.
Proof. unfold skip_second_action. frame. Qed.

Lemma frame_handle_timeout : preserves R handle_timeout.
Proof. unfold handle_timeout. pose proof frame_gui_show_game_over. frame. Qed.

Lemma frame_timer_expired : preserves R timer_expired.
Proof.
  unfold timer_expired, Timer_tick_expired, Timer_handle_timeout.
  pose proof frame_gui_show_game_over. frame.
Qed.

Lemma frame_perform c : preserves R (perform c).
Proof.
  pose proof frame_add_player. pose proof frame_start_game.
  pose proof frame_handle_tile_click. pose proof frame_skip_second_action.
  pose proof frame_activate_god_power.
  pose proof frame_handle_timeout. pose proof frame_timer_expired.
  destruct c; simpl;
    unfold SantoriniGUI.activate_god_power, SantoriniGUI.show_hint; frame.
Qed.

End Frame.

(** What every call preserves, every sequence of calls preserves. *)
Lemma preserves_run_calls (R : relation Game.t) `{!PreOrder R} :
  (∀ c, preserves R (perform c)) → ∀ cs s, R s (run_calls cs s).
Proof.
  intros HR cs. induction cs as [|c cs IH]; intros s; simpl; [reflexivity|].
  etrans; [apply (HR c)|apply IH].
Qed.

(** *** [athena_activated] *)

#[global] Instance same_athena_preorder : PreOrder same_athena.
Proof. split; [by intros s | intros s1 s2 s3; unfold same_athena; congruence]. Qed.

Lemma same_athena_store_worker w s : same_athena s (store_worker w s).
Proof. unfold store_worker. by destruct (players s !! _). Qed.


(** *** Tile heights *)

Import HeightFacts.

#[global] Instance levels_le_preorder : PreOrder levels_le.
Proof.
  split.
  - intros s. unfold levels_le. reflexivity.
  - intros s1 s2 s3. unfold levels_le. apply transitivity.
Qed.

Lemma board_store_worker w s : board (store_worker w s) = board s.
Proof. unfold store_worker. by destruct (players s !! _). Qed.

Lemma levels_le_place_worker r p : preserves levels_le (place_worker r p).
Proof.
  intros s. unfold place_worker, bind, worker_of, get, lift, Board_place_worker.
  destruct (find_worker s r) as [w|]; simpl; [|reflexivity].
  destruct (Worker_move_to w p (board s)) as [[[ok w'] b']|] eqn:H; simpl;
    [|reflexivity].
  unfold levels_le. rewrite board_store_worker. simpl.
  by eapply same_levels_le, Worker_move_to_same_levels.
Qed.

Lemma levels_le_execute_move m : preserves levels_le (execute_move m).
Proof.
  intros s. unfold execute_move, bind, worker_of, get, lift.
  destruct (find_worker s _) as [w|]; simpl; [|reflexivity].
  destruct (Move.execute m w (board s)) as [[[[ok m'] w'] b']|] eqn:H; simpl;
    [|reflexivity].
  unfold levels_le. rewrite board_store_worker. simpl.
  by eapply same_levels_le, Move_execute_same_levels.
Qed.

Lemma levels_le_execute_build b : preserves levels_le (execute_build b).
Proof.
  intros s. unfold execute_build, bind, get, lift.
  destruct (Build.execute b (board s)) as [[ok b']|] eqn:H; simpl; [|reflexivity].
  unfold levels_le. simpl. by eapply Build_execute_levels_le.
Qed.

Lemma levels_le_build_under_worker p : preserves levels_le (build_under_worker p).
Proof.
  intros s. unfold build_under_worker, bind, get.
  destruct (Board.get_block (board s) p) as [tile|] eqn:Hp; simpl; [|reflexivity].
  destruct (_ && _); simpl; [|reflexivity].
  set (lifted := {| Tile.level := Tile.level tile; Tile.worker := None |}).
  assert (Board_same_levels (board s) (Board.set_block (board s) p lifted)) as H1
    by by eapply same_levels_set_block.
  pose proof (BoardFacts.get_block_set_block_eq _ _ _ lifted Hp) as Hp1.
  destruct (Tile_build_cases lifted) as [[Hb _]|(t' & Hb & _ & _ & Hl)];
    rewrite Hb; simpl; unfold levels_le; simpl.
  - etrans; [by apply same_levels_le|].
    eapply levels_le_set_block; [done|]. simpl. lia.
  - etrans; [by apply same_levels_le|].
    eapply levels_le_set_block; [done|]. simpl in *. lia.
Qed.

Lemma levels_le_perform c : preserves levels_le (perform c).
Proof.
  apply frame_perform; try exact _;
    try (intros; unfold levels_le; simpl; reflexivity).
  - apply hint_provide_hint; try exact _;
      intros; unfold levels_le; simpl; reflexivity.
  - apply levels_le_place_worker.
  - apply levels_le_execute_move.
  - apply levels_le_execute_build.
  - apply levels_le_build_under_worker.
  - apply turn_next_turn; try exact _;
      intros; unfold levels_le; simpl; reflexivity.
Qed.

(** *** The god power flag within a turn *)

#[global] Instance power_kept_preorder : PreOrder power_kept.
Proof.
  split.
  - intros s. split; [lia|auto].
  - intros s1 s2 s3 [H1 K1] [H2 K2]. split; [lia|].
    intros Heq Hp. apply K2; [lia|]. apply K1; [lia|done].
Qed.

Lemma power_kept_same s s' :
  turn_count s' = turn_count s → god_power_active s' = god_power_active s →
  power_kept s s'.
Proof. intros Ht Hp. split; [lia|]. congruence. Qed.

#[global] Instance turn_le_preorder : PreOrder turn_le.
Proof. split; [intros s | intros s1 s2 s3]; unfold turn_le; lia. Qed.

Lemma state_of_bind {A B} (m : M A) (k : A → M B) s :
  state_of (bind m k s)
  = match m s with
    | Done a s' => state_of (k a s')
    | Fail _ s' => s'
    end.
Proof. unfold bind. by destruct (m s). Qed.

Lemma bind_modify {B} f (k : unit → M B) s : bind (modify f) k s = k tt (f s).
Proof. reflexivity. Qed.

Lemma bind_ret {A B} (a : A) (k : A → M B) s : bind (ret a) k s = k a s.
Proof. reflexivity. Qed.

Lemma bind_get {B} (k : t → M B) s : bind get k s = k s s.
Proof. reflexivity. Qed.

Lemma bind_raise {A B} e (k : A → M B) s : bind (raise e) k s = Fail e s.
Proof. reflexivity. Qed.

Lemma bind_bind {A B C} (m : M A) (f : A → M B) (k : B → M C) s :
  bind (bind m f) k s = bind m (fun a => bind (f a) k) s.
Proof. unfold bind. by destruct (m s). Qed.

Lemma turn_le_check_game_over : preserves turn_le check_game_over.
Proof.
  apply turn_check_game_over; try exact _;
    intros; unfold turn_le; simpl; lia.
Qed.

(** [next_turn] starts a new turn, unless there are no players to take
    it. *)
Lemma next_turn_turn_count s :
  players s ≠ [] → turn_count s < turn_count (state_of (next_turn s)).
Proof.
  intros Hp. unfold next_turn, stop_timer, next_player_index.
  rewrite bind_modify, bind_bind, bind_get.
  rewrite bool_decide_eq_false_2 by (simpl; by destruct (players s)).
  rewrite bind_ret, !bind_modify, state_of_bind.
  match goal with |- context [check_game_over ?s1] =>
    pose proof (turn_le_check_game_over s1) as H;
    destruct (check_game_over s1) as [over s2|e s2]
  end; unfold turn_le in H; simpl in H.
  - destruct over; simpl; lia.
  - lia.
Qed.

Lemma power_kept_next_turn : preserves power_kept next_turn.
Proof.
  intros s. destruct (decide (players s = [])) as [Hp|Hp].
  - unfold next_turn, stop_timer, next_player_index.
    rewrite bind_modify, bind_bind, bind_get. cbn [players set_timer].
    rewrite Hp. simpl. by apply power_kept_same.
  - pose proof (next_turn_turn_count s Hp). split; lia.
Qed.

Lemma power_kept_perform c : preserves power_kept (perform c).
Proof.
  apply frame_perform; try exact _;
    try (intros; by apply power_kept_same).
  - intros s. split; simpl; lia.
  - intros s. split; simpl; [lia|done].
  - apply hint_provide_hint; try exact _; intros; by apply power_kept_same.
  - intros. apply board_place_worker; try exact _; intros; by apply power_kept_same.
  - intros. apply board_execute_move; try exact _; intros; by apply power_kept_same.
  - intros. apply board_execute_build; try exact _; intros; by apply power_kept_same.
  - intros. apply board_build_under_worker; try exact _; intros; by apply power_kept_same.
  - apply power_kept_next_turn.
Qed.

End GameFacts.

(** ** The engine at work: some games played out *)

(** The advisor in the three phases it knows: in ["select"] the worker with
    the most moves, in ["move"] and ["build"] the first target of the best
    score. *)
Example hints_by_phase :
  Game.value_of
    (Game.provide_hint
       (run_calls
          (session "Player 1" "Player 2" GodCard.Artemis GodCard.Zeus shuffle_id)
          (Game.init true)))
  = Some (Some (HintSelect (0, 1)%nat (Some (4, 3)))) ∧
  Game.value_of (Game.provide_hint game_selected) = Some (Some (HintMove (3, 3))) ∧
  Game.value_of (Game.provide_hint game_cornered) = Some (Some (HintBuild (0, 1))).
Proof. split_and!; vm_compute; reflexivity. Qed.

(** Demeter's second build: after the first build on (2,2) the phase is
    ["second_build"]; a click on (2,2) again changes nothing; a click on (2,3)
    builds there and ends the turn; a skip ends the turn without building. *)
Example demeter_second_build :
  Game.phase game_second_build = Game.ph_second_build ∧
  Game.second_action game_second_build
  = Some (Game.mkSecond Game.a_build (2, 2)) ∧
  run_calls [CTileClick 2 2] game_second_build = game_second_build ∧
  (let s := run_calls [CTileClick 2 3] game_second_build in
   Game.phase s = Game.ph_select ∧ Game.current_player_index s = 1%nat ∧
   Game.turn_count s = 1 ∧ Game.god_power_active s = false ∧
   Tile.level <$> Board.get_block (Game.board s) (2, 3) = Some Level.LEVEL1) ∧
  (let s := run_calls [CSkipSecondAction] game_second_build in
   Game.phase s = Game.ph_select ∧ Game.current_player_index s = 1%nat ∧
   Game.board s = Game.board game_second_build).
Proof. cbv zeta. split_and!; vm_compute; reflexivity. Qed.

(** * The engine's properties *)

(** C5. On a well-formed board, for an in-bounds position [p] and a tile [a]
    of its Moore neighbourhood, [get_valid_moves p flag] contains [a] iff [a]
    is unoccupied, not a dome and at most one level above [p], and, when
    [flag] is set, not exactly one level above; the list holds neighbours
    only.  On an empty board with a worker on (2,2) all 8 neighbours are
    returned, and once (1,1) is raised to level 1 the restricted query leaves
    it out while the unrestricted one keeps it. *)
Theorem get_valid_moves_spec :
  (∀ (b : Board.t) (p a : Position) (flag : bool),
     Board_wf b → Board.is_valid_position b p = true → Board_adjacent b p a →
     ∃ tp ta,
       Board.get_block b p = Some tp ∧ Board.get_block b a = Some ta ∧
       (a ∈ Board.get_valid_moves b p flag ↔
        Tile.worker ta = None ∧ Tile.level ta ≠ Level.DOME ∧
        Tile.level_value ta - Tile.level_value tp <= 1 ∧
        ¬ (flag = true ∧ Tile.level_value ta - Tile.level_value tp = 1))) ∧
  (∀ b p a flag, a ∈ Board.get_valid_moves b p flag → Board_adjacent b p a) ∧
  (∃ w b, board_worker_22 = Ok (true, w, b) ∧
     Board.get_valid_moves b (2, 2) false
     = [(1,1); (1,2); (1,3); (2,1); (2,3); (3,1); (3,2); (3,3)]) ∧
  (∃ b, board_raised_11 = Ok (true, b) ∧
     Tile.level_value <$> Board.get_block b (1, 1) = Some 1 ∧
     Board.get_valid_moves b (2, 2) true
     = [(1,2); (1,3); (2,1); (2,3); (3,1); (3,2); (3,3)] ∧
     Board.get_valid_moves b (2, 2) false
     = [(1,1); (1,2); (1,3); (2,1); (2,3); (3,1); (3,2); (3,3)]).
Proof.
  split_and!.
  - intros b p a flag Hwf Hp Hadj.
    destruct (BoardFacts.get_block_valid b p Hwf Hp) as [tp Htp].
    destruct (BoardFacts.get_block_valid b a Hwf) as [ta Hta]; [apply Hadj|].
    exists tp, ta. split_and!; try done.
    rewrite BoardLaws.elem_of_get_valid_moves. split.
    + intros (tp' & ta' & H1 & H2 & _ & Hw & Hd & Hle & Hn).
      rewrite Htp in H1. rewrite Hta in H2. injection H1 as <-. injection H2 as <-.
      split_and!; try done.
      * intros Hl. unfold Tile.is_dome in Hd. by rewrite Hl in Hd.
      * intros [-> ?]. by apply Hn.
    + intros (Hw & Hd & Hle & Hn). exists tp, ta. split_and!; try done.
      * unfold Tile.is_dome. by apply bool_decide_eq_false_2.
      * intros [? ->]. by apply Hn.
  - intros b p a flag (tp & ta & _ & _ & Hadj & _)%BoardLaws.elem_of_get_valid_moves.
    exact Hadj.
  - eexists _, _. split; [vm_compute; reflexivity|]. vm_compute. reflexivity.
  - eexists. split; [vm_compute; reflexivity|]. split_and!; vm_compute; reflexivity.
Qed.

(** The neighbour (1,1) of (2,2) on the empty board, with and without the
    restriction. *)
Lemma get_valid_moves_spec_witness :
  ∃ tp ta,
    Board.get_block (Board.init 5) (2, 2) = Some tp ∧
    Board.get_block (Board.init 5) (1, 1) = Some ta ∧
    ((1, 1) ∈ Board.get_valid_moves (Board.init 5) (2, 2) true ↔
     Tile.worker ta = None ∧ Tile.level ta ≠ Level.DOME ∧
     Tile.level_value ta - Tile.level_value tp <= 1 ∧
     ¬ (true = true ∧ Tile.level_value ta - Tile.level_value tp = 1)).
Proof.
  apply (proj1 get_valid_moves_spec (Board.init 5) (2, 2) (1, 1) true).
  - apply BoardFacts.wf_init.
  - reflexivity.
  - unfold Board_adjacent. simpl. split_and!; (done || lia).
Defined.

(** C8, as the code has it.  A board query at a coordinate off the board
    raises nothing: [get_block] returns [None], and [get_valid_moves],
    [get_valid_builds] and [get_valid_builds_with_zeus] return the empty
    list. *)
Theorem out_of_bounds_queries (b : Board.t) (p : Position) (flag : bool) :
  Board.is_valid_position b p = false →
  Board.get_block b p = None ∧
  Board.get_valid_moves b p flag = [] ∧
  Board.get_valid_builds b p = [] ∧
  Board.get_valid_builds_with_zeus b p = [].
Proof.
  intros Hp. pose proof (BoardFacts.get_block_invalid b p Hp) as Hg.
  unfold Board.get_valid_builds_with_zeus, Board.get_valid_moves,
    Board.get_valid_builds. by rewrite Hp, Hg.
Qed.

Lemma out_of_bounds_queries_witness :
  Board.get_block (Board.init 5) (5, 0) = None ∧
  Board.get_valid_moves (Board.init 5) (5, 0) false = [] ∧
  Board.get_valid_builds (Board.init 5) (5, 0) = [] ∧
  Board.get_valid_builds_with_zeus (Board.init 5) (5, 0) = [].
Proof. apply (out_of_bounds_queries (Board.init 5) (5, 0) false). reflexivity. Defined.

(** C8, as the spec words it, fails.  An explicit out-of-bounds signal would
    be an answer that no query at a position of the board gives; the answer
    of [get_valid_moves] at the off-board [(-1, 0)] is the answer it gives at
    the corner [(0, 0)] of a well-formed board on which that corner is
    walled in. *)
Lemma out_of_bounds_not_signalled :
  ¬ (∀ (b : Board.t) (p q : Position) (flag : bool),
       Board_wf b →
       Board.is_valid_position b p = false →
       Board.is_valid_position b q = true →
       Board.get_valid_moves b p flag ≠ Board.get_valid_moves b q flag).
Proof.
  intros H.
  apply (H board_walled_corner (-1, 0) (0, 0) false).
  - repeat apply BoardFacts.wf_set_block. apply BoardFacts.wf_init.
  - reflexivity.
  - reflexivity.
  - vm_compute. reflexivity.
Qed.




(** ** Sessions *)

Lemma reachable_run_calls cs s : reachable s → reachable (run_calls cs s).
Proof.
  revert s. induction cs as [|c cs IH]; intros s Hs; [done|].
  apply IH. by apply reachable_call.
Qed.

Lemma shuffle_id_perm : shuffle_id ≡ₚ positions_5.
Proof. reflexivity. Qed.

Lemma shuffle_corner_perm : shuffle_corner ≡ₚ positions_5.
Proof. apply (bool_decide_unpack _). vm_compute. exact I. Qed.

(** The scenario games are games that [new_game] starts. *)
Lemma new_game_artemis :
  SantoriniGUI.new_game None None [GodCard.Artemis; GodCard.Demeter] false shuffle_id
  = Game.Done tt
      (run_calls
         (session "Player 1" "Player 2" GodCard.Artemis GodCard.Zeus shuffle_id)
         (Game.init true)).
Proof. vm_compute. reflexivity. Qed.

Lemma new_game_demeter :
  SantoriniGUI.new_game None None [GodCard.Demeter; GodCard.Artemis] false shuffle_corner
  = Game.Done tt
      (run_calls
         (session "Player 1" "Player 2" GodCard.Demeter GodCard.Zeus shuffle_corner)
         (Game.init true)).
Proof. vm_compute. reflexivity. Qed.

(** C2. With a winner set, [handle_tile_click] and [provide_hint] return at
    once and change nothing.  [activate_god_power] and [skip_second_action]
    have no such guard: in a fresh session that player 1 has lost on time,
    [activate_god_power] returns [True] and sets [god_power_active]; in a game
    lost on time during an Artemis second move, [skip_second_action] moves
    the phase on to ["build"]. *)
Theorem terminal_state_guard :
  (∀ s row col, Game.winner s ≠ None → Game.handle_tile_click row col s = Game.Done tt s) ∧
  (∀ s, Game.winner s ≠ None → Game.provide_hint s = Game.Done None s) ∧
  (reachable game_timed_out_at_start ∧
   Game.winner game_timed_out_at_start = Some 1%nat ∧
   Game.god_power_active game_timed_out_at_start = false ∧
   Game.activate_god_power game_timed_out_at_start
   = Game.Done true (Game.set_god_power_active true game_timed_out_at_start)) ∧
  (reachable game_timed_out ∧
   Game.winner game_timed_out = Some 1%nat ∧
   Game.phase game_timed_out = Game.ph_second_move ∧
   Game.skip_second_action game_timed_out
   = Game.Done tt (Game.set_phase Game.ph_build game_timed_out)).
Proof.
  split_and!.
  - intros s row col Hw. unfold Game.handle_tile_click, Game.bind, Game.get.
    by rewrite bool_decide_eq_true_2.
  - intros s Hw. unfold Game.provide_hint, Game.bind, Game.get.
    by rewrite bool_decide_eq_true_2.
  - apply reachable_run_calls, reachable_init.
  - vm_compute. reflexivity.
  - vm_compute. reflexivity.
  - vm_compute. reflexivity.
  - apply reachable_run_calls, reachable_run_calls, reachable_init.
  - vm_compute. reflexivity.
  - vm_compute. reflexivity.
  - vm_compute. reflexivity.
Qed.

(** ** The activation of a god power *)

#[global] Instance same_power_preorder : PreOrder same_power.
Proof. split; [by intros s | intros s1 s2 s3; unfold same_power; congruence]. Qed.

Lemma next_turn_power_off s :
  Game.players s ≠ [] → Game.god_power_active (Game.state_of (Game.next_turn s)) = false.
Proof.
  intros Hp. unfold Game.next_turn, Game.stop_timer, Game.next_player_index.
  rewrite GameFacts.bind_modify, GameFacts.bind_bind, GameFacts.bind_get.
  rewrite bool_decide_eq_false_2 by (simpl; by destruct (Game.players s)).
  rewrite GameFacts.bind_ret, !GameFacts.bind_modify, GameFacts.state_of_bind.
  match goal with |- context [Game.check_game_over ?s1] =>
    assert (same_power s1 (Game.state_of (Game.check_game_over s1))) as H
      by (apply GameFacts.turn_check_game_over; try exact _; done);
    destruct (Game.check_game_over s1) as [over s2|e s2]
  end; unfold same_power in H; simpl in H; [|done].
  by destruct over.
Qed.

(** C3, as the code has it.  For the current player, [activate_god_power]
    returns [True] iff the player holds a card, the phase is ["select"],
    ["move"] or ["build"] and the power is not active yet; [can_use_power] is
    not consulted.  A successful activation sets [god_power_active] and
    changes nothing else, a refused one changes nothing; with the power
    active the call is refused; whatever calls follow, the power stays
    active as long as the turn counter has not moved; and [next_turn] turns
    it off. *)
Theorem activation_protocol (s : Game.t) (p : Player.t) :
  Game.players s !! Game.current_player_index s = Some p →
  (Game.value_of (Game.activate_god_power s) = Some true ↔
   Player.god_card p ≠ None ∧
   Game.phase s ∈ [Game.ph_select; Game.ph_move; Game.ph_build] ∧
   Game.god_power_active s = false) ∧
  (Game.activate_god_power s = Game.Done true (Game.set_god_power_active true s) ∨
   Game.activate_god_power s = Game.Done false s) ∧
  (Game.god_power_active s = true →
   Game.activate_god_power s = Game.Done false s) ∧
  (∀ cs, power_kept s (run_calls cs s)) ∧
  Game.god_power_active (Game.state_of (Game.next_turn s)) = false.
Proof.
  intros Hp.
  assert (Game.activate_god_power s =
    if bool_decide (Player.god_card p ≠ None)
       && bool_decide (Game.phase s ∈ [Game.ph_select; Game.ph_move; Game.ph_build])
       && negb (Game.god_power_active s)
    then Game.Done true (Game.set_god_power_active true s)
    else Game.Done false s) as Heq.
  { unfold Game.activate_god_power, Game.bind at 1, Game.get_current_player.
    rewrite Hp. destruct (Player.god_card p); [|done].
    rewrite bool_decide_eq_true_2 by done. simpl.
    rewrite GameFacts.bind_get.
    destruct (bool_decide (Game.phase s ∈ _)); simpl; [|done].
    by destruct (Game.god_power_active s). }
  split_and!.
  - rewrite Heq.
    destruct (bool_decide (Player.god_card p ≠ None)) eqn:H1;
      destruct (bool_decide (Game.phase s ∈ _)) eqn:H2;
      destruct (Game.god_power_active s) eqn:H3; simpl;
      try apply bool_decide_eq_true in H1; try apply bool_decide_eq_true in H2;
      try apply bool_decide_eq_false in H1; try apply bool_decide_eq_false in H2;
      split; try done; intros (? & ? & ?); done.
  - rewrite Heq. destruct (_ && _); auto.
  - intros Ha. rewrite Heq, Ha. by rewrite andb_false_r.
  - intros cs. apply GameFacts.preserves_run_calls; [exact _|].
    apply GameFacts.power_kept_perform.
  - apply next_turn_power_off. intros Hnil. by rewrite Hnil in Hp.
Qed.

Lemma activation_protocol_witness :
  Game.value_of (Game.activate_god_power game_cornered) = Some true ↔
  Some GodCard.Demeter ≠ None ∧
  Game.phase game_cornered ∈ [Game.ph_select; Game.ph_move; Game.ph_build] ∧
  Game.god_power_active game_cornered = false.
Proof.
  apply (activation_protocol game_cornered
           (Player.mk "Player 1" (Some GodCard.Demeter)
              [Worker.mk (0%nat, 0%nat) "P1" (Some (0, 0)) (Some (0, 1));
               Worker.mk (0%nat, 1%nat) "P2" (Some (1, 1)) None]
              "#00D0FF")).
  vm_compute. reflexivity.
Defined.

(** C3, as the spec words it, fails: in a game that [new_game] started,
    player 1 holds Demeter and has moved a worker into the corner (0,0), from
    where a single tile can be built on, so that Demeter's [can_use_power] is
    false for the selected worker; the activation succeeds all the same. *)
Lemma activation_ignores_can_use_power :
  ¬ (∀ s, reachable s →
       (Game.value_of (Game.activate_god_power s) = Some true ↔
        (∃ p, Game.players s !! Game.current_player_index s = Some p ∧
              Player.god_card p ≠ None) ∧
        Game.phase s ∈ [Game.ph_select; Game.ph_move; Game.ph_build] ∧
        Game.god_power_active s = false ∧
        can_activate s)).
Proof.
  intros H.
  assert (reachable game_cornered) as Hr
    by apply reachable_run_calls, reachable_init.
  destruct (proj1 (H game_cornered Hr)) as (_ & _ & _ & Hcan);
    [vm_compute; reflexivity|].
  destruct Hcan as (p & card & w & pos & Hp & Hc & Hw & Hpos & Hcan).
  vm_compute in Hp. injection Hp as <-.
  vm_compute in Hc. injection Hc as <-.
  vm_compute in Hw. injection Hw as <-.
  vm_compute in Hpos. injection Hpos as <-.
  vm_compute in Hcan. discriminate.
Qed.

(** ** Hints *)




#[global] Instance hints_kept_nonneg_preorder : PreOrder hints_kept_nonneg.
Proof.
  split; [intros s H; exact H | intros s1 s2 s3 H1 H2 H; exact (H2 (H1 H))].
Qed.




(** ** The workers of a game *)

Module WorkerFacts.

Import Game.

Lemma find_worker_set_board b s r : find_worker (set_board b s) r = find_worker s r.
Proof. reflexivity. Qed.

Lemma find_worker_store_eq w w0 s :
  find_worker s (Worker.ref w) = Some w0 →
  find_worker (store_worker w s) (Worker.ref w) = Some w.
Proof.
  unfold find_worker, store_worker. destruct (Worker.ref w) as [i j]. simpl.
  destruct (players s !! i) as [p|] eqn:Hp; simpl; [|done]. intros Hj.
  rewrite list_lookup_insert_eq by by eapply lookup_lt_Some. simpl.
  apply list_lookup_insert_eq. by eapply lookup_lt_Some.
Qed.

Lemma find_worker_store_ne w s r :
  Worker.ref w ≠ r → find_worker (store_worker w s) r = find_worker s r.
Proof.
  unfold find_worker, store_worker. destruct (Worker.ref w) as [i j], r as [i' j'].
  simpl. intros Hne.
  destruct (players s !! i) as [p|] eqn:Hp; simpl; [|done].
  destruct (decide (i = i')) as [<-|Hi].
  - rewrite list_lookup_insert_eq by by eapply lookup_lt_Some. rewrite Hp. simpl.
    apply list_lookup_insert_ne. congruence.
  - by rewrite list_lookup_insert_ne.
Qed.

Lemma store_worker_same w s :
  find_worker s (Worker.ref w) = Some w → store_worker w s = s.
Proof.
  unfold find_worker, store_worker. destruct (Worker.ref w) as [i j]. simpl.
  destruct (players s !! i) as [p|] eqn:Hp; simpl; [|done]. intros Hj.
  rewrite (list_insert_id (Player.workers p)) by done.
  replace (Player.set_workers (Player.workers p) p) with p by by destruct p.
  rewrite list_insert_id by done. by destruct s.
Qed.

Lemma cards_store_worker w s :
  Player.god_card <$> players (store_worker w s) = Player.god_card <$> players s.
Proof.
  unfold store_worker. destruct (players s !! _) as [p|] eqn:Hp; [|done].
  cbn [players set_players].
  rewrite list_fmap_insert. simpl. apply list_insert_id.
  by rewrite list_lookup_fmap, Hp.
Qed.

Lemma worker_refs_store_worker w w0 s :
  find_worker s (Worker.ref w) = Some w0 → Worker.ref w0 = Worker.ref w →
  worker_refs (store_worker w s) = worker_refs s.
Proof.
  unfold find_worker, store_worker, worker_refs.
  destruct (Worker.ref w) as [i j] eqn:Hr. cbn [fst snd].
  destruct (players s !! i) as [p|] eqn:Hp; [|done].
  cbn [players set_players mbind option_bind]. intros Hj H0.
  rewrite <- (list_insert_id (players s) i p) at 2 by done.
  rewrite !(insert_take_drop (players s)) by by eapply lookup_lt_Some.
  rewrite !bind_app. f_equal. rewrite !bind_cons. f_equal.
  cbn [Player.workers Player.set_workers].
  rewrite list_fmap_insert. rewrite Hr. apply list_insert_id.
  rewrite list_lookup_fmap, Hj. simpl. by rewrite H0.
Qed.

(** What [Worker.move_to] does when it returns [True]. *)
Lemma Worker_move_to_true w pos b w' b' :
  Worker_move_to w pos b = Ok (true, w', b') →
  w' = moved w pos ∧
  ∃ t, Board.get_block b pos = Some t ∧ Tile.worker t = None ∧
       Tile.is_dome t = false ∧
       Board.get_block b' pos = Some (occupied t (Worker.ref w)).
Proof.
  unfold Worker_move_to. intros H.
  destruct (negb _); [done|].
  destruct (Board.get_block b pos) as [target|] eqn:Hp; [|done].
  destruct (bool_decide (Tile.worker target ≠ None)) eqn:Hw; [done|].
  destruct (Tile.is_dome target) eqn:Hd; [done|]. simpl in H.
  apply bool_decide_eq_false in Hw.
  assert (Tile.worker target = None) as Hw'
    by (destruct (Tile.worker target); [exfalso; by apply Hw | done]).
  unfold moved. destruct (Worker.position w) as [cur|].
  - destruct (Board.get_block b cur) as [current|] eqn:Hc; [|done].
    injection H as <- <-. split; [reflexivity|].
    exists target. split_and!; try done.
    destruct (decide (cur = pos)) as [->|Hne].
    + eapply BoardFacts.get_block_set_block_eq.
      by eapply BoardFacts.get_block_set_block_eq.
    + eapply BoardFacts.get_block_set_block_eq.
      by rewrite BoardFacts.get_block_set_block_ne.
  - injection H as <- <-. split; [reflexivity|].
    exists target. split_and!; try done.
    by eapply BoardFacts.get_block_set_block_eq.
Qed.

(** What [Worker.move_to] does when it returns [False]. *)
Lemma Worker_move_to_false w pos b w' b' :
  Worker_move_to w pos b = Ok (false, w', b') → w' = w ∧ b' = b.
Proof.
  unfold Worker_move_to. intros H.
  destruct (negb _); [by injection H as <- <-|].
  destruct (Board.get_block b pos) as [target|]; [|done].
  destruct (_ || _); [by injection H as <- <-|].
  destruct (Worker.position w) as [cur|]; [|done].
  by destruct (Board.get_block b cur).
Qed.

(** The first placement of a worker, on a free tile. *)
Lemma place_worker_fresh s r w pos t :
  find_worker s r = Some w → Worker.ref w = r → Worker.position w = None →
  Board.get_block (board s) pos = Some t →
  Tile.worker t = None → Tile.is_dome t = false →
  place_worker r pos s
  = Done true
      (store_worker (moved w pos)
         (set_board (Board.set_block (board s) pos (occupied t r)) s)).
Proof.
  intros Hw Hr Hpos Ht Hfree Hdome.
  unfold place_worker, bind at 1, worker_of. rewrite Hw.
  rewrite GameFacts.bind_get.
  unfold Board_place_worker, Worker_move_to.
  rewrite (BoardFacts.get_block_Some_valid _ _ _ Ht), Ht, Hfree, Hdome, Hpos, Hr.
  simpl. rewrite GameFacts.bind_ret. cbv beta iota.
  rewrite !GameFacts.bind_modify. unfold moved, occupied.
  rewrite Hpos, Hr. reflexivity.
Qed.

End WorkerFacts.

(** ** The random placement of the workers *)

Module PlacementFacts.

Import Game.

Lemma list_pop_reverse {A} (x : A) (l : list A) :
  list_pop (reverse (x :: l)) = Some (x, reverse l).
Proof. unfold list_pop. by rewrite reverse_involutive. Qed.

Lemma elem_of_all_positions s p :
  p ∈ all_positions s ↔ Board.is_valid_position (board s) p = true.
Proof.
  destruct p as [r c]. unfold all_positions.
  rewrite BoardFacts.valid_iff, list_elem_of_bind. split.
  - intros (r' & (c' & H & Hc)%list_elem_of_bind & Hr).
    apply list_elem_of_singleton in H. injection H as -> ->.
    apply BoardFacts.elem_of_range in Hr, Hc. lia.
  - intros [Hr Hc]. exists r. split; [|apply BoardFacts.elem_of_range; lia].
    apply list_elem_of_bind. exists c. split; [by apply list_elem_of_singleton|].
    apply BoardFacts.elem_of_range; lia.
Qed.

Lemma NoDup_all_positions s : NoDup (all_positions s).
Proof.
  unfold all_positions. apply NoDup_bind.
  - intros r1 r2 q _ _ H1 H2.
    apply list_elem_of_bind in H1 as (c1 & H1 & _), H2 as (c2 & H2 & _).
    apply list_elem_of_singleton in H1, H2. congruence.
  - intros r _. apply NoDup_bind.
    + intros c1 c2 q _ _ H1 H2. apply list_elem_of_singleton in H1, H2. congruence.
    + intros. apply NoDup_singleton.
    + apply BoardFacts.NoDup_range.
  - apply BoardFacts.NoDup_range.
Qed.

Lemma get_block_init n p :
  Board.is_valid_position (Board.init n) p = true →
  Board.get_block (Board.init n) p = Some Tile.init.
Proof.
  intros Hv. destruct p as [r c]. unfold Board.get_block. rewrite Hv.
  apply BoardFacts.valid_iff in Hv as [Hr Hc]. simpl in *.
  unfold range. rewrite !list_lookup_fmap.
  rewrite (lookup_seqZ_lt 0 (n - 0) (Z.to_nat r)) by lia. simpl.
  rewrite list_lookup_fmap.
  rewrite (lookup_seqZ_lt 0 (n - 0) (Z.to_nat c)) by lia. done.
Qed.

(** The game that two calls of [add_player] on a fresh game leave. *)
Lemma two_players_inv gui n1 c1 col1 n2 c2 col2 p s0 :
  two_players gui n1 c1 col1 n2 c2 col2 = Done p s0 →
  ∃ nm00 nm01 nm10 nm11,
    s0 = set_players
           [ Player.mk n1 c1
               [Worker.init (0%nat, 0%nat) nm00; Worker.init (0%nat, 1%nat) nm01] col1;
             Player.mk n2 c2
               [Worker.init (1%nat, 0%nat) nm10; Worker.init (1%nat, 1%nat) nm11] col2 ]
           (init gui).
Proof.
  unfold two_players, add_player, Player.init.
  rewrite GameFacts.bind_bind, GameFacts.bind_get.
  destruct n1 as [|ch1 r1]; [done|]. simpl.
  destruct n2 as [|ch2 r2]; [done|]. simpl.
  intros [= <- <-]. by eexists _, _, _, _.
Qed.

(** The last four positions of a shuffle of the board, last first. *)
Lemma last_four s shuffled :
  Board.size (board s) = 5 → shuffled ≡ₚ all_positions s →
  ∃ a b c d rest,
    reverse shuffled = a :: b :: c :: d :: rest ∧ NoDup [a; b; c; d] ∧
    Forall (fun p => Board.is_valid_position (board s) p = true) [a; b; c; d].
Proof.
  intros Hsize Hperm.
  assert (length (reverse shuffled) = 25%nat) as Hlen.
  { rewrite length_reverse, Hperm. unfold all_positions. rewrite Hsize. done. }
  assert (NoDup (reverse shuffled)) as Hnd.
  { rewrite reverse_Permutation, Hperm. apply NoDup_all_positions. }
  assert (∀ p, p ∈ reverse shuffled → Board.is_valid_position (board s) p = true)
    as Hvalid.
  { intros p Hp. apply elem_of_all_positions.
    by rewrite <- Hperm, <- reverse_Permutation. }
  destruct (reverse shuffled) as [|a [|b [|c [|d rest]]]]; try done.
  exists a, b, c, d, rest. split_and!; [done| |].
  - apply (NoDup_app [a; b; c; d] rest) in Hnd. apply Hnd.
  - repeat (constructor; [apply Hvalid; set_solver|]). constructor.
Qed.

(** [randomly_place_workers] on a game with its two players just added: the
    workers go to the last four positions of the shuffle. *)
Lemma placed_four gui n1 c1 col1 n2 c2 col2 p s0 shuffled :
  two_players gui n1 c1 col1 n2 c2 col2 = Done p s0 →
  shuffled ≡ₚ all_positions s0 →
  ∃ s a b c d rest,
    randomly_place_workers shuffled s0 = Done tt s ∧
    reverse shuffled = a :: b :: c :: d :: rest ∧ NoDup [a; b; c; d] ∧
    worker_refs s = [(0, 0); (0, 1); (1, 0); (1, 1)]%nat ∧
    placed_at s (0, 0)%nat a ∧ placed_at s (0, 1)%nat b ∧
    placed_at s (1, 0)%nat c ∧ placed_at s (1, 1)%nat d ∧
    same_cards s0 s.
Proof.
  intros Hs0 Hperm.
  apply two_players_inv in Hs0 as (nm00 & nm01 & nm10 & nm11 & ->).
  edestruct last_four as (a & b & c & d & rest & Hrev & Hnd & Hv);
    [|exact Hperm|]; [reflexivity|].
  assert (shuffled = reverse (a :: b :: c :: d :: rest)) as ->
    by by rewrite <- Hrev, reverse_involutive.
  clear Hperm.
  apply Forall_cons in Hv as [Ha Hv]. apply Forall_cons in Hv as [Hb Hv].
  apply Forall_cons in Hv as [Hc Hv]. apply Forall_cons in Hv as [Hd _].
  cbn [board set_players init] in Ha, Hb, Hc, Hd.
  assert (a ≠ b ∧ a ≠ c ∧ a ≠ d ∧ b ≠ c ∧ b ≠ d ∧ c ≠ d)
    as (Hab & Hac & Had & Hbc & Hbd & Hcd).
  { pose proof Hnd as Hnd'. repeat rewrite NoDup_cons in Hnd'.
    repeat rewrite not_elem_of_cons in Hnd'. tauto. }
  unfold randomly_place_workers. rewrite GameFacts.bind_get.
  set (s0 := set_players _ (init gui)).
  change (worker_refs s0) with [(0, 0); (0, 1); (1, 0); (1, 1)]%nat.
  pose proof (get_block_init 5 a Ha) as Hta.
  pose proof (get_block_init 5 b Hb) as Htb.
  pose proof (get_block_init 5 c Hc) as Htc.
  pose proof (get_block_init 5 d Hd) as Htd.
  (* first worker *)
  cbn [place_workers]. rewrite list_pop_reverse. unfold bind at 1.
  rewrite (WorkerFacts.place_worker_fresh s0 _ (Worker.init (0, 0)%nat nm00) a Tile.init);
    try done.
  set (s1 := store_worker _ _).
  assert (board s1 = Board.set_block (Board.init 5) a (occupied Tile.init (0, 0)%nat))
    as Hb1 by (unfold s1; by rewrite GameFacts.board_store_worker).
  (* second worker *)
  cbn [place_workers]. rewrite list_pop_reverse. unfold bind at 1.
  rewrite (WorkerFacts.place_worker_fresh s1 _ (Worker.init (0, 1)%nat nm01) b Tile.init);
    try done;
    [|by rewrite Hb1, BoardFacts.get_block_set_block_ne].
  set (s2 := store_worker _ _).
  assert (board s2 = Board.set_block (board s1) b (occupied Tile.init (0, 1)%nat))
    as Hb2 by (unfold s2; by rewrite GameFacts.board_store_worker).
  (* third worker *)
  cbn [place_workers]. rewrite list_pop_reverse. unfold bind at 1.
  rewrite (WorkerFacts.place_worker_fresh s2 _ (Worker.init (1, 0)%nat nm10) c Tile.init);
    try done;
    [|by rewrite Hb2, BoardFacts.get_block_set_block_ne, Hb1,
         BoardFacts.get_block_set_block_ne].
  set (s3 := store_worker _ _).
  assert (board s3 = Board.set_block (board s2) c (occupied Tile.init (1, 0)%nat))
    as Hb3 by (unfold s3; by rewrite GameFacts.board_store_worker).
  (* fourth worker *)
  cbn [place_workers]. rewrite list_pop_reverse. unfold bind at 1.
  rewrite (WorkerFacts.place_worker_fresh s3 _ (Worker.init (1, 1)%nat nm11) d Tile.init);
    try done;
    [|by rewrite Hb3, BoardFacts.get_block_set_block_ne, Hb2,
         BoardFacts.get_block_set_block_ne, Hb1,
         BoardFacts.get_block_set_block_ne].
  set (s4 := store_worker _ _).
  assert (board s4 = Board.set_block (board s3) d (occupied Tile.init (1, 1)%nat))
    as Hb4 by (unfold s4; by rewrite GameFacts.board_store_worker).
  assert (∀ q, Board.is_valid_position (board s4) q
               = Board.is_valid_position (Board.init 5) q) as Hvalid.
  { intros q. by rewrite Hb4, BoardFacts.valid_set_block, Hb3,
      BoardFacts.valid_set_block, Hb2, BoardFacts.valid_set_block, Hb1,
      BoardFacts.valid_set_block. }
  exists s4, a, b, c, d, rest. split_and!; try done.
  - exists (moved (Worker.init (0, 0)%nat nm00) a), (occupied Tile.init (0, 0)%nat).
    split_and!; try done; [by rewrite Hvalid|].
    rewrite Hb4, BoardFacts.get_block_set_block_ne, Hb3,
      BoardFacts.get_block_set_block_ne, Hb2,
      BoardFacts.get_block_set_block_ne, Hb1 by done.
    by eapply BoardFacts.get_block_set_block_eq.
  - exists (moved (Worker.init (0, 1)%nat nm01) b), (occupied Tile.init (0, 1)%nat).
    split_and!; try done; [by rewrite Hvalid|].
    rewrite Hb4, BoardFacts.get_block_set_block_ne, Hb3,
      BoardFacts.get_block_set_block_ne, Hb2 by done.
    eapply BoardFacts.get_block_set_block_eq.
    by rewrite Hb1, BoardFacts.get_block_set_block_ne.
  - exists (moved (Worker.init (1, 0)%nat nm10) c), (occupied Tile.init (1, 0)%nat).
    split_and!; try done; [by rewrite Hvalid|].
    rewrite Hb4, BoardFacts.get_block_set_block_ne, Hb3 by done.
    eapply BoardFacts.get_block_set_block_eq.
    by rewrite Hb2, BoardFacts.get_block_set_block_ne, Hb1,
      BoardFacts.get_block_set_block_ne.
  - exists (moved (Worker.init (1, 1)%nat nm11) d), (occupied Tile.init (1, 1)%nat).
    split_and!; try done; [by rewrite Hvalid|].
    rewrite Hb4. eapply BoardFacts.get_block_set_block_eq.
    by rewrite Hb3, BoardFacts.get_block_set_block_ne, Hb2,
      BoardFacts.get_block_set_block_ne, Hb1,
      BoardFacts.get_block_set_block_ne.
Qed.

End PlacementFacts.

(** C10. On a game whose two players have just been added,
    [randomly_place_workers], given any shuffle of the board's positions,
    returns with all four workers placed: every worker has a position, that
    position is on the board, the tile there holds exactly that worker, and
    no two workers have the same position. *)
Theorem randomly_place_workers_places_all
  (gui : bool) (n1 : string) (c1 : option GodCard.t) (col1 : string)
  (n2 : string) (c2 : option GodCard.t) (col2 : string)
  (p : Player.t) (s0 : Game.t) (shuffled : list Position) :
  two_players gui n1 c1 col1 n2 c2 col2 = Game.Done p s0 →
  shuffled ≡ₚ Game.all_positions s0 →
  ∃ s, Game.randomly_place_workers shuffled s0 = Game.Done tt s ∧
    Game.worker_refs s = [(0, 0); (0, 1); (1, 0); (1, 1)]%nat ∧
    (∀ r, r ∈ Game.worker_refs s → ∃ pos, placed_at s r pos) ∧
    (∀ r r' w w', r ∈ Game.worker_refs s → r' ∈ Game.worker_refs s →
       Game.find_worker s r = Some w → Game.find_worker s r' = Some w' →
       Worker.position w = Worker.position w' → r = r').
Proof.
  intros Hs0 Hperm.
  destruct (PlacementFacts.placed_four _ _ _ _ _ _ _ _ _ _ Hs0 Hperm)
    as (s & a & b & c & d & rest & Hrun & _ & _ & Hrefs & Ha & Hb & Hc & Hd & _).
  assert (∀ r, r ∈ Game.worker_refs s → ∃ pos, placed_at s r pos) as Hall.
  { intros r. rewrite Hrefs, !elem_of_cons, elem_of_nil.
    intros [->|[->|[->|[->|[]]]]]; eauto. }
  exists s. split_and!; try done.
  intros r r' w w' Hr Hr' Hw Hw' Heq.
  destruct (Hall r Hr) as (pos & w1 & t1 & Hw1 & _ & Hp1 & _ & Ht1 & Ho1).
  destruct (Hall r' Hr') as (pos' & w2 & t2 & Hw2 & _ & Hp2 & _ & Ht2 & Ho2).
  rewrite Hw in Hw1. injection Hw1 as <-.
  rewrite Hw' in Hw2. injection Hw2 as <-.
  rewrite Hp1, Hp2 in Heq. injection Heq as <-.
  rewrite Ht1 in Ht2. injection Ht2 as <-. congruence.
Qed.

Lemma randomly_place_workers_places_all_witness :
  ∃ s,
    Game.randomly_place_workers shuffle_id
      (Game.state_of
         (two_players true "Player 1" (Some GodCard.Artemis) "#00D0FF"
            "Player 2" (Some GodCard.Zeus) "#FF0088"))
    = Game.Done tt s ∧
    Game.worker_refs s = [(0, 0); (0, 1); (1, 0); (1, 1)]%nat ∧
    (∀ r, r ∈ Game.worker_refs s → ∃ pos, placed_at s r pos) ∧
    (∀ r r' w w', r ∈ Game.worker_refs s → r' ∈ Game.worker_refs s →
       Game.find_worker s r = Some w → Game.find_worker s r' = Some w' →
       Worker.position w = Worker.position w' → r = r').
Proof.
  eapply (randomly_place_workers_places_all true "Player 1"
            (Some GodCard.Artemis) "#00D0FF" "Player 2" (Some GodCard.Zeus)
            "#FF0088").
  - reflexivity.
  - reflexivity.
Defined.

(** ** The cards of a session *)

#[global] Instance same_cards_preorder : PreOrder same_cards.
Proof. split; [by intros s | intros s1 s2 s3; unfold same_cards; congruence]. Qed.

Lemma same_cards_place_worker r p : preserves same_cards (Game.place_worker r p).
Proof.
  intros s. unfold Game.place_worker, Game.bind, Game.worker_of, Game.get, Game.lift.
  destruct (Game.find_worker s r) as [w|]; simpl; [|reflexivity].
  destruct (Board_place_worker (Game.board s) w p) as [[[ok w'] b']|]; simpl;
    [|reflexivity].
  unfold same_cards. by rewrite WorkerFacts.cards_store_worker.
Qed.

Lemma same_cards_start_game shuffled : preserves same_cards (Game.start_game shuffled).
Proof.
  apply GameFacts.frame_start_game; try exact _; try done.
  apply same_cards_place_worker.
Qed.

Lemma add_player_name_or (answer : option string) ch rest card color s :
  ∃ P, Game.add_player (SantoriniGUI.name_or answer (String ch rest)) card color s
       = Game.Done P (Game.set_players (Game.players s ++ [P]) s) ∧
       Player.god_card P = card.
Proof.
  unfold Game.add_player. rewrite GameFacts.bind_get.
  destruct answer as [[|c r]|]; simpl; eexists; split; reflexivity.
Qed.

(** C1, as the code has it.  For every new session, whatever the players
    answer and however the two shuffles and the coin fall, one player
    receives Zeus and the other the first card of the shuffled pair
    [Artemis, Demeter]; player 1 receives Zeus iff the coin is [True].  No
    player is left with the default card. *)
Theorem new_game_card_assignment
  (p1_answer p2_answer : option string) (god_cards : list GodCard.t)
  (choice : bool) (shuffled : list Position) :
  god_cards ≡ₚ [GodCard.Artemis; GodCard.Demeter] →
  ∃ drawn,
    god_cards !! 0%nat = Some drawn ∧
    (drawn = GodCard.Artemis ∨ drawn = GodCard.Demeter) ∧
    SantoriniGUI.deal_cards god_cards choice
    = Ok (if choice then (GodCard.Zeus, drawn) else (drawn, GodCard.Zeus)) ∧
    Player.god_card <$>
      Game.players
        (Game.state_of
           (SantoriniGUI.new_game p1_answer p2_answer god_cards choice shuffled))
    = (if choice then [Some GodCard.Zeus; Some drawn]
       else [Some drawn; Some GodCard.Zeus]).
Proof.
  intros Hperm.
  assert (∃ drawn other, god_cards = [drawn; other] ∧
            (drawn = GodCard.Artemis ∨ drawn = GodCard.Demeter))
    as (drawn & other & -> & Hdrawn).
  { pose proof (Permutation_length Hperm) as Hlen.
    destruct god_cards as [|x [|y [|z l]]]; try done.
    exists x, y. split; [done|].
    assert (x ∈ [GodCard.Artemis; GodCard.Demeter]) as Hx
      by (rewrite <- Hperm; constructor).
    apply elem_of_cons in Hx as [->|Hx]; [by left|].
    apply elem_of_cons in Hx as [->|Hx]; [by right|].
    by apply elem_of_nil in Hx. }
  exists drawn. split_and!; try done.
  unfold SantoriniGUI.new_game, SantoriniGUI.deal_cards. simpl.
  rewrite GameFacts.bind_ret.
  set (cards := if choice then _ else _).
  unfold Game.bind at 1.
  destruct (add_player_name_or p1_answer "P"%char "layer 1" (Some cards.1) "#00D0FF"
              (Game.init true)) as (P1 & -> & Hc1).
  unfold Game.bind at 1.
  match goal with |- context [Game.add_player _ _ _ ?s1] =>
    destruct (add_player_name_or p2_answer "P"%char "layer 2" (Some cards.2) "#FF0088" s1)
      as (P2 & -> & Hc2)
  end.
  rewrite GameFacts.state_of_bind. simpl.
  pose proof (same_cards_start_game shuffled) as Hstart.
  unfold preserves, same_cards in Hstart. rewrite Hstart. simpl.
  rewrite Hc1, Hc2. unfold cards. by destruct choice.
Qed.

Lemma new_game_card_assignment_witness :
  ∃ drawn,
    [GodCard.Demeter; GodCard.Artemis] !! 0%nat = Some drawn ∧
    (drawn = GodCard.Artemis ∨ drawn = GodCard.Demeter) ∧
    SantoriniGUI.deal_cards [GodCard.Demeter; GodCard.Artemis] false
    = Ok (drawn, GodCard.Zeus) ∧
    Player.god_card <$>
      Game.players
        (Game.state_of
           (SantoriniGUI.new_game None None [GodCard.Demeter; GodCard.Artemis]
              false shuffle_corner))
    = [Some drawn; Some GodCard.Zeus].
Proof.
  apply (new_game_card_assignment None None [GodCard.Demeter; GodCard.Artemis]
           false shuffle_corner).
  apply Permutation_swap.
Defined.

(** C1, as the spec words it, fails: in the session that [new_game] starts
    when the shuffle leaves [Artemis, Demeter] in place and the coin is
    [True], player 1 holds Zeus and player 2 Artemis; neither holds the
    default card. *)
Lemma no_default_card_dealt :
  ¬ (∀ (god_cards : list GodCard.t) (choice : bool) (shuffled : list Position),
       god_cards ≡ₚ [GodCard.Artemis; GodCard.Demeter] →
       shuffled ≡ₚ positions_5 →
       ∃ p1 p2,
         Game.players
           (Game.state_of
              (SantoriniGUI.new_game None None god_cards choice shuffled))
         = [p1; p2] ∧
         (default_card (Player.god_card p1) ∧ ¬ default_card (Player.god_card p2) ∨
          ¬ default_card (Player.god_card p1) ∧ default_card (Player.god_card p2))).
Proof.
  intros H.
  destruct (H [GodCard.Artemis; GodCard.Demeter] true shuffle_id)
    as (p1 & p2 & Hp & Hd); [done|done|].
  vm_compute in Hp. injection Hp as <- <-.
  unfold default_card in Hd. simpl in Hd.
  destruct Hd as [[[?|[? ?]] _]|[_ [?|[? ?]]]]; discriminate.
Qed.

(** ** The second move of Artemis *)

Module SecondMoveFacts.

Import Game.

Lemma elem_of_list_remove_first {A} `{EqDecision A} (x y : A) (l : list A) :
  NoDup l → x ∈ list_remove_first y l ↔ x ∈ l ∧ x ≠ y.
Proof.
  induction 1 as [|z l Hz Hnd IH]; simpl.
  - rewrite elem_of_nil. tauto.
  - destruct (decide (y = z)) as [->|Hne].
    + rewrite elem_of_cons. split; [|tauto].
      intros Hx. split; [by right|]. by intros ->.
    + rewrite !elem_of_cons, IH. split; [|tauto].
      intros [->|[? ?]]; [|tauto]. split; [by left|]. by intros ->.
Qed.



Lemma execute_move_eq m s w :
  find_worker s (Move.worker m) = Some w →
  execute_move m s
  = match Move.execute m w (board s) with
    | Ok (success, m', w', b') =>
      Done (success, m') (store_worker w' (set_board b' s))
    | Raise e => Fail e s
    end.
Proof.
  intros Hw. unfold execute_move, bind at 1, worker_of. rewrite Hw.
  rewrite GameFacts.bind_get. unfold bind at 1.
  by destruct (Move.execute m w (board s)) as [[[[ok m'] w'] b']|e].
Qed.


Lemma offer_second_move_eq wref pp p s :
  offer_second_move wref pp p s
  = match find_worker s wref with
    | None => Fail AttributeError s
    | Some w =>
      match players s !! Worker.player w with
      | None => Fail AttributeError s
      | Some pl =>
        match Player.god_card pl with
        | None => Done false s
        | Some card =>
          if bool_decide (GodCard.name card = "Artemis") && god_power_active s
          then match GodCard.can_use_power card w (board s) p with
               | Raise e => Fail e s
               | Ok false => Done false s
               | Ok true =>
                 let targets :=
                   Board.get_valid_moves (board s) p (athena_activated s) in
                 let targets :=
                   if bool_decide (pp ∈ targets)
                   then list_remove_first pp targets else targets in
                 if bool_decide (targets ≠ [])
                 then Done true (set_second_action (Some (mkSecond a_move p))
                                   (set_phase ph_second_move s))
                 else Done false s
               end
          else Done false s
        end
      end
    end.
Proof.
  unfold offer_second_move, bind at 1, worker_of.
  destruct (find_worker s wref) as [w|]; [|done].
  unfold bind at 1, player_of.
  destruct (players s !! _) as [pl|]; [|done].
  rewrite GameFacts.bind_get.
  destruct (Player.god_card pl) as [card|]; [|done].
  destruct (_ && _); [|done].
  unfold bind at 1.
  destruct (GodCard.can_use_power card w (board s) p) as [[|]|e]; simpl; try done.
  by destruct (bool_decide (_ ≠ [])).
Qed.




Lemma phase_store_worker w s : phase (store_worker w s) = phase s.
Proof. unfold store_worker. by destruct (players s !! _). Qed.



End SecondMoveFacts.

Lemma selected_worker_store_worker w s :
  Game.selected_worker (Game.store_worker w s) = Game.selected_worker s.
Proof. unfold Game.store_worker. by destruct (Game.players s !! _). Qed.

Lemma handle_tile_click_winner row col s :
  Game.winner s ≠ None → Game.handle_tile_click row col s = Game.Done tt s.
Proof.
  intros Hw. unfold Game.handle_tile_click. rewrite GameFacts.bind_get.
  by rewrite bool_decide_eq_true_2.
Qed.

Lemma handle_tile_click_phase row col s :
  Game.winner s = None →
  Game.handle_tile_click row col s
  = match Game.phase s with
    | Game.ph_place => Game._handle_place_phase (row, col) s
    | Game.ph_select => Game._handle_select_phase (row, col) s
    | Game.ph_move => Game._handle_move_phase (row, col) s
    | Game.ph_build => Game._handle_build_phase (row, col) s
    | Game.ph_second_move => Game._handle_second_move_phase (row, col) s
    | Game.ph_second_build => Game._handle_second_build_phase (row, col) s
    | Game.ph_setup => Game.Done tt s
    end.
Proof.
  intros Hw. unfold Game.handle_tile_click. rewrite GameFacts.bind_get, Hw.
  rewrite bool_decide_eq_false_2 by (intros H; by apply H).
  by destruct (Game.phase s).
Qed.



(** * More of the engine *)

(** ** Adjacency and the legality queries *)

(** [get_adjacent_positions] returns at most 8 positions, none twice and
    never the position itself, all of them on the board; and between two
    positions of the board adjacency is symmetric. *)
Theorem adjacency_laws :
  (∀ (b : Board.t) (p : Position),
     NoDup (Board.get_adjacent_positions b p) ∧
     (length (Board.get_adjacent_positions b p) <= 8)%nat ∧
     (p ∉ Board.get_adjacent_positions b p) ∧
     ∀ a, a ∈ Board.get_adjacent_positions b p →
          Board.is_valid_position b a = true) ∧
  (∀ (b : Board.t) (p a : Position),
     Board.is_valid_position b p = true →
     a ∈ Board.get_adjacent_positions b p →
     p ∈ Board.get_adjacent_positions b a).
Proof.
  split.
  - intros b p. split_and!.
    + apply BoardFacts.NoDup_get_adjacent_positions.
    + destruct p as [r c].
      transitivity (length [(r-1, c-1); (r-1, c); (r-1, c+1); (r, c-1);
                            (r, c+1); (r+1, c-1); (r+1, c); (r+1, c+1)]);
        [|done].
      apply submseteq_length, NoDup_submseteq;
        [apply BoardFacts.NoDup_get_adjacent_positions|].
      intros [r' c'] (Hne & _ & Hr & Hc)%BoardFacts.elem_of_get_adjacent_positions.
      simpl in Hr, Hc. rewrite !elem_of_cons.
      assert (r' = r - 1 ∨ r' = r ∨ r' = r + 1) as Hr' by lia.
      assert (c' = c - 1 ∨ c' = c ∨ c' = c + 1) as Hc' by lia.
      destruct Hr' as [-> | [-> | ->]], Hc' as [-> | [-> | ->]]; try tauto.
    + intros (Hne & _)%BoardFacts.elem_of_get_adjacent_positions. done.
    + intros a (_ & Hv & _)%BoardFacts.elem_of_get_adjacent_positions. done.
  - intros b p a Hp (Hne & Hv & Hr & Hc)%BoardFacts.elem_of_get_adjacent_positions.
    apply BoardFacts.elem_of_get_adjacent_positions.
    unfold Board_adjacent. split_and!; try done; lia.
Qed.

Lemma adjacency_laws_witness :
  (2, 2) ∈ Board.get_adjacent_positions (Board.init 5) (1, 1).
Proof.
  apply (proj2 adjacency_laws (Board.init 5) (2, 2) (1, 1)).
  - reflexivity.
  - vm_compute. set_solver.
Defined.

Lemma NoDup_get_valid_builds b p : NoDup (Board.get_valid_builds b p).
Proof.
  unfold Board.get_valid_builds. destruct (negb _); [constructor|].
  apply NoDup_filter, BoardFacts.NoDup_get_adjacent_positions.
Qed.

(** On a well-formed board, a neighbour of an in-bounds position is a
    valid build target iff it is unoccupied and not a dome.  Build targets
    are neighbours, listed once each, and every legal move destination is a
    legal build target. *)
Theorem get_valid_builds_spec :
  (∀ (b : Board.t) (p a : Position),
     Board_wf b → Board.is_valid_position b p = true → Board_adjacent b p a →
     ∃ ta, Board.get_block b a = Some ta ∧
       (a ∈ Board.get_valid_builds b p ↔
        Tile.worker ta = None ∧ Tile.level ta ≠ Level.DOME)) ∧
  (∀ b p a, a ∈ Board.get_valid_builds b p → Board_adjacent b p a) ∧
  (∀ b p, NoDup (Board.get_valid_builds b p)) ∧
  (∀ b p flag a,
     a ∈ Board.get_valid_moves b p flag → a ∈ Board.get_valid_builds b p).
Proof.
  split_and!.
  - intros b p a Hwf Hp Hadj.
    destruct (BoardFacts.get_block_valid b a Hwf) as [ta Hta]; [apply Hadj|].
    exists ta. split; [done|].
    rewrite BoardLaws.elem_of_get_valid_builds. split.
    + intros (ta' & _ & H2 & _ & Hw & Hd).
      rewrite Hta in H2. injection H2 as <-. split; [done|].
      intros Hl. unfold Tile.is_dome in Hd. by rewrite Hl in Hd.
    + intros [Hw Hd]. exists ta. split_and!; try done.
      unfold Tile.is_dome. by apply bool_decide_eq_false_2.
  - intros b p a (ta & _ & _ & Hadj & _)%BoardLaws.elem_of_get_valid_builds.
    exact Hadj.
  - apply NoDup_get_valid_builds.
  - intros b p flag a
      (tp & ta & Hp & Ha & Hadj & Hw & Hd & _)%BoardLaws.elem_of_get_valid_moves.
    apply BoardLaws.elem_of_get_valid_builds. exists ta.
    split_and!; try done. by eapply BoardFacts.get_block_Some_valid.
Qed.

Lemma get_valid_builds_spec_witness :
  ∃ ta, Board.get_block (Board.init 5) (0, 1) = Some ta ∧
    ((0, 1) ∈ Board.get_valid_builds (Board.init 5) (0, 0) ↔
     Tile.worker ta = None ∧ Tile.level ta ≠ Level.DOME).
Proof.
  apply (proj1 get_valid_builds_spec (Board.init 5) (0, 0) (0, 1)).
  - apply BoardFacts.wf_init.
  - reflexivity.
  - unfold Board_adjacent. simpl. split_and!; (done || lia).
Defined.

(** [get_valid_builds_with_zeus] lists the ordinary build targets and, after
    them, the position itself exactly when its tile is occupied and below
    level 3 (the test for a dome adds nothing to that).  The position itself
    is never an ordinary build target, so the list has no duplicates. *)
Theorem get_valid_builds_with_zeus_spec (b : Board.t) (p : Position) :
  (p ∉ Board.get_valid_builds b p) ∧
  NoDup (Board.get_valid_builds_with_zeus b p) ∧
  ((∃ t, Board.get_block b p = Some t ∧ Tile.worker t ≠ None ∧
         Tile.level_value t < 3) →
   Board.get_valid_builds_with_zeus b p = Board.get_valid_builds b p ++ [p]) ∧
  (¬ (∃ t, Board.get_block b p = Some t ∧ Tile.worker t ≠ None ∧
           Tile.level_value t < 3) →
   Board.get_valid_builds_with_zeus b p = Board.get_valid_builds b p).
Proof.
  assert (p ∉ Board.get_valid_builds b p) as Hself.
  { intros (ta & _ & _ & Hadj & _)%BoardLaws.elem_of_get_valid_builds.
    by destruct Hadj. }
  pose proof (NoDup_get_valid_builds b p) as Hnd.
  unfold Board.get_valid_builds_with_zeus.
  destruct (Board.get_block b p) as [t|] eqn:Hp.
  - destruct (bool_decide (Tile.worker t ≠ None)) eqn:Hw; simpl.
    + destruct (Tile.is_dome t) eqn:Hd; simpl.
      * split_and!; try done. intros (t' & [= <-] & _ & Hl).
        unfold Tile.is_dome in Hd. apply bool_decide_eq_true in Hd.
        unfold Tile.level_value in Hl. rewrite Hd in Hl. simpl in Hl. lia.
      * destruct (bool_decide (Level.value (Tile.level t) < 3)) eqn:Hl.
        -- split_and!; try done.
           ++ apply NoDup_app. split_and!; [done| |apply NoDup_singleton].
              intros x Hx ->%list_elem_of_singleton. done.
           ++ intros Hno. exfalso. apply Hno. exists t.
              apply bool_decide_eq_true in Hw, Hl. done.
        -- split_and!; try done. intros (t' & [= <-] & _ & Hl').
           apply bool_decide_eq_false in Hl. done.
    + split_and!; try done. intros (t' & [= <-] & Hw' & _).
      apply bool_decide_eq_false in Hw. done.
  - split_and!; try done. by intros (t' & [=] & _).
Qed.

(** ** Moving and building *)

Module MoveFacts.

(** [Worker.move_to] goes through when the target is free. *)
Lemma Worker_move_to_succeeds w pos b t :
  Board_wf b →
  (∀ cur, Worker.position w = Some cur → Board.is_valid_position b cur = true) →
  Board.get_block b pos = Some t → Tile.worker t = None →
  Tile.is_dome t = false →
  ∃ w' b', Worker_move_to w pos b = Ok (true, w', b').
Proof.
  intros Hwf Hcur Ht Hfree Hd. unfold Worker_move_to.
  rewrite (BoardFacts.get_block_Some_valid _ _ _ Ht), Ht, Hfree, Hd.
  rewrite bool_decide_eq_false_2 by (intros H; by apply H). simpl.
  destruct (Worker.position w) as [cur|]; [|by eexists _, _].
  destruct (BoardFacts.get_block_valid b cur Hwf (Hcur cur eq_refl)) as [c ->].
  by eexists _, _.
Qed.

End MoveFacts.

(** [Worker.move_to] on a well-formed board, for a worker that is unplaced or
    stands on the board: it never raises; it succeeds iff the target is a
    tile of the board that is unoccupied and not a dome; a refused move
    changes nothing; a successful one records the old position as the
    previous one, puts the worker on the target tile, takes it off the tile
    it stood on, and leaves every other tile and every height as they
    were. *)
Theorem Worker_move_to_spec (w : Worker.t) (pos : Position) (b : Board.t) :
  Board_wf b →
  (∀ cur, Worker.position w = Some cur → Board.is_valid_position b cur = true) →
  ∃ r w' b', Worker_move_to w pos b = Ok (r, w', b') ∧
    (r = true ↔
     ∃ t, Board.get_block b pos = Some t ∧ Tile.worker t = None ∧
          Tile.level t ≠ Level.DOME) ∧
    (r = false → w' = w ∧ b' = b) ∧
    (r = true →
     w' = moved w pos ∧ Board_wf b' ∧
     ∀ q t, Board.get_block b q = Some t →
            Board.get_block b' q = Some (tile_after_move w pos q t)).
Proof.
  intros Hwf Hcur. unfold Worker_move_to.
  destruct (Board.is_valid_position b pos) eqn:Hv; simpl.
  2:{ exists false, w, b. split_and!; try done. split; [done|].
      intros (t & Ht & _). apply BoardFacts.get_block_Some_valid in Ht.
      congruence. }
  destruct (BoardFacts.get_block_valid b pos Hwf Hv) as [target Ht]. rewrite Ht.
  destruct (bool_decide (Tile.worker target ≠ None)) eqn:Hw; simpl.
  { exists false, w, b. split_and!; try done. split; [done|].
    intros (t & [= <-] & Hfree & _). apply bool_decide_eq_true in Hw. done. }
  apply bool_decide_eq_false in Hw.
  assert (Tile.worker target = None) as Hfree
    by (destruct (Tile.worker target); [exfalso; by apply Hw | done]).
  destruct (Tile.is_dome target) eqn:Hd.
  { exists false, w, b. split_and!; try done. split; [done|].
    intros (t & [= <-] & _ & Hnd). unfold Tile.is_dome in Hd.
    apply bool_decide_eq_true in Hd. done. }
  assert (Tile.level target ≠ Level.DOME) as Hnd.
  { unfold Tile.is_dome in Hd. by apply bool_decide_eq_false in Hd. }
  destruct (Worker.position w) as [cur|] eqn:Hpos.
  - destruct (BoardFacts.get_block_valid b cur Hwf (Hcur cur eq_refl))
      as [current Hc]. rewrite Hc.
    eexists true, _, _. split; [reflexivity|]. split_and!; try done.
    + split; [|done]. intros _. by exists target.
    + intros _. split_and!.
      * unfold moved. by rewrite Hpos.
      * by do 2 apply BoardFacts.wf_set_block.
      * intros q t Hq. unfold tile_after_move. rewrite Hpos.
        destruct (decide (q = pos)) as [->|Hqp].
        -- rewrite Ht in Hq. injection Hq as <-.
           destruct (decide (cur = pos)) as [->|Hne].
           ++ eapply BoardFacts.get_block_set_block_eq.
              by eapply BoardFacts.get_block_set_block_eq.
           ++ eapply BoardFacts.get_block_set_block_eq.
              by rewrite BoardFacts.get_block_set_block_ne.
        -- rewrite BoardFacts.get_block_set_block_ne by done.
           destruct (decide (Some cur = Some q)) as [[= ->]|Hne].
           ++ rewrite Hc in Hq. injection Hq as <-.
              by eapply BoardFacts.get_block_set_block_eq.
           ++ rewrite BoardFacts.get_block_set_block_ne by congruence. done.
  - eexists true, _, _. split; [reflexivity|]. split_and!; try done.
    + split; [|done]. intros _. by exists target.
    + intros _. split_and!.
      * unfold moved. by rewrite Hpos.
      * by apply BoardFacts.wf_set_block.
      * intros q t Hq. unfold tile_after_move. rewrite Hpos.
        destruct (decide (q = pos)) as [->|Hqp].
        -- rewrite Ht in Hq. injection Hq as <-.
           by eapply BoardFacts.get_block_set_block_eq.
        -- rewrite BoardFacts.get_block_set_block_ne by done.
           by destruct (decide (None = Some q)).
Qed.

Lemma Worker_move_to_spec_witness :
  ∃ r w' b', Worker_move_to scenario_worker (2, 2) (Board.init 5) = Ok (r, w', b') ∧
    (r = true ↔
     ∃ t, Board.get_block (Board.init 5) (2, 2) = Some t ∧ Tile.worker t = None ∧
          Tile.level t ≠ Level.DOME) ∧
    (r = false → w' = scenario_worker ∧ b' = Board.init 5) ∧
    (r = true →
     w' = moved scenario_worker (2, 2) ∧ Board_wf b' ∧
     ∀ q t, Board.get_block (Board.init 5) q = Some t →
            Board.get_block b' q = Some (tile_after_move scenario_worker (2, 2) q t)).
Proof.
  apply (Worker_move_to_spec scenario_worker (2, 2) (Board.init 5)).
  - apply BoardFacts.wf_init.
  - intros cur Hcur. discriminate Hcur.
Defined.

(** [Move.execute] on a well-formed board, for a worker standing on the
    move's origin: it never raises; it succeeds iff the destination is among
    the legal moves from the origin (so never onto an occupied tile or a
    dome, and never more than one level up); a refused move changes nothing;
    a successful one moves the worker as [Worker.move_to] does, and marks the
    move as winning exactly when the destination tile is at level 3. *)
Theorem Move_execute_spec (m : Move.t) (w : Worker.t) (b : Board.t) :
  Board_wf b → Worker.position w = Some (Move.from_pos m) →
  ∃ r m' w' b', Move.execute m w b = Ok (r, m', w', b') ∧
    (r = true ↔
     Move.to_pos m ∈ Board.get_valid_moves b (Move.from_pos m) false) ∧
    (r = false → m' = m ∧ w' = w ∧ b' = b) ∧
    (r = true →
     Worker_move_to w (Move.to_pos m) b = Ok (true, w', b') ∧
     w' = moved w (Move.to_pos m) ∧
     Move.worker m' = Move.worker m ∧ Move.from_pos m' = Move.from_pos m ∧
     Move.to_pos m' = Move.to_pos m ∧
     ∃ t, Board.get_block b (Move.to_pos m) = Some t ∧
       Move.is_winning_move m'
       = Move.is_winning_move m || bool_decide (Tile.level t = Level.LEVEL3)).
Proof.
  intros Hwf Hpos. unfold Move.execute, Board_place_worker.
  destruct (Board.is_valid_position b (Move.to_pos m)) eqn:Hv; simpl.
  2:{ exists false, m, w, b. split_and!; try done. split; [done|].
      intros (_ & ta & _ & Ha & _)%BoardLaws.elem_of_get_valid_moves.
      apply BoardFacts.get_block_Some_valid in Ha. congruence. }
  destruct (bool_decide (Move.to_pos m ∈ _)) eqn:Hin; simpl.
  2:{ apply bool_decide_eq_false in Hin.
      exists false, m, w, b. split_and!; try done. }
  apply bool_decide_eq_true in Hin. pose proof Hin as Hin'.
  apply BoardLaws.elem_of_get_valid_moves in Hin'
    as (tp & ta & Hp & Ha & _ & Hfree & Hd & _).
  destruct (MoveFacts.Worker_move_to_succeeds w (Move.to_pos m) b ta Hwf)
    as (w' & b' & Hmove); try done.
  { intros cur Hcur. rewrite Hpos in Hcur. injection Hcur as <-.
    by eapply BoardFacts.get_block_Some_valid. }
  destruct (WorkerFacts.Worker_move_to_true _ _ _ _ _ Hmove)
    as (-> & ta' & Ha' & _ & _ & Hboard).
  rewrite Ha in Ha'. injection Ha' as <-.
  rewrite Hmove, Hboard.
  change (Tile.level_value (occupied ta (Worker.ref w)))
    with (Tile.level_value ta).
  assert (bool_decide (Tile.level_value ta = 3)
          = bool_decide (Tile.level ta = Level.LEVEL3)) as Hlv.
  { apply bool_decide_ext. unfold Tile.level_value.
    destruct (Tile.level ta); simpl; split; (done || lia). }
  rewrite Hlv.
  destruct (bool_decide (Tile.level ta = Level.LEVEL3)) eqn:H3.
  - eexists true, _, _, _. split; [reflexivity|]. split_and!; try done.
    intros _. split_and!; try done. exists ta. split; [done|].
    rewrite H3. simpl. by rewrite orb_true_r.
  - eexists true, _, _, _. split; [reflexivity|]. split_and!; try done.
    intros _. split_and!; try done. exists ta. split; [done|].
    rewrite H3. by rewrite orb_false_r.
Qed.

Lemma Move_execute_spec_witness :
  ∃ r m' w' b',
    Move.execute (Move.init (0, 0)%nat (2, 2) (1, 1)) (moved scenario_worker (2, 2))
      (Board.set_block (Board.init 5) (2, 2) (occupied Tile.init (0, 0)%nat))
    = Ok (r, m', w', b') ∧ r = true.
Proof.
  destruct (Move_execute_spec (Move.init (0, 0)%nat (2, 2) (1, 1))
              (moved scenario_worker (2, 2))
              (Board.set_block (Board.init 5) (2, 2) (occupied Tile.init (0, 0)%nat)))
    as (r & m' & w' & b' & Hrun & Hiff & _).
  - apply BoardFacts.wf_set_block, BoardFacts.wf_init.
  - reflexivity.
  - exists r, m', w', b'. split; [exact Hrun|]. apply Hiff.
    apply (bool_decide_unpack _). vm_compute. exact I.
Defined.

(** [Build.execute] on a well-formed board never raises, and it succeeds iff
    its target is among the valid build targets from the worker's position
    (so never on an occupied tile or on a dome). *)
Theorem Build_execute_spec (bd : Build.t) (b : Board.t) :
  Board_wf b →
  ∃ r b', Build.execute bd b = Ok (r, b') ∧ Board_wf b' ∧
    (r = true ↔
     Build.position bd ∈ Board.get_valid_builds b (Build.worker_pos bd)).
Proof.
  intros Hwf. unfold Build.execute.
  destruct (Board.is_valid_position b (Build.position bd)) eqn:Hv; simpl.
  2:{ exists false, b. split_and!; try done. split; [done|].
      intros (ta & _ & Ha & _)%BoardLaws.elem_of_get_valid_builds.
      apply BoardFacts.get_block_Some_valid in Ha. congruence. }
  destruct (bool_decide (Build.position bd ∈ _)) eqn:Hin; simpl.
  2:{ apply bool_decide_eq_false in Hin. exists false, b. by split_and!. }
  apply bool_decide_eq_true in Hin. pose proof Hin as Hin'.
  apply BoardLaws.elem_of_get_valid_builds in Hin'
    as (ta & _ & Ha & _ & Hfree & Hd).
  rewrite Ha.
  destruct (HeightFacts.Tile_build_cases ta) as [[_ Hb]|(t' & Hb & _)].
  - exfalso. destruct Hb as [Hb|Hb]; [done|].
    unfold Tile.is_dome in Hd. by rewrite Hb in Hd.
  - rewrite Hb. eexists true, _. split; [reflexivity|].
    split; [by apply BoardFacts.wf_set_block|done].
Qed.

Lemma Build_execute_spec_witness :
  ∃ r b', Build.execute (Build.mk (1, 1) (2, 2)) (Board.init 5) = Ok (r, b') ∧
    Board_wf b' ∧
    (r = true ↔ (1, 1) ∈ Board.get_valid_builds (Board.init 5) (2, 2)).
Proof.
  apply (Build_execute_spec (Build.mk (1, 1) (2, 2)) (Board.init 5)).
  apply BoardFacts.wf_init.
Defined.

(** ** What every call preserves, with [add_player] taken as it is *)

(** [frame_perform] asks the relation to hold across any assignment to
    [players]; here [add_player], the one method that assigns the list
    itself, is taken as a whole instead. *)
Lemma frame_perform_players (R : relation Game.t) `{!PreOrder R} :
  (∀ v s, R s (Game.set_current_player_index v s)) →
  (∀ v s, R s (Game.set_winner v s)) →
  (∀ s, R s (Game.set_turn_count (Game.turn_count s + 1) s)) →
  (∀ v s, R s (Game.set_selected_worker v s)) →
  (∀ v s, R s (Game.set_phase v s)) →
  (∀ v s, R s (Game.set_second_action v s)) →
  (∀ v s, R s (Game.set_god_power_active v s)) →
  (∀ v s, R s (Game.set_last_move v s)) →
  (∀ v s, R s (Game.set_last_build v s)) →
  (∀ v s, R s (Game.set_timer v s)) →
  (∀ v s, R s (Game.set_hint_counts v s)) →
  (∀ n g c, preserves R (Game.add_player n g c)) →
  (∀ r p, preserves R (Game.place_worker r p)) →
  (∀ m, preserves R (Game.execute_move m)) →
  (∀ b, preserves R (Game.execute_build b)) →
  (∀ p, preserves R (Game.build_under_worker p)) →
  ∀ c, preserves R (perform c).
Proof.
  intros Hidx Hwin Hturn Hsel Hph Hsa Hgp Hlm Hlb Htm Hhc Hadd Hpw Hem Heb Hbu c.
  assert (preserves R Game.next_turn) as Hnt
    by (apply GameFacts.turn_next_turn; auto).
  assert (preserves R Game.provide_hint) as Hhint
    by (apply GameFacts.hint_provide_hint; auto).
  assert (preserves R Game.activate_god_power) as Hact
    by (apply GameFacts.frame_activate_god_power; auto).
  destruct c; simpl.
  - apply GameFacts.preserves_bind; [exact _|apply Hadd|].
    intros ?. by apply GameFacts.preserves_ret.
  - apply GameFacts.frame_start_game; auto.
  - apply GameFacts.frame_handle_tile_click; auto.
  - apply GameFacts.frame_skip_second_action; auto.
  - apply GameFacts.preserves_bind; [exact _|exact Hact|].
    intros ?. by apply GameFacts.preserves_ret.
  - apply GameFacts.preserves_bind; [exact _|exact Hhint|].
    intros ?. by apply GameFacts.preserves_ret.
  - apply GameFacts.frame_handle_timeout; auto.
  - apply GameFacts.frame_timer_expired; auto.
  - unfold SantoriniGUI.activate_god_power.
    apply GameFacts.preserves_bind; [exact _|by apply GameFacts.preserves_get|].
    intros s0. destruct (bool_decide _); [|by apply GameFacts.preserves_ret].
    apply GameFacts.preserves_bind; [exact _|exact Hact|].
    intros ?. by apply GameFacts.preserves_ret.
  - unfold SantoriniGUI.show_hint.
    apply GameFacts.preserves_bind; [exact _|by apply GameFacts.preserves_get|].
    intros s0.
    assert (preserves R (Game.bind Game.provide_hint (fun _ => Game.ret tt))) as H.
    { apply GameFacts.preserves_bind; [exact _|exact Hhint|].
      intros ?. by apply GameFacts.preserves_ret. }
    destruct (bool_decide _); [|exact H].
    apply GameFacts.preserves_bind;
      [exact _|by apply GameFacts.preserves_hint_count|].
    intros c. destruct (bool_decide _); [by apply GameFacts.preserves_ret|exact H].
Qed.

(** ** The shape of the board *)

Module ShapeFacts.

Import Game BoardFacts GameFacts.

#[global] Instance Board_shape_kept_preorder : PreOrder Board_shape_kept.
Proof.
  split.
  - intros b. by split.
  - intros b1 b2 b3 [Hs1 H1] [Hs2 H2]. split; [congruence|auto].
Qed.

#[global] Instance board_shape_kept_preorder : PreOrder board_shape_kept.
Proof.
  split.
  - intros s. unfold board_shape_kept. reflexivity.
  - intros s1 s2 s3. unfold board_shape_kept. intros H1 H2. by etrans.
Qed.

Lemma shape_set_block b p t : Board_shape_kept b (Board.set_block b p t).
Proof. split; [apply size_set_block|apply wf_set_block]. Qed.

Lemma Worker_move_to_shape w p b r w' b' :
  Worker_move_to w p b = Ok (r, w', b') → Board_shape_kept b b'.
Proof.
  unfold Worker_move_to. intros H.
  destruct (negb _); [injection H as <- <- <-; reflexivity|].
  destruct (Board.get_block b p) as [target|]; [|done].
  destruct (_ || _); [injection H as <- <- <-; reflexivity|].
  destruct (Worker.position w) as [cur|].
  - destruct (Board.get_block b cur) as [current|]; [|done].
    injection H as <- <- <-.
    etrans; apply shape_set_block.
  - injection H as <- <- <-. apply shape_set_block.
Qed.

Lemma Move_execute_shape m w b r m' w' b' :
  Move.execute m w b = Ok (r, m', w', b') → Board_shape_kept b b'.
Proof.
  unfold Move.execute, Board_place_worker. intros H.
  destruct (negb _); [injection H as <- <- <- <-; reflexivity|].
  destruct (negb _); [injection H as <- <- <- <-; reflexivity|].
  destruct (Worker_move_to w (Move.to_pos m) b) as [[[ok w1] b1]|] eqn:Hm; [|done].
  apply Worker_move_to_shape in Hm.
  destruct ok; [|by injection H as <- <- <- <-].
  destruct (Board.get_block b1 _); [|done].
  destruct (bool_decide _); by injection H as <- <- <- <-.
Qed.

Lemma Build_execute_shape bd b r b' :
  Build.execute bd b = Ok (r, b') → Board_shape_kept b b'.
Proof.
  unfold Build.execute. intros H.
  destruct (negb _); [injection H as <- <-; reflexivity|].
  destruct (negb _); [injection H as <- <-; reflexivity|].
  destruct (Board.get_block b _) as [tile|]; [|done].
  destruct (Tile.build tile) as [[ok t']|]; [|done].
  injection H as <- <-. apply shape_set_block.
Qed.

Lemma shape_place_worker r p : preserves board_shape_kept (place_worker r p).
Proof.
  intros s. unfold place_worker, bind, worker_of, get, lift, Board_place_worker.
  destruct (find_worker s r) as [w|]; simpl; [|reflexivity].
  destruct (Worker_move_to w p (board s)) as [[[ok w'] b']|] eqn:H; simpl;
    [|reflexivity].
  unfold board_shape_kept. rewrite board_store_worker. simpl.
  by eapply Worker_move_to_shape.
Qed.

Lemma shape_execute_move m : preserves board_shape_kept (execute_move m).
Proof.
  intros s. unfold execute_move, bind, worker_of, get, lift.
  destruct (find_worker s _) as [w|]; simpl; [|reflexivity].
  destruct (Move.execute m w (board s)) as [[[[ok m'] w'] b']|] eqn:H; simpl;
    [|reflexivity].
  unfold board_shape_kept. rewrite board_store_worker. simpl.
  by eapply Move_execute_shape.
Qed.

Lemma shape_execute_build b : preserves board_shape_kept (execute_build b).
Proof.
  intros s. unfold execute_build, bind, get, lift.
  destruct (Build.execute b (board s)) as [[ok b']|] eqn:H; simpl; [|reflexivity].
  unfold board_shape_kept. simpl. by eapply Build_execute_shape.
Qed.

Lemma shape_build_under_worker p :
  preserves board_shape_kept (build_under_worker p).
Proof.
  intros s. unfold build_under_worker, bind, get.
  destruct (Board.get_block (board s) p) as [tile|]; simpl; [|reflexivity].
  destruct (_ && _); simpl; [|reflexivity].
  destruct (Tile.build _) as [[ok t']|]; simpl; unfold board_shape_kept; simpl.
  - etrans; apply shape_set_block.
  - apply shape_set_block.
Qed.

Lemma shape_perform c : preserves board_shape_kept (perform c).
Proof.
  apply frame_perform; try exact _;
    try (intros; unfold board_shape_kept; simpl; reflexivity).
  - apply hint_provide_hint; try exact _;
      intros; unfold board_shape_kept; simpl; reflexivity.
  - apply shape_place_worker.
  - apply shape_execute_move.
  - apply shape_execute_build.
  - apply shape_build_under_worker.
  - apply turn_next_turn; try exact _;
      intros; unfold board_shape_kept; simpl; reflexivity.
Qed.

End ShapeFacts.

(** In every state a session can reach the board is the 5 x 5 grid it was
    created as: the grid has five rows of five tiles, so a tile lookup
    succeeds exactly at the positions with both coordinates in 0..4. *)
Theorem reachable_board_shape (s : Game.t) :
  reachable s →
  Board.size (Game.board s) = 5 ∧ Board_wf (Game.board s) ∧
  ∀ row col,
    is_Some (Board.get_block (Game.board s) (row, col)) ↔
    0 <= row < 5 ∧ 0 <= col < 5.
Proof.
  intros Hr.
  assert (Board.size (Game.board s) = 5 ∧ Board_wf (Game.board s)) as [Hs Hwf].
  { induction Hr as [gui|c s Hr [IHs IHwf]].
    - split; [reflexivity|apply BoardFacts.wf_init].
    - destruct (ShapeFacts.shape_perform c s) as [H1 H2].
      split; [congruence|auto]. }
  split_and!; [done..|]. intros row col.
  rewrite <- Hs. rewrite <- BoardFacts.valid_iff. split.
  - intros [t Ht]. by eapply BoardFacts.get_block_Some_valid.
  - intros Hv. destruct (BoardFacts.get_block_valid _ _ Hwf Hv) as [t Ht]. eauto.
Qed.

Lemma reachable_board_shape_witness :
  reachable game_second_move ∧
  Board.size (Game.board game_second_move) = 5.
Proof.
  assert (reachable game_second_move) as H.
  { apply reachable_run_calls, reachable_init. }
  split; [exact H|]. exact (proj1 (reachable_board_shape _ H)).
Defined.

(** ** The winner *)

Module WinnerFacts.

Import Game GameFacts.

#[global] Instance winner_kept_preorder : PreOrder winner_kept.
Proof.
  split.
  - intros s i H. exact H.
  - intros s1 s2 s3 H1 H2 i H. apply H2, H1, H.
Qed.

Ltac winner_frame :=
  repeat first
    [ preserve_step
    | apply preserves_modify; intros ?; cbv beta;
      solve [intros ? Hw; exact Hw] ].

Lemma winner_kept_store_worker w s : winner_kept s (store_worker w s).
Proof. unfold store_worker. intros i Hw. by destruct (players s !! _). Qed.

Lemma winner_kept_check_game_over : preserves winner_kept check_game_over.
Proof.
  intros s i Hw. unfold check_game_over. rewrite bind_get.
  rewrite (bool_decide_eq_true_2 (winner s ≠ None)) by congruence.
  by rewrite orb_true_r.
Qed.

Lemma winner_kept_next_turn : preserves winner_kept next_turn.
Proof.
  unfold next_turn, stop_timer, start_timer.
  pose proof winner_kept_check_game_over. winner_frame.
Qed.

Lemma winner_kept_setup n g c shuffled :
  preserves winner_kept (add_player n g c) ∧
  preserves winner_kept (start_game shuffled) ∧
  preserves winner_kept activate_god_power ∧
  preserves winner_kept provide_hint.
Proof.
  assert (∀ r p, preserves winner_kept (place_worker r p)) as Hpw.
  { intros r p. unfold place_worker. winner_frame.
    apply preserves_modify. intros ?. apply winner_kept_store_worker. }
  split_and!.
  - apply frame_add_player. all: try exact _.
    all: unfold winner_kept; intros; simpl; assumption.
  - apply frame_start_game. all: try exact _. all: try exact Hpw.
    all: unfold winner_kept; intros; simpl; assumption.
  - apply frame_activate_god_power. all: try exact _.
    all: unfold winner_kept; intros; simpl; assumption.
  - apply hint_provide_hint. all: try exact _.
    all: unfold winner_kept; intros; simpl; assumption.
Qed.

Lemma winner_kept_perform c : preserves winner_kept (perform c).
Proof.
  destruct (winner_kept_setup "" None "" []) as (_ & _ & Hact & Hhint).
  destruct c; simpl.
  - pose proof (proj1 (winner_kept_setup name god_card color [])).
    winner_frame.
  - apply (winner_kept_setup "" None "" shuffled).
  - intros s i Hw. rewrite handle_tile_click_winner by congruence. exact Hw.
  - unfold skip_second_action. pose proof winner_kept_next_turn. winner_frame.
  - winner_frame.
  - winner_frame.
  - intros s i Hw. unfold handle_timeout. rewrite bind_get.
    rewrite bool_decide_eq_false_2 by congruence. exact Hw.
  - intros s i Hw. unfold timer_expired, Timer_tick_expired. rewrite bind_modify, bind_get.
    cbn [gui set_timer]. destruct (gui s); [|exact Hw].
    unfold Timer_handle_timeout. rewrite bind_get.
    rewrite bool_decide_eq_false_2 by (simpl; congruence). exact Hw.
  - unfold SantoriniGUI.activate_god_power. winner_frame.
  - unfold SantoriniGUI.show_hint. winner_frame.
Qed.

End WinnerFacts.

(** Once a winner is set, no call changes it: whatever is clicked, skipped,
    activated or asked for afterwards, and whichever clock runs out, the
    winner stays the player it was. *)
Theorem winner_is_final (cs : list Call) (s : Game.t) (i : nat) :
  Game.winner s = Some i → Game.winner (run_calls cs s) = Some i.
Proof.
  revert s. induction cs as [|c cs IH]; intros s Hw; [exact Hw|].
  simpl. apply IH. by apply WinnerFacts.winner_kept_perform.
Qed.

Lemma winner_is_final_witness :
  Game.winner game_timed_out = Some 1%nat ∧
  Game.winner
    (run_calls [CTileClick 2 2; CSkipSecondAction; CHandleTimeout; CTimerExpired]
       game_timed_out) = Some 1%nat.
Proof.
  assert (Game.winner game_timed_out = Some 1%nat) as H by (vm_compute; reflexivity).
  split; [exact H|]. exact (winner_is_final _ _ _ H).
Defined.

(** ** Workers and tiles *)

Module ConsistencyFacts.

Import Game BoardFacts GameFacts WorkerFacts.

#[global] Instance consistent_kept_preorder : PreOrder consistent_kept.
Proof.
  split.
  - intros s H. exact H.
  - intros s1 s2 s3 H1 H2 H. apply H2, H1, H.
Qed.

Lemma same_workers_set_block b p t0 t :
  Board.get_block b p = Some t0 → Tile.worker t = Tile.worker t0 →
  Board_same_workers b (Board.set_block b p t).
Proof.
  intros Hp Hw q. destruct (decide (p = q)) as [<-|Hne].
  - rewrite (get_block_set_block_eq _ _ t0), Hp by done. simpl. by f_equal.
  - by rewrite get_block_set_block_ne.
Qed.

(** A board that differs only in the levels of its tiles is as good as the
    old one. *)
Lemma consistent_set_board s b' :
  workers_consistent s → Board_wf b' → Board_same_workers (board s) b' →
  workers_consistent (set_board b' s).
Proof.
  intros (Hwf & Href & Hon & Hhold) Hwf' Hsame. split_and!.
  - exact Hwf'.
  - exact Href.
  - intros r w pos Hf Hpos. cbn [board set_board].
    destruct (Hon r w pos Hf Hpos) as (t & Ht & Hr).
    specialize (Hsame pos). rewrite Ht in Hsame.
    destruct (Board.get_block b' pos) as [t'|]; [|done].
    exists t'. split; [done|]. simpl in Hsame. congruence.
  - intros pos t' r Ht' Hr. cbn [board set_board] in Ht'.
    specialize (Hsame pos). rewrite Ht' in Hsame.
    destruct (Board.get_block (board s) pos) as [t|] eqn:Ht; [|done].
    apply (Hhold pos t r Ht). simpl in Hsame. congruence.
Qed.

Lemma Tile_build_worker t r t' :
  Tile.build t = Ok (r, t') → Tile.worker t' = Tile.worker t.
Proof.
  destruct (HeightFacts.Tile_build_cases t) as [[Hb _]|(t1 & Hb & H1 & H2 & _)];
    rewrite Hb; intros [= <- <-]; congruence.
Qed.

Lemma Build_execute_same_workers bd b r b' :
  Build.execute bd b = Ok (r, b') → Board_same_workers b b'.
Proof.
  unfold Build.execute. intros H.
  destruct (negb _); [by injection H as <- <-|].
  destruct (negb _); [by injection H as <- <-|].
  destruct (Board.get_block b _) as [tile|] eqn:Hp; [|done].
  destruct (Tile.build tile) as [[ok t']|] eqn:Hb; [|done].
  injection H as <- <-.
  eapply same_workers_set_block; [done|]. by eapply Tile_build_worker.
Qed.

(** Every tile after a successful [Worker.move_to]. *)
Lemma Worker_move_to_tiles w pos b w' b' :
  Worker_move_to w pos b = Ok (true, w', b') →
  ∀ q t, Board.get_block b q = Some t →
         Board.get_block b' q = Some (tile_after_move w pos q t).
Proof.
  unfold Worker_move_to. intros H.
  destruct (negb _); [done|].
  destruct (Board.get_block b pos) as [target|] eqn:Ht; [|done].
  destruct (_ || _); [done|].
  destruct (Worker.position w) as [cur|] eqn:Hpos.
  - destruct (Board.get_block b cur) as [current|] eqn:Hc; [|done].
    injection H as <- <-. intros q t Hq. unfold tile_after_move. rewrite Hpos.
    destruct (decide (q = pos)) as [->|Hqp].
    + rewrite Ht in Hq. injection Hq as <-.
      destruct (decide (cur = pos)) as [->|Hne].
      * eapply get_block_set_block_eq. by eapply get_block_set_block_eq.
      * eapply get_block_set_block_eq. by rewrite get_block_set_block_ne.
    + rewrite get_block_set_block_ne by done.
      destruct (decide (Some cur = Some q)) as [[= ->]|Hne].
      * rewrite Hc in Hq. injection Hq as <-. by eapply get_block_set_block_eq.
      * rewrite get_block_set_block_ne by congruence. done.
  - injection H as <- <-. intros q t Hq. unfold tile_after_move. rewrite Hpos.
    destruct (decide (q = pos)) as [->|Hqp].
    + rewrite Ht in Hq. injection Hq as <-. by eapply get_block_set_block_eq.
    + rewrite get_block_set_block_ne by done. by destruct (decide (None = Some q)).
Qed.

(** A worker of the game moves: the tiles and the workers still agree. *)
Lemma consistent_move s r w pos ok w' b' :
  workers_consistent s → find_worker s r = Some w →
  Worker_move_to w pos (board s) = Ok (ok, w', b') →
  workers_consistent (store_worker w' (set_board b' s)).
Proof.
  intros Hc Hf Hm. pose proof Hc as (Hwf & Href & Hon & Hhold).
  pose proof (Href r w Hf) as Hr.
  destruct ok.
  2:{ apply Worker_move_to_false in Hm as [-> ->].
      rewrite store_worker_same.
      - by destruct s.
      - by rewrite find_worker_set_board, Hr. }
  pose proof (ShapeFacts.Worker_move_to_shape _ _ _ _ _ _ Hm) as [_ Hwf'].
  pose proof (HeightFacts.Worker_move_to_same_levels _ _ _ _ _ _ Hm) as [_ Hlev].
  pose proof (Worker_move_to_tiles _ _ _ _ _ Hm) as Htiles.
  apply Worker_move_to_true in Hm as (-> & target & Ht & Hfree & _ & Ht').
  assert (Worker.ref (moved w pos) = r) as Hr' by exact Hr.
  assert (∀ r', find_worker (store_worker (moved w pos) (set_board b' s)) r'
                = if decide (r' = r) then Some (moved w pos) else find_worker s r')
    as Hfind.
  { intros r'. destruct (decide (r' = r)) as [->|Hne].
    - rewrite <- Hr'. eapply find_worker_store_eq.
      by rewrite find_worker_set_board, Hr'.
    - rewrite find_worker_store_ne by congruence. apply find_worker_set_board. }
  split_and!.
  - rewrite board_store_worker. by apply Hwf'.
  - intros r' w1. rewrite Hfind. destruct (decide (r' = r)) as [->|Hne].
    + by intros [= <-].
    + apply Href.
  - intros r' w1 pos1. rewrite Hfind, board_store_worker. cbn [board set_board].
    destruct (decide (r' = r)) as [->|Hne].
    + intros [= <-] [= <-]. rewrite Ht', Hr. by eexists.
    + intros Hf1 Hpos1. destruct (Hon r' w1 pos1 Hf1 Hpos1) as (t1 & Ht1 & Hw1).
      rewrite (Htiles _ _ Ht1). unfold tile_after_move.
      destruct (decide (pos1 = pos)) as [->|Hpp]; [congruence|].
      destruct (decide (Worker.position w = Some pos1)) as [Hwp|Hwp].
      * destruct (Hon r w pos1 Hf Hwp) as (t2 & Ht2 & Hw2). congruence.
      * by exists t1.
  - intros pos1 t1 r'. rewrite board_store_worker. cbn [board set_board].
    intros Ht1 Hw1. specialize (Hlev pos1). rewrite Ht1 in Hlev.
    destruct (Board.get_block (board s) pos1) as [t0|] eqn:Ht0; [|done].
    rewrite (Htiles _ _ Ht0) in Ht1. injection Ht1 as <-.
    rewrite Hfind. unfold tile_after_move in Hw1.
    destruct (decide (pos1 = pos)) as [->|Hpp].
    + simpl in Hw1. injection Hw1 as <-. rewrite Hr, decide_True by done.
      by eexists.
    + destruct (decide (Worker.position w = Some pos1)) as [Hwp|Hwp]; [done|].
      destruct (Hhold pos1 t0 r' Ht0 Hw1) as (w0 & Hf0 & Hp0).
      destruct (decide (r' = r)) as [->|Hne]; [congruence|]. by exists w0.
Qed.

Lemma consistent_place_worker r p : preserves consistent_kept (place_worker r p).
Proof.
  intros s Hc. unfold place_worker, bind, worker_of, get, lift, Board_place_worker.
  destruct (find_worker s r) as [w|] eqn:Hf; simpl; [|exact Hc].
  destruct (Worker_move_to w p (board s)) as [[[ok w'] b']|] eqn:H; simpl;
    [|exact Hc].
  by eapply consistent_move.
Qed.

Lemma Move_execute_cases m w b r m' w' b' :
  Move.execute m w b = Ok (r, m', w', b') →
  (r = false ∧ w' = w ∧ b' = b) ∨
  Worker_move_to w (Move.to_pos m) b = Ok (r, w', b').
Proof.
  unfold Move.execute, Board_place_worker. intros H.
  destruct (negb _); [left; by injection H as <- <- <- <-|].
  destruct (negb _); [left; by injection H as <- <- <- <-|].
  destruct (Worker_move_to w (Move.to_pos m) b) as [[[ok w1] b1]|] eqn:Hm; [|done].
  right. destruct ok; [|by injection H as <- <- <- <-].
  destruct (Board.get_block b1 _); [|done].
  destruct (bool_decide _); by injection H as <- <- <- <-.
Qed.

Lemma consistent_execute_move m : preserves consistent_kept (execute_move m).
Proof.
  intros s Hc. unfold execute_move, bind, worker_of, get, lift.
  destruct (find_worker s _) as [w|] eqn:Hf; simpl; [|exact Hc].
  destruct (Move.execute m w (board s)) as [[[[ok m'] w'] b']|] eqn:H; simpl;
    [|exact Hc].
  apply Move_execute_cases in H as [(-> & -> & ->)|H].
  - rewrite store_worker_same.
    + by destruct s.
    + rewrite find_worker_set_board.
      destruct Hc as (_ & Href & _). by rewrite (Href _ _ Hf).
  - by eapply consistent_move.
Qed.

Lemma consistent_execute_build b : preserves consistent_kept (execute_build b).
Proof.
  intros s Hc. unfold execute_build, bind, get, lift.
  destruct (Build.execute b (board s)) as [[ok b']|] eqn:H; simpl; [|exact Hc].
  apply consistent_set_board; [done| |by eapply Build_execute_same_workers].
  destruct (ShapeFacts.Build_execute_shape _ _ _ _ H) as [_ Hwf].
  apply Hwf, Hc.
Qed.

Lemma consistent_build_under_worker p :
  preserves consistent_kept (build_under_worker p).
Proof.
  intros s Hc. unfold build_under_worker, bind, get.
  destruct (Board.get_block (board s) p) as [tile|] eqn:Hp; simpl; [|exact Hc].
  destruct (_ && _); simpl; [|exact Hc].
  set (lifted := {| Tile.level := Tile.level tile; Tile.worker := None |}).
  pose proof (get_block_set_block_eq _ _ _ lifted Hp) as Hp1.
  destruct (HeightFacts.Tile_build_cases lifted)
    as [[Hb _]|(t' & Hb & _ & _ & _)]; rewrite Hb; simpl.
  all: apply (consistent_set_board s); [done| |].
  all: try (do 2 apply wf_set_block; apply Hc).
  all: intros q; destruct (decide (p = q)) as [<-|Hne];
    [ rewrite (get_block_set_block_eq _ _ lifted), Hp by done; reflexivity
    | by rewrite !get_block_set_block_ne by done ].
Qed.

Lemma consistent_add_player n g c : preserves consistent_kept (add_player n g c).
Proof.
  intros s Hc. unfold add_player. rewrite bind_get.
  destruct (Player.init _ n g c) as [player|] eqn:Hinit; simpl; [|exact Hc].
  destruct Hc as (Hwf & Href & Hon & Hhold).
  assert (∀ r w, find_worker s r = Some w →
            find_worker (set_players (players s ++ [player]) s) r = Some w) as Hold.
  { intros [i j] w. unfold find_worker. simpl.
    destruct (players s !! i) as [pl|] eqn:Hi; [|done].
    by rewrite (lookup_app_l_Some _ _ _ _ Hi). }
  assert (∀ r w, find_worker (set_players (players s ++ [player]) s) r = Some w →
            find_worker s r = Some w ∨
            (Worker.ref w = r ∧ Worker.position w = None)) as Hnew.
  { intros [i j] w. unfold find_worker. simpl.
    destruct (decide (i < length (players s))%nat) as [Hlt|Hge].
    - rewrite lookup_app_l by done. by left.
    - rewrite lookup_app_r by lia. intros H. right.
      destruct (i - length (players s))%nat as [|k] eqn:Hk; [|done].
      assert (i = length (players s)) as -> by lia.
      unfold Player.init in Hinit. destruct n as [|ch n']; [done|].
      injection Hinit as <-. simpl in H.
      destruct j as [|[|j]]; simpl in H; [| |done]; by injection H as <-. }
  split_and!.
  - exact Hwf.
  - intros r w Hf. destruct (Hnew r w Hf) as [H|[H _]]; [by apply Href|done].
  - intros r w pos Hf Hpos. destruct (Hnew r w Hf) as [H|[_ H]]; [|congruence].
    by apply (Hon r w pos).
  - intros pos t r Ht Hw. destruct (Hhold pos t r Ht Hw) as (w & Hf & Hp).
    exists w. split; [by apply Hold|done].
Qed.

Lemma consistent_perform c : preserves consistent_kept (perform c).
Proof.
  apply frame_perform_players; try exact _.
  all: try (intros v s H; exact H).
  - intros s H. exact H.
  - apply consistent_add_player.
  - apply consistent_place_worker.
  - apply consistent_execute_move.
  - apply consistent_execute_build.
  - apply consistent_build_under_worker.
Qed.

Lemma consistent_init gui : workers_consistent (init gui).
Proof.
  split_and!.
  - apply wf_init.
  - intros [i j] w. unfold find_worker. by simpl.
  - intros [i j] w pos. unfold find_worker. by simpl.
  - intros pos t r Ht Hw. exfalso.
    change (board (init gui)) with (Board.init 5) in Ht.
    pose proof (get_block_Some_valid _ _ _ Ht) as Hv.
    rewrite (PlacementFacts.get_block_init _ _ Hv) in Ht.
    injection Ht as <-. done.
Qed.

Lemma reachable_consistent s : reachable s → workers_consistent s.
Proof.
  induction 1 as [gui|c s Hr IH]; [apply consistent_init|].
  by apply consistent_perform.
Qed.

End ConsistencyFacts.

(** In every state a session can reach, the workers and the board tell the
    same story: every worker object carries the reference it is found under,
    a placed worker is on the tile its [position] names, and a tile that
    holds a worker holds one whose [position] is that tile.  So no two
    workers stand on the same tile and no worker is on two tiles. *)
Theorem reachable_workers_consistent (s : Game.t) :
  reachable s →
  workers_consistent s ∧
  (∀ r1 r2 w1 w2 pos,
     Game.find_worker s r1 = Some w1 → Game.find_worker s r2 = Some w2 →
     Worker.position w1 = Some pos → Worker.position w2 = Some pos → r1 = r2) ∧
  (∀ p q t u r,
     Board.get_block (Game.board s) p = Some t →
     Board.get_block (Game.board s) q = Some u →
     Tile.worker t = Some r → Tile.worker u = Some r → p = q).
Proof.
  intros Hr.
  pose proof (ConsistencyFacts.reachable_consistent s Hr) as Hc.
  split; [exact Hc|]. destruct Hc as (_ & _ & Hon & Hhold). split.
  - intros r1 r2 w1 w2 pos Hf1 Hf2 Hp1 Hp2.
    destruct (Hon _ _ _ Hf1 Hp1) as (t1 & Ht1 & Hw1).
    destruct (Hon _ _ _ Hf2 Hp2) as (t2 & Ht2 & Hw2). congruence.
  - intros p q t u r Hp Hq Ht Hu.
    destruct (Hhold _ _ _ Hp Ht) as (w1 & Hf1 & Hp1).
    destruct (Hhold _ _ _ Hq Hu) as (w2 & Hf2 & Hp2). congruence.
Qed.

Lemma reachable_workers_consistent_witness :
  reachable game_second_move ∧ workers_consistent game_second_move.
Proof.
  assert (reachable game_second_move) as H
    by apply reachable_run_calls, reachable_init.
  split; [exact H|]. exact (proj1 (reachable_workers_consistent _ H)).
Defined.

(** ** The phases a game goes through *)

Module PhaseFacts.

Import Game GameFacts.

#[global] Instance place_kept_out_preorder : PreOrder place_kept_out.
Proof.
  split.
  - intros s H. exact H.
  - intros s1 s2 s3 H1 H2 H. apply H2, H1, H.
Qed.

(** Every assignment to [phase] in the program assigns one of the strings
    ["select"], ["move"], ["build"], ["second_move"], ["second_build"]. *)
Ltac phase_frame :=
  repeat first
    [ preserve_step
    | apply preserves_modify; intros ?; cbv beta;
      solve [ let Hp := fresh in intros Hp; simpl; first [exact Hp | discriminate] ] ].

Lemma out_store_worker w s : place_kept_out s (store_worker w s).
Proof. intros H. by rewrite SecondMoveFacts.phase_store_worker. Qed.

Ltac phase_board :=
  repeat first
    [ preserve_step
    | apply preserves_modify; intros ?; cbv beta;
      solve [ apply out_store_worker
            | let Hp := fresh in intros Hp; simpl; exact Hp ] ].

Lemma out_place_worker r p : preserves place_kept_out (place_worker r p).
Proof. unfold place_worker. phase_board. Qed.

Lemma out_execute_move m : preserves place_kept_out (execute_move m).
Proof. unfold execute_move. phase_board. Qed.

Lemma out_execute_build b : preserves place_kept_out (execute_build b).
Proof. unfold execute_build. phase_board. Qed.

Lemma out_build_under_worker p : preserves place_kept_out (build_under_worker p).
Proof. unfold build_under_worker. phase_board. Qed.

Lemma out_gui_show_game_over : preserves place_kept_out gui_show_game_over.
Proof. unfold gui_show_game_over, stop_timer. phase_frame. Qed.

Lemma out_check_game_over : preserves place_kept_out check_game_over.
Proof. unfold check_game_over. pose proof out_gui_show_game_over. phase_frame. Qed.

Lemma out_next_turn : preserves place_kept_out next_turn.
Proof.
  unfold next_turn, stop_timer, start_timer. pose proof out_check_game_over.
  phase_frame.
Qed.

Lemma out_place_workers refs avail :
  preserves place_kept_out (place_workers refs avail).
Proof.
  pose proof out_place_worker.
  revert avail. induction refs as [|r refs IH]; intros avail;
    cbn [place_workers]; phase_frame.
Qed.

Lemma out_start_game shuffled : preserves place_kept_out (start_game shuffled).
Proof.
  unfold start_game, randomly_place_workers, initialize_timers, start_timer.
  pose proof out_place_workers. phase_frame.
Qed.

Lemma out_select position : preserves place_kept_out (_handle_select_phase position).
Proof. unfold _handle_select_phase. phase_frame. Qed.

Lemma out_place position : preserves place_kept_out (_handle_place_phase position).
Proof.
  unfold _handle_place_phase.
  pose proof out_place_worker. pose proof out_next_turn. phase_frame.
Qed.

Lemma out_offer_second_move w pp p :
  preserves place_kept_out (offer_second_move w pp p).
Proof. unfold offer_second_move. phase_frame. Qed.

Lemma out_move position : preserves place_kept_out (_handle_move_phase position).
Proof.
  unfold _handle_move_phase.
  pose proof out_gui_show_game_over. pose proof out_offer_second_move.
  pose proof out_execute_move. phase_frame.
Qed.

Lemma out_build position : preserves place_kept_out (_handle_build_phase position).
Proof.
  unfold _handle_build_phase.
  pose proof out_build_under_worker. pose proof out_execute_build.
  pose proof out_next_turn. phase_frame.
Qed.

Lemma out_second_move position :
  preserves place_kept_out (_handle_second_move_phase position).
Proof.
  unfold _handle_second_move_phase.
  pose proof out_gui_show_game_over. pose proof out_execute_move. phase_frame.
Qed.

Lemma out_second_build position :
  preserves place_kept_out (_handle_second_build_phase position).
Proof.
  unfold _handle_second_build_phase.
  pose proof out_execute_build. pose proof out_next_turn. phase_frame.
Qed.

Lemma out_handle_tile_click row col :
  preserves place_kept_out (handle_tile_click row col).
Proof.
  unfold handle_tile_click.
  pose proof out_select. pose proof out_place. pose proof out_move.
  pose proof out_build. pose proof out_second_move.
  pose proof out_second_build. phase_frame.
Qed.

Lemma out_skip_second_action : preserves place_kept_out skip_second_action.
Proof. unfold skip_second_action. pose proof out_next_turn. phase_frame. Qed.

Lemma out_provide_hint : preserves place_kept_out provide_hint.
Proof. apply hint_provide_hint; [exact _|]. intros v s H. exact H. Qed.

Lemma out_activate_god_power : preserves place_kept_out activate_god_power.
Proof. unfold activate_god_power. phase_frame. Qed.

Lemma out_perform c : preserves place_kept_out (perform c).
Proof.
  pose proof out_provide_hint. pose proof out_activate_god_power.
  destruct c; simpl.
  - unfold add_player. phase_frame.
  - apply out_start_game.
  - apply out_handle_tile_click.
  - apply out_skip_second_action.
  - phase_frame.
  - phase_frame.
  - unfold handle_timeout. pose proof out_gui_show_game_over. phase_frame.
  - unfold timer_expired, Timer_tick_expired, Timer_handle_timeout.
    pose proof out_gui_show_game_over. phase_frame.
  - unfold SantoriniGUI.activate_god_power. phase_frame.
  - unfold SantoriniGUI.show_hint. phase_frame.
Qed.

End PhaseFacts.

(** No session ever enters the phase ["place"]: a game starts in ["setup"],
    [start_game] places the workers at random and goes to ["select"], and no
    statement assigns ["place"].  So [handle_tile_click] never reaches
    [_handle_place_phase], the handler for placing workers by hand. *)
Theorem place_phase_never_entered (s : Game.t) :
  reachable s → Game.phase s ≠ Game.ph_place.
Proof.
  induction 1 as [gui|c s Hr IH]; [done|].
  by apply PhaseFacts.out_perform.
Qed.

Lemma place_phase_never_entered_witness :
  reachable game_second_move ∧ Game.phase game_second_move ≠ Game.ph_place.
Proof.
  assert (reachable game_second_move) as H
    by apply reachable_run_calls, reachable_init.
  split; [exact H|]. exact (place_phase_never_entered _ H).
Defined.

(** ** The end of a turn *)

Module TurnFacts.

Import Game GameFacts.

Lemma can_move_stuck s p :
  existsb (fun worker =>
    match Worker.position worker with
    | Some pos =>
      bool_decide
        (Board.get_valid_moves (board s) pos (athena_activated s) ≠ [])
    | None => false
    end) (Player.workers p) = false ↔ stuck s p.
Proof.
  unfold stuck. rewrite <- not_true_iff_false, existsb_exists. split.
  - intros Hno w pos Hw Hpos.
    destruct (decide (Board.get_valid_moves (board s) pos (athena_activated s) = []))
      as [|Hne]; [done|].
    exfalso. apply Hno. exists w. split; [by apply list_elem_of_In|].
    rewrite Hpos. by apply bool_decide_eq_true.
  - intros Hst (w & Hw & Hb). apply list_elem_of_In in Hw.
    destruct (Worker.position w) as [pos|] eqn:Hpos; [|done].
    apply bool_decide_eq_true in Hb. by apply Hb, (Hst w).
Qed.


#[global] Instance stuck_dec s p : Decision (stuck s p).
Proof.
  refine (cast_if (decide (existsb (fun worker =>
    match Worker.position worker with
    | Some pos =>
      bool_decide
        (Board.get_valid_moves (board s) pos (athena_activated s) ≠ [])
    | None => false
    end) (Player.workers p) = false))); by rewrite <- can_move_stuck.
Defined.


End TurnFacts.

(** ** A click in each phase *)

(** In phase ["select"] a click selects the worker on the clicked tile and
    goes to phase ["move"] exactly when the tile holds a worker of the player
    whose turn it is and that worker has a tile to move to; any other click
    (off the board, on an empty tile, on an opponent's worker, on a worker
    that cannot move) returns and changes nothing. *)
Theorem select_click_spec (s : Game.t) (row col : Z) :
  workers_consistent s → Game.winner s = None →
  Game.phase s = Game.ph_select →
  is_Some (Game.players s !! Game.current_player_index s) →
  (∀ r, selectable s (row, col) r →
     Game.handle_tile_click row col s
     = Game.Done tt (Game.set_phase Game.ph_move
                       (Game.set_selected_worker (Some r) s))) ∧
  ((∀ r, ¬ selectable s (row, col) r) →
     Game.handle_tile_click row col s = Game.Done tt s).
Proof.
  intros (_ & Href & _ & Hhold) Hw Hph [p Hp].
  rewrite handle_tile_click_phase by exact Hw. rewrite Hph.
  unfold Game._handle_select_phase, Game.bind, Game.get_current_player,
    Game.get, Game.worker_of, Game.modify, Game.ret.
  rewrite Hp. split.
  - intros r (t & Ht & Hr & Hmine & Hmoves). rewrite Ht, Hr.
    destruct (Hhold _ _ _ Ht Hr) as (w & Hf & _). rewrite Hf.
    unfold Worker.player. rewrite (Href _ _ Hf).
    rewrite bool_decide_eq_false_2 by (intros H; by apply H).
    by rewrite bool_decide_eq_true_2.
  - intros Hno.
    destruct (Board.get_block (Game.board s) (row, col)) as [t|] eqn:Ht; [|done].
    destruct (Tile.worker t) as [r|] eqn:Hr; [|done].
    destruct (Hhold _ _ _ Ht Hr) as (w & Hf & _). rewrite Hf.
    unfold Worker.player. rewrite (Href _ _ Hf).
    destruct (decide (r.1 = Game.current_player_index s)) as [Hmine|Hother].
    + rewrite bool_decide_eq_false_2 by (intros H; by apply H).
      rewrite bool_decide_eq_false_2; [done|].
      intros Hmoves. apply (Hno r). by exists t.
    + by rewrite bool_decide_eq_true_2.
Qed.

Lemma select_click_spec_witness :
  Game.phase
    (Game.state_of
       (Game.handle_tile_click 4 4
          (run_calls
             (session "Player 1" "Player 2" GodCard.Artemis GodCard.Zeus shuffle_id)
             (Game.init true)))) = Game.ph_move.
Proof.
  set (s := run_calls _ _).
  assert (reachable s) as Hr by apply reachable_run_calls, reachable_init.
  destruct (select_click_spec s 4 4) as [Hsel _].
  - by apply ConsistencyFacts.reachable_consistent.
  - vm_compute. reflexivity.
  - vm_compute. reflexivity.
  - vm_compute. eexists. reflexivity.
  - rewrite (Hsel (0%nat, 0%nat)); [reflexivity|].
    eexists. split_and!; [vm_compute; reflexivity|reflexivity|reflexivity|].
    vm_compute. discriminate.
Defined.

Module ClickFacts.

Import Game GameFacts WorkerFacts.

Lemma valid_moves_flag b p a flag :
  a ∈ Board.get_valid_moves b p flag → a ∈ Board.get_valid_moves b p false.
Proof.
  rewrite !BoardLaws.elem_of_get_valid_moves.
  intros (tp & ta & H1 & H2 & H3 & H4 & H5 & H6 & _).
  exists tp, ta. split_and!; try done. by intros [_ ?].
Qed.

Lemma level_value_3 t :
  bool_decide (Tile.level_value t = 3) = bool_decide (Tile.level t = Level.LEVEL3).
Proof.
  apply bool_decide_ext. unfold Tile.level_value.
  destruct (Tile.level t); simpl; split; (done || lia).
Qed.

(** [Move.execute] on a legal move. *)
Lemma Move_execute_valid m w b :
  Board_wf b → Worker.position w = Some (Move.from_pos m) →
  Move.to_pos m ∈ Board.get_valid_moves b (Move.from_pos m) false →
  ∃ t b', Board.get_block b (Move.to_pos m) = Some t ∧
    Worker_move_to w (Move.to_pos m) b = Ok (true, moved w (Move.to_pos m), b') ∧
    Move.execute m w b
    = Ok (true,
          if bool_decide (Tile.level t = Level.LEVEL3) then Move.set_winning m else m,
          moved w (Move.to_pos m), b').
Proof.
  intros Hwf Hpos Hin. pose proof Hin as Hin'.
  apply BoardLaws.elem_of_get_valid_moves in Hin'
    as (tp & ta & Hp & Ha & _ & Hfree & Hd & _).
  destruct (MoveFacts.Worker_move_to_succeeds w (Move.to_pos m) b ta Hwf)
    as (w' & b' & Hmove); try done.
  { intros cur Hcur. rewrite Hpos in Hcur. injection Hcur as <-.
    by eapply BoardFacts.get_block_Some_valid. }
  destruct (Worker_move_to_true _ _ _ _ _ Hmove)
    as (-> & ta' & Ha' & _ & _ & Hboard).
  rewrite Ha in Ha'. injection Ha' as <-.
  exists ta, b'. split_and!; try done.
  unfold Move.execute, Board_place_worker.
  rewrite (BoardFacts.get_block_Some_valid _ _ _ Ha). simpl.
  rewrite bool_decide_eq_true_2 by done. simpl.
  rewrite Hmove, Hboard.
  change (Tile.level_value (occupied ta (Worker.ref w)))
    with (Tile.level_value ta).
  change (Level.value Level.LEVEL3) with 3.
  rewrite level_value_3. by destruct (bool_decide _).
Qed.

End ClickFacts.

Module MoveClickFacts.

Import Game GameFacts WorkerFacts.

Lemma store_worker_fields w s :
  current_player_index (store_worker w s) = current_player_index s ∧
  winner (store_worker w s) = winner s ∧
  god_power_active (store_worker w s) = god_power_active s ∧
  athena_activated (store_worker w s) = athena_activated s ∧
  gui (store_worker w s) = gui s ∧
  second_action (store_worker w s) = second_action s ∧
  turn_count (store_worker w s) = turn_count s ∧
  hint_counts (store_worker w s) = hint_counts s ∧
  timer (store_worker w s) = timer s.
Proof. unfold store_worker. by destruct (players s !! _). Qed.

Lemma can_use_power_placed card w b p :
  is_Some (Worker.position w) → ∃ v, GodCard.can_use_power card w b p = Ok v.
Proof.
  intros [pos Hpos]. unfold GodCard.can_use_power. rewrite Hpos.
  destruct card; try by eexists. by destruct (Board.get_block b pos); eexists.
Qed.

(** For a placed worker of the game the offer of a second move does not
    raise. *)
Lemma offer_second_move_placed r pp p s w :
  find_worker s r = Some w → Worker.ref w = r → is_Some (Worker.position w) →
  offer_second_move r pp p s
  = Done true (set_second_action (Some (mkSecond a_move p))
                 (set_phase ph_second_move s)) ∨
  offer_second_move r pp p s = Done false s.
Proof.
  intros Hf Hr Hpos. rewrite SecondMoveFacts.offer_second_move_eq, Hf.
  unfold Worker.player. rewrite Hr.
  unfold find_worker in Hf.
  destruct (players s !! r.1) as [pl|]; [|done].
  destruct (Player.god_card pl) as [card|]; [|by right].
  destruct (_ && _); [|by right].
  destruct (can_use_power_placed card w (board s) p Hpos) as [v ->].
  destruct v; [|by right]. cbv zeta.
  destruct (bool_decide (_ ≠ [])); [by left|by right].
Qed.

End MoveClickFacts.

(** In phase ["move"], a click on a tile the selected worker cannot move to
    returns and changes nothing.  A click on a tile it can move to moves the
    worker there: the worker object and the two tiles are updated and nothing
    else on the board changes.  If the tile moved onto is at level 3 the
    worker's player is the winner; otherwise there is no winner and the game
    goes on to phase ["build"] or, with Artemis, to ["second_move"]. *)
Theorem move_click_spec (s : Game.t) (row col : Z) (r : WorkerRef)
  (w : Worker.t) (from : Position) :
  workers_consistent s → Game.winner s = None →
  Game.phase s = Game.ph_move → Game.selected_worker s = Some r →
  Game.find_worker s r = Some w → Worker.position w = Some from →
  ((row, col) ∉ Board.get_valid_moves (Game.board s) from (Game.athena_activated s) →
   Game.handle_tile_click row col s = Game.Done tt s) ∧
  ((row, col) ∈ Board.get_valid_moves (Game.board s) from (Game.athena_activated s) →
   ∃ t s',
     Board.get_block (Game.board s) (row, col) = Some t ∧
     Game.handle_tile_click row col s = Game.Done tt s' ∧
     Game.find_worker s' r = Some (moved w (row, col)) ∧
     (∀ q u, Board.get_block (Game.board s) q = Some u →
        Board.get_block (Game.board s') q
        = Some (tile_after_move w (row, col) q u)) ∧
     Game.current_player_index s' = Game.current_player_index s ∧
     Game.selected_worker s' = Some r ∧
     (Tile.level t = Level.LEVEL3 → Game.winner s' = Some (fst r)) ∧
     (Tile.level t ≠ Level.LEVEL3 →
      Game.winner s' = None ∧
      (Game.phase s' = Game.ph_build ∨
       Game.phase s' = Game.ph_second_move ∧
       Game.second_action s'
       = Some (Game.mkSecond Game.a_move (row, col))))).
Proof.
  intros Hc Hw Hph Hsel Hf Hpos.
  pose proof Hc as (Hwf & Href & Hon & Hhold).
  pose proof (Href _ _ Hf) as Hr.
  assert (Game.handle_tile_click row col s
          = if bool_decide ((row, col) ∈ Board.get_valid_moves (Game.board s) from
                              (Game.athena_activated s))
            then match Board.get_block (Game.board s) from with
                 | Some _ =>
                   Game.bind (Game.execute_move (Move.init r from (row, col)))
                     (fun r0 =>
                        let '(success, move) := r0 in
                        if success then
                          Game.bind (Game.modify (Game.set_last_move (Some move)))
                            (fun _ =>
                               if Move.is_win move then
                                 Game.bind
                                   (Game.modify
                                      (Game.set_winner (Some (Worker.player w))))
                                   (fun _ => Game.gui_show_game_over)
                               else
                                 Game.bind
                                   (Game.offer_second_move r from (row, col))
                                   (fun offered =>
                                      if offered then Game.ret tt
                                      else Game.modify (Game.set_phase Game.ph_build)))
                        else Game.ret tt) s
                 | None => Game.Fail AttributeError s
                 end
            else Game.Done tt s) as ->.
  { rewrite handle_tile_click_phase by exact Hw. rewrite Hph.
    unfold Game._handle_move_phase. rewrite GameFacts.bind_get, Hsel.
    unfold Game.bind at 1. unfold Game.worker_of at 1. rewrite Hf.
    cbv beta iota. rewrite Hpos.
    destruct (bool_decide _); [|done]. by destruct (Board.get_block _ from). }
  split.
  - intros Hout. by rewrite bool_decide_eq_false_2.
  - intros Hin. rewrite bool_decide_eq_true_2 by done.
    destruct (Hon _ _ _ Hf Hpos) as (tp & Htp & _). rewrite Htp.
    set (m := Move.init r from (row, col)).
    destruct (ClickFacts.Move_execute_valid m w (Game.board s) Hwf Hpos)
      as (t & b' & Ht & Hmove & Hexec).
    { by eapply ClickFacts.valid_moves_flag. }
    pose proof (ConsistencyFacts.Worker_move_to_tiles _ _ _ _ _ Hmove) as Htiles.
    exists t.
    unfold Game.bind at 1.
    rewrite (SecondMoveFacts.execute_move_eq m s w) by done.
    rewrite Hexec. cbv beta iota. rewrite GameFacts.bind_modify.
    change (Move.to_pos m) with (row, col) in *.
    set (s1 := Game.store_worker _ _).
    assert (Game.find_worker s1 r = Some (moved w (row, col))) as Hf1.
    { unfold s1. rewrite <- Hr.
      change (Worker.ref w) with (Worker.ref (moved w (row, col))).
      eapply WorkerFacts.find_worker_store_eq.
      rewrite WorkerFacts.find_worker_set_board. simpl. by rewrite Hr. }
    assert (Game.board s1 = b') as Hb1
      by (unfold s1; by rewrite GameFacts.board_store_worker).
    destruct (MoveClickFacts.store_worker_fields (moved w (row, col))
                (Game.set_board b' s)) as (Hi1 & Hw1 & _).
    fold s1 in Hi1, Hw1. cbn [Game.winner Game.set_board] in Hw1.
    rewrite Hw in Hw1.
    assert (Game.selected_worker s1 = Some r) as Hsel1
      by (unfold s1; by rewrite selected_worker_store_worker).
    destruct (bool_decide (Tile.level t = Level.LEVEL3)) eqn:H3.
    + apply bool_decide_eq_true in H3.
      change (Move.is_win (Move.set_winning m)) with true. cbv iota.
      rewrite GameFacts.bind_modify. unfold Game.gui_show_game_over.
      rewrite GameFacts.bind_get. unfold Game.stop_timer, Game.modify.
      assert (Worker.player w = r.1) as -> by (unfold Worker.player; by rewrite Hr).
      destruct (Game.gui _).
      all: eexists; (split; [done|]); (split; [reflexivity|]).
      all: split_and!; try done.
      all: intros q u Hq; rewrite <- (Htiles q u Hq), <- Hb1; reflexivity.
    + apply bool_decide_eq_false in H3.
      change (Move.is_win m) with false. cbv iota.
      unfold Game.bind at 1.
      destruct (MoveClickFacts.offer_second_move_placed r from (row, col)
                  (Game.set_last_move (Some m) s1) (moved w (row, col)))
        as [-> | ->]; try done.
      all: eexists; (split; [done|]); (split; [reflexivity|]).
      all: split_and!; try done.
      all: try (intros q u Hq; rewrite <- (Htiles q u Hq), <- Hb1; reflexivity).
      * intros _. split; [exact Hw1|]. right. by split.
      * intros _. split; [exact Hw1|]. by left.
Qed.

Lemma move_click_spec_witness :
  ∃ s', Game.handle_tile_click 3 3 game_selected = Game.Done tt s' ∧
        Game.find_worker s' (0%nat, 0%nat)
        = Some (moved (moved (Worker.init (0%nat, 0%nat) "P1") (4, 4)) (3, 3)).
Proof.
  edestruct (move_click_spec game_selected 3 3 (0%nat, 0%nat)) as [_ Hin].
  - apply ConsistencyFacts.reachable_consistent.
    apply reachable_run_calls, reachable_init.
  - vm_compute. reflexivity.
  - vm_compute. reflexivity.
  - vm_compute. reflexivity.
  - vm_compute. reflexivity.
  - vm_compute. reflexivity.
  - destruct Hin as (t & s' & _ & Hclick & Hf & _).
    + apply (bool_decide_unpack _). vm_compute. exact I.
    + exists s'. split; [exact Hclick|exact Hf].
Defined.

Module BuildClickFacts.

Import Game GameFacts BoardFacts.

Lemma set_block_set_block b p x y :
  Board.set_block (Board.set_block b p x) p y = Board.set_block b p y.
Proof.
  destruct p as [row col]. unfold Board.set_block.
  destruct (Board.is_valid_position b (row, col)) eqn:Hv; [|by rewrite Hv].
  assert (Board.is_valid_position
            {| Board.size := Board.size b;
               Board.grid :=
                 match Board.grid b !! Z.to_nat row with
                 | Some r => <[Z.to_nat row := <[Z.to_nat col := x]> r]> (Board.grid b)
                 | None => Board.grid b
                 end |} (row, col) = true) as -> by exact Hv.
  cbn [Board.size Board.grid]. f_equal.
  destruct (Board.grid b !! Z.to_nat row) as [r|] eqn:Hr; [|by rewrite Hr].
  rewrite list_lookup_insert_eq by (by eapply lookup_lt_Some).
  by rewrite !list_insert_insert_eq.
Qed.

(** [Build.execute] on a legal build. *)
Lemma Build_execute_valid bd b :
  Build.position bd ∈ Board.get_valid_builds b (Build.worker_pos bd) →
  ∃ t t', Board.get_block b (Build.position bd) = Some t ∧ raised t t' ∧
    Build.execute bd b = Ok (true, Board.set_block b (Build.position bd) t').
Proof.
  intros Hin. pose proof Hin as Hin'.
  apply BoardLaws.elem_of_get_valid_builds in Hin'
    as (t & _ & Ht & _ & Hfree & Hd).
  unfold Build.execute.
  rewrite (get_block_Some_valid _ _ _ Ht). simpl.
  rewrite bool_decide_eq_true_2 by done. simpl. rewrite Ht.
  destruct (HeightFacts.Tile_build_cases t)
    as [[_ [Hocc|Hdome]]|(t' & Hb & _ & Hw' & Hl)].
  - congruence.
  - unfold Tile.is_dome in Hd. rewrite Hdome in Hd. done.
  - rewrite Hb. exists t, t'. split_and!; try done. split; [congruence|done].
Qed.

(** The build under the worker itself. *)
Lemma build_under_worker_eq p s t :
  Board.get_block (board s) p = Some t → Tile.is_dome t = false →
  Tile.level_value t < 3 →
  ∃ t', raised t t' ∧ build_under_worker p s = Done true (built_on s p t').
Proof.
  intros Ht Hd Hl. unfold build_under_worker. rewrite bind_get, Ht, Hd.
  rewrite bool_decide_eq_true_2 by done. cbn [negb andb].
  rewrite bind_modify.
  set (lifted := {| Tile.level := Tile.level t; Tile.worker := None |}).
  destruct (HeightFacts.Tile_build_cases lifted)
    as [[_ [Hocc|Hdome]]|(t' & Hb & _ & _ & Hl')].
  - done.
  - unfold Tile.is_dome in Hd. simpl in Hdome. rewrite Hdome in Hd. done.
  - exists {| Tile.level := Tile.level t'; Tile.worker := Tile.worker t |}.
    split; [by split|].
    rewrite Hb. cbn [lift]. rewrite bind_ret, bind_modify.
    cbn [ret board set_board Tile.level]. unfold built_on.
    rewrite set_block_set_block. by destruct s.
Qed.

Lemma elem_of_zeus b p q :
  q ∈ Board.get_valid_builds_with_zeus b p ↔
  q ∈ Board.get_valid_builds b p ∨
  q = p ∧ ∃ t, Board.get_block b p = Some t ∧ Tile.worker t ≠ None ∧
               Tile.is_dome t = false ∧ Tile.level_value t < 3.
Proof.
  unfold Board.get_valid_builds_with_zeus.
  destruct (Board.get_block b p) as [t|].
  2:{ split; [by left|]. intros [H|(_ & t & [=] & _)]. done. }
  destruct (bool_decide (Tile.worker t ≠ None)) eqn:Hw; simpl.
  2:{ apply bool_decide_eq_false in Hw. split; [by left|].
      intros [H|(_ & t' & [= <-] & Hw' & _)]; done. }
  apply bool_decide_eq_true in Hw.
  destruct (Tile.is_dome t) eqn:Hd; simpl.
  { split; [by left|]. intros [H|(_ & t' & [= <-] & _ & Hd' & _)]; congruence. }
  destruct (bool_decide (Level.value (Tile.level t) < 3)) eqn:Hl.
  - apply bool_decide_eq_true in Hl. rewrite elem_of_app, list_elem_of_singleton.
    split; (intros [H| H]; [by left|right]).
    + split; [done|]. by exists t.
    + by destruct H.
  - apply bool_decide_eq_false in Hl. split; [by left|].
    intros [H|(_ & t' & [= <-] & _ & _ & Hl')]; done.
Qed.

Lemma not_self_build b p : p ∉ Board.get_valid_builds b p.
Proof.
  intros (ta & _ & _ & Hadj & _)%BoardLaws.elem_of_get_valid_builds.
  by destruct Hadj.
Qed.

Lemma other_target (l : list Position) p :
  (∃ q, q ∈ l ∧ q ≠ p) ↔ existsb (fun pos => bool_decide (pos ≠ p)) l = true.
Proof.
  rewrite existsb_exists. split.
  - intros (q & Hq & Hne). exists q. split; [by apply list_elem_of_In|].
    by apply bool_decide_eq_true.
  - intros (q & Hq & Hne). exists q. split; [by apply list_elem_of_In|].
    by apply bool_decide_eq_true in Hne.
Qed.

Lemma other_target_filter (l : list Position) p :
  (∃ q, q ∈ l ∧ q ≠ p) → filter (fun pos => pos ≠ p) l ≠ [].
Proof.
  intros (q & Hq & Hne) Hnil.
  assert (q ∈ filter (fun pos => pos ≠ p) l) as Hin
    by (by apply list_elem_of_filter).
  rewrite Hnil in Hin. by apply not_elem_of_nil in Hin.
Qed.

End BuildClickFacts.

(** C4. Whatever calls reach the game, no tile ends lower than it was, and
    no height exceeds that of a dome.  [Tile.build] never raises: on a free
    tile that is not a dome it succeeds and leaves the tile exactly one level
    higher, a level-3 tile becoming a dome; on an occupied tile or a dome it
    fails and leaves the tile as it is.  [Build.execute] does the same to the
    board: on a build target of the worker it succeeds, raises the target by
    exactly one level and leaves every other tile alone; on any other
    position, a dome among them, it fails and changes nothing.  The build
    under the worker itself in [_handle_build_phase] raises a tile below
    level 3 by exactly one level and keeps its occupant, and does nothing to
    a tile at level 3 or a dome. *)
Theorem tile_height_rule :
  (∀ (cs : list Call) (s : Game.t) (p : Position) (t : Tile.t),
     Board.get_block (Game.board s) p = Some t →
     ∃ t', Board.get_block (Game.board (run_calls cs s)) p = Some t' ∧
       Level.value (Tile.level t) <= Level.value (Tile.level t')
       <= Level.value Level.DOME) ∧
  (∀ t : Tile.t, Tile.worker t = None → Tile.level t ≠ Level.DOME →
     ∃ t', Tile.build t = Ok (true, t') ∧ Tile.worker t' = None ∧
       Level.value (Tile.level t') = Level.value (Tile.level t) + 1 ∧
       (Tile.level t = Level.LEVEL3 → Tile.level t' = Level.DOME)) ∧
  (∀ t : Tile.t, Tile.worker t ≠ None ∨ Tile.level t = Level.DOME →
     Tile.build t = Ok (false, t)) ∧
  (∀ (bd : Build.t) (b : Board.t),
     Build.position bd ∈ Board.get_valid_builds b (Build.worker_pos bd) →
     ∃ t t', Board.get_block b (Build.position bd) = Some t ∧
       Build.execute bd b = Ok (true, Board.set_block b (Build.position bd) t') ∧
       Board.get_block (Board.set_block b (Build.position bd) t')
         (Build.position bd) = Some t' ∧
       Level.value (Tile.level t') = Level.value (Tile.level t) + 1 ∧
       (Tile.level t = Level.LEVEL3 → Tile.level t' = Level.DOME) ∧
       ∀ q, q ≠ Build.position bd →
         Board.get_block (Board.set_block b (Build.position bd) t') q
         = Board.get_block b q) ∧
  (∀ (bd : Build.t) (b : Board.t),
     Build.position bd ∉ Board.get_valid_builds b (Build.worker_pos bd) →
     Build.execute bd b = Ok (false, b)) ∧
  (∀ (bd : Build.t) (b : Board.t) (t : Tile.t),
     Board.get_block b (Build.position bd) = Some t →
     Tile.level t = Level.DOME → Build.execute bd b = Ok (false, b)) ∧
  (∀ (s : Game.t) (p : Position) (t : Tile.t),
     Board.get_block (Game.board s) p = Some t →
     if bool_decide (Tile.level_value t < 3) then
       ∃ t', raised t t' ∧
         Game.build_under_worker p s = Game.Done true (built_on s p t')
     else Game.build_under_worker p s = Game.Done false s).
Proof.
  assert (∀ t : Tile.t, Tile.worker t = None → Tile.level t ≠ Level.DOME →
            ∃ t', Tile.build t = Ok (true, t') ∧ Tile.worker t' = None ∧
              Level.value (Tile.level t') = Level.value (Tile.level t) + 1 ∧
              (Tile.level t = Level.LEVEL3 → Tile.level t' = Level.DOME))
    as Hbuild.
  { intros t Hfree Hnd.
    destruct (HeightFacts.Tile_build_cases t)
      as [[_ [Hocc|Hd]]|(t' & Hb & _ & Hw' & Hl)]; [done..|].
    exists t'. split_and!; try done. intros H3. rewrite H3 in Hl.
    by destruct (Tile.level t'). }
  assert (∀ (bd : Build.t) (b : Board.t),
            Build.position bd ∉ Board.get_valid_builds b (Build.worker_pos bd) →
            Build.execute bd b = Ok (false, b)) as Hrefused.
  { intros bd b Hout. unfold Build.execute.
    destruct (negb _); [done|]. by rewrite bool_decide_eq_false_2. }
  split_and!.
  - intros cs s p t Hp.
    destruct (GameFacts.preserves_run_calls levels_le
                GameFacts.levels_le_perform cs s) as [_ H].
    destruct (H p t Hp) as (t' & Hp' & Hle). exists t'. split; [done|].
    split; [done|]. by destruct (Tile.level t').
  - exact Hbuild.
  - intros t Hno. unfold Tile.build, Tile.is_dome.
    destruct Hno as [Hocc|Hd].
    + by rewrite bool_decide_eq_true_2.
    + rewrite Hd. by rewrite orb_true_r.
  - intros bd b Hin. pose proof Hin as Hin'.
    apply BoardLaws.elem_of_get_valid_builds in Hin'
      as (t & _ & Ht & _ & Hfree & Hdome).
    assert (Tile.level t ≠ Level.DOME) as Hnd.
    { intros Hd. unfold Tile.is_dome in Hdome. by rewrite Hd in Hdome. }
    destruct (Hbuild t Hfree Hnd) as (t' & Hb & _ & Hl & H3).
    exists t, t'. split_and!; try done.
    + unfold Build.execute.
      rewrite (BoardFacts.get_block_Some_valid _ _ _ Ht). simpl.
      rewrite bool_decide_eq_true_2 by done. simpl. by rewrite Ht, Hb.
    + by eapply BoardFacts.get_block_set_block_eq.
    + intros q Hq. by apply BoardFacts.get_block_set_block_ne.
  - exact Hrefused.
  - intros bd b t Hp Hd. apply Hrefused.
    intros (ta & _ & Hta & _ & _ & Hdome)%BoardLaws.elem_of_get_valid_builds.
    rewrite Hp in Hta. injection Hta as <-.
    unfold Tile.is_dome in Hdome. by rewrite Hd in Hdome.
  - intros s p t Ht. case_bool_decide as Hl.
    + apply (BuildClickFacts.build_under_worker_eq p s t); try done.
      unfold Tile.is_dome. apply bool_decide_eq_false_2. intros Hd.
      unfold Tile.level_value in Hl. rewrite Hd in Hl. simpl in Hl. lia.
    + unfold Game.build_under_worker. rewrite GameFacts.bind_get, Ht.
      rewrite (bool_decide_eq_false_2 _ Hl). by rewrite andb_false_r.
Qed.

Lemma tile_height_rule_witness :
  ∃ t', Board.get_block
          (Game.board (run_calls [CTileClick 0 0; CSkipSecondAction] (Game.init true)))
          (0, 0) = Some t' ∧
    Level.value (Tile.level Tile.init) <= Level.value (Tile.level t')
    <= Level.value Level.DOME.
Proof.
  apply (proj1 tile_height_rule [CTileClick 0 0; CSkipSecondAction]
           (Game.init true) (0, 0) Tile.init).
  reflexivity.
Defined.

(** In phase ["build"], a click on a tile that is no build target of the
    selected worker returns and changes nothing.  A click on a target always
    builds: the tile goes up by exactly one level, keeps its occupant, and
    nothing else on the board changes.  A build under the worker itself
    (Zeus) ends the turn.  After any other build the build is recorded in
    [last_build]; then, if the worker's player holds Demeter with the power
    on and some other target is left, a second build is offered, and
    otherwise the turn ends. *)
Theorem build_click_spec (s : Game.t) (row col : Z) (r : WorkerRef)
  (w : Worker.t) (wp : Position) (cp pl : Player.t) :
  Game.winner s = None → Game.phase s = Game.ph_build →
  Game.selected_worker s = Some r → Game.find_worker s r = Some w →
  Worker.position w = Some wp →
  Game.players s !! Game.current_player_index s = Some cp →
  Game.players s !! Worker.player w = Some pl →
  let targets := build_targets s cp wp in
  ((row, col) ∉ targets → Game.handle_tile_click row col s = Game.Done tt s) ∧
  ((row, col) ∈ targets →
   ∃ t t',
     Board.get_block (Game.board s) (row, col) = Some t ∧ raised t t' ∧
     ((row, col) = wp →
      Game.handle_tile_click row col s
      = Game.next_turn (built_on s (row, col) t')) ∧
     ((row, col) ≠ wp →
      let s2 :=
        Game.set_last_build (Some (Build.mk (row, col) wp))
          (built_on s (row, col) t') in
      let second :=
        Game.has_card_named pl "Demeter" = true ∧
        Game.god_power_active s = true ∧
        ∃ q, q ∈ targets ∧ q ≠ (row, col) in
      (second →
       Game.handle_tile_click row col s
       = Game.Done tt
           (Game.set_second_action (Some (Game.mkSecond Game.a_build (row, col)))
              (Game.set_phase Game.ph_second_build s2))) ∧
      (¬ second → Game.handle_tile_click row col s = Game.next_turn s2))).
Proof.
  intros Hw Hph Hsel Hf Hpos Hcp Hpl targets.
  eassert (Game.handle_tile_click row col s = _) as ->.
  { rewrite handle_tile_click_phase by exact Hw. rewrite Hph.
    unfold Game._handle_build_phase. rewrite GameFacts.bind_get, Hsel.
    unfold Game.bind at 1. unfold Game.get_current_player at 1. rewrite Hcp.
    unfold Game.bind at 1. unfold Game.worker_of at 1. rewrite Hf.
    cbv beta iota. rewrite Hpos. fold (build_targets s cp wp). fold targets.
    reflexivity. }
  split.
  - intros Hout. by rewrite bool_decide_eq_false_2.
  - intros Hin. rewrite bool_decide_eq_true_2 by done.
    destruct (decide ((row, col) = wp)) as [Heq|Hne].
    + rewrite bool_decide_eq_true_2 by done.
      assert (∃ t, Board.get_block (Game.board s) (row, col) = Some t ∧
                   Tile.is_dome t = false ∧ Tile.level_value t < 3)
        as (t & Ht & Hd & Hl).
      { unfold targets, build_targets in Hin.
        destruct (_ && _).
        - apply BuildClickFacts.elem_of_zeus in Hin
            as [Hin|(_ & t & Ht & _ & Hd & Hl)].
          + rewrite Heq in Hin. by apply BuildClickFacts.not_self_build in Hin.
          + exists t. by rewrite Heq.
        - rewrite Heq in Hin. by apply BuildClickFacts.not_self_build in Hin. }
      destruct (BuildClickFacts.build_under_worker_eq _ s t Ht Hd Hl)
        as (t' & Hraised & Hbuild).
      exists t, t'. split_and!; try done.
      intros _. unfold Game.bind at 1. by rewrite Hbuild.
    + rewrite bool_decide_eq_false_2 by done.
      assert ((row, col) ∈ Board.get_valid_builds (Game.board s) wp) as Hin'.
      { unfold targets, build_targets in Hin.
        destruct (_ && _); [|done].
        by apply BuildClickFacts.elem_of_zeus in Hin as [Hin|[? _]]. }
      destruct (BuildClickFacts.Build_execute_valid
                  (Build.mk (row, col) wp) (Game.board s) Hin')
        as (t & t' & Ht & Hraised & Hexec).
      exists t, t'. split_and!; try done.
      cbv zeta.
      match goal with
      | |- context [Game.bind (Game.execute_build ?b) ?k s] =>
        eassert (Game.bind (Game.execute_build b) k s = _) as ->
      end.
      { unfold Game.bind at 1. unfold Game.execute_build.
        rewrite GameFacts.bind_get. unfold Game.bind at 1. rewrite Hexec.
        cbn [Game.lift Game.ret]. rewrite GameFacts.bind_modify.
        cbn [Game.ret]. rewrite GameFacts.bind_modify.
        change (Build.position _) with (row, col).
        fold (built_on s (row, col) t').
        unfold Game.bind at 1. unfold Game.player_of at 1.
        cbn [Game.players Game.set_last_build built_on Game.set_board].
        rewrite Hpl. reflexivity. }
      intros _. split.
      * intros (Hd & Hg & Hq). rewrite Hd, Hg. cbn [andb].
        rewrite (proj1 (BuildClickFacts.other_target targets (row, col)) Hq).
        rewrite bool_decide_eq_true_2
          by (by apply BuildClickFacts.other_target_filter).
        repeat first [ rewrite GameFacts.bind_bind | rewrite GameFacts.bind_modify
                     | rewrite GameFacts.bind_ret ].
        reflexivity.
      * intros Hno.
        destruct (_ && _ && existsb _ _) eqn:E; [|by rewrite GameFacts.bind_ret].
        exfalso. apply Hno.
        apply andb_true_iff in E as [E Hex]. apply andb_true_iff in E as [Hd Hg].
        split_and!; try done. by apply BuildClickFacts.other_target.
Qed.

Lemma build_click_spec_witness :
  ∃ t', raised Tile.init t' ∧
    Game.handle_tile_click 0 1 game_cornered
    = Game.next_turn
        (Game.set_last_build (Some (Build.mk (0, 1) (0, 0)))
           (built_on game_cornered (0, 1) t')).
Proof.
  edestruct (build_click_spec game_cornered 0 1 (0%nat, 0%nat)) as [_ Hin].
  - vm_compute. reflexivity.
  - vm_compute. reflexivity.
  - vm_compute. reflexivity.
  - vm_compute. reflexivity.
  - vm_compute. reflexivity.
  - vm_compute. reflexivity.
  - vm_compute. reflexivity.
  - destruct Hin as (t & t' & Ht & Hr & _ & Hne).
    + apply (bool_decide_unpack _). vm_compute. exact I.
    + vm_compute in Ht. injection Ht as <-.
      exists t'. split; [exact Hr|].
      apply Hne; [discriminate|].
      intros (_ & Hg & _). vm_compute in Hg. discriminate.
Defined.

(** In phase ["second_build"] (Demeter), a click on the tile of the first
    build, or on any tile that is no build target of the selected worker,
    returns and changes nothing.  A click on another build target raises
    that tile by one level and ends the turn; [last_build] still names the
    first build. *)
Theorem second_build_click_spec (s : Game.t) (row col : Z) (r : WorkerRef)
  (w : Worker.t) (wp first : Position) :
  Game.winner s = None → Game.phase s = Game.ph_second_build →
  Game.selected_worker s = Some r →
  Game.second_action s = Some (Game.mkSecond Game.a_build first) →
  Game.find_worker s r = Some w → Worker.position w = Some wp →
  ((row, col) = first ∨ (row, col) ∉ Board.get_valid_builds (Game.board s) wp →
   Game.handle_tile_click row col s = Game.Done tt s) ∧
  ((row, col) ≠ first → (row, col) ∈ Board.get_valid_builds (Game.board s) wp →
   ∃ t t',
     Board.get_block (Game.board s) (row, col) = Some t ∧ raised t t' ∧
     Game.handle_tile_click row col s
     = Game.next_turn (built_on s (row, col) t')).
Proof.
  intros Hw Hph Hsel Hsa Hf Hpos.
  eassert (Game.handle_tile_click row col s = _) as ->.
  { rewrite handle_tile_click_phase by exact Hw. rewrite Hph.
    unfold Game._handle_second_build_phase.
    rewrite GameFacts.bind_get, Hsel, Hsa. cbn [Game.sa_type Game.first_pos].
    rewrite bool_decide_eq_false_2 by (intros H; by apply H).
    unfold Game.bind at 1. unfold Game.worker_of at 1. rewrite Hf.
    cbv beta iota. rewrite Hpos. reflexivity. }
  split.
  - intros Hout. rewrite bool_decide_eq_false_2; [done|].
    intros [Hin Hne]%list_elem_of_filter. destruct Hout; done.
  - intros Hne Hin.
    rewrite bool_decide_eq_true_2 by (by apply list_elem_of_filter).
    destruct (BuildClickFacts.Build_execute_valid
                (Build.mk (row, col) wp) (Game.board s) Hin)
      as (t & t' & Ht & Hraised & Hexec).
    exists t, t'. split_and!; try done.
    unfold Game.bind at 1. unfold Game.execute_build.
    rewrite GameFacts.bind_get. unfold Game.bind at 1. rewrite Hexec.
    cbn [Game.lift Game.ret]. by rewrite GameFacts.bind_modify.
Qed.

Lemma second_build_click_spec_witness :
  Game.handle_tile_click 2 2 game_second_build = Game.Done tt game_second_build.
Proof.
  edestruct (second_build_click_spec game_second_build 2 2 (0%nat, 0%nat))
    as [Hout _].
  - vm_compute. reflexivity.
  - vm_compute. reflexivity.
  - vm_compute. reflexivity.
  - vm_compute. reflexivity.
  - vm_compute. reflexivity.
  - vm_compute. reflexivity.
  - apply Hout. left. reflexivity.
Defined.

(** [skip_second_action] in phase ["second_move"] goes on to phase
    ["build"] and changes nothing else; in phase ["second_build"] it ends the
    turn; in every other phase it returns and changes nothing. *)
Theorem skip_second_action_spec (s : Game.t) :
  (Game.phase s = Game.ph_second_move →
   ∀ r w, Game.selected_worker s = Some r → Game.find_worker s r = Some w →
     is_Some (Worker.position w) →
     Game.skip_second_action s = Game.Done tt (Game.set_phase Game.ph_build s)) ∧
  (Game.phase s = Game.ph_second_build →
   Game.skip_second_action s = Game.next_turn s) ∧
  (Game.phase s ≠ Game.ph_second_move → Game.phase s ≠ Game.ph_second_build →
   Game.skip_second_action s = Game.Done tt s).
Proof.
  unfold Game.skip_second_action. rewrite GameFacts.bind_get. split_and!.
  - intros Hph r w Hsel Hf [pos Hpos]. rewrite Hph, Hsel.
    rewrite bool_decide_eq_true_2 by done. rewrite GameFacts.bind_modify.
    unfold Game.bind, Game.worker_of.
    change (Game.find_worker (Game.set_phase Game.ph_build s) r)
      with (Game.find_worker s r).
    by rewrite Hf, Hpos.
  - intros Hph. rewrite Hph.
    rewrite bool_decide_eq_false_2 by done. by rewrite bool_decide_eq_true_2.
  - intros H1 H2. by rewrite !bool_decide_eq_false_2.
Qed.

(** ** Running out of time *)



(** ** Hints *)

Module HintFacts.

Import Game GameFacts.

(** The search returns the first candidate of the best score, if any
    candidate beats the score it starts from. *)
Lemma foldl_best {A} (score : A → Z) (act : A → HintAction) l b0 a0 :
  ((∀ x, x ∈ l → score x <= b0) ∧
   foldl (best_step score act) (b0, a0) l = (b0, a0)) ∨
  (∃ x, x ∈ l ∧ foldl (best_step score act) (b0, a0) l = (score x, Some (act x)) ∧
        b0 < score x ∧ ∀ y, y ∈ l → score y <= score x).
Proof.
  induction l as [|x l IH] using rev_ind.
  - left. split; [|done]. intros x Hx. by apply not_elem_of_nil in Hx.
  - rewrite foldl_app. cbn [foldl].
    destruct IH as [[Hall ->]|(x0 & Hx0 & -> & Hlt & Hmax)]; unfold best_step;
      cbn [fst]; case_bool_decide.
    + right. exists x. split_and!; [set_solver|done|lia|].
      intros y [Hy| ->%list_elem_of_singleton]%elem_of_app; [|lia].
      specialize (Hall y Hy). lia.
    + left. split; [|done].
      intros y [Hy| ->%list_elem_of_singleton]%elem_of_app; [by apply Hall|lia].
    + right. exists x. split_and!; [set_solver|done|lia|].
      intros y [Hy| ->%list_elem_of_singleton]%elem_of_app; [|lia].
      specialize (Hmax y Hy). lia.
    + right. exists x0. split_and!; [set_solver|done|lia|].
      intros y [Hy| ->%list_elem_of_singleton]%elem_of_app; [by apply Hmax|lia].
Qed.

Lemma best_step_mono {A} (score : A → Z) act acc x :
  acc.1 <= (best_step score act acc x).1.
Proof. unfold best_step. case_bool_decide; simpl; lia. Qed.

Lemma select_fold s l acc :
  -1 <= acc.1 →
  foldl (hint_select_step s) acc l
  = foldl (best_step (hint_select_score s)
             (fun w => HintSelect (Worker.ref w) (Worker.position w))) acc l.
Proof.
  revert acc. induction l as [|w l IH]; intros acc Hacc; [done|]. cbn [foldl].
  assert (hint_select_step s acc w
          = best_step (hint_select_score s)
              (fun w => HintSelect (Worker.ref w) (Worker.position w)) acc w)
    as ->.
  { unfold hint_select_step, best_step, hint_select_score.
    destruct acc as [b a]. cbn [fst] in *.
    destruct (Worker.position w) as [pos|].
    - destruct (bool_decide (_ ≠ [])); [done|].
      by rewrite bool_decide_eq_false_2 by lia.
    - by rewrite bool_decide_eq_false_2 by lia. }
  apply IH. etrans; [exact Hacc|apply best_step_mono].
Qed.

Lemma move_fold s wp tp l acc :
  Board.get_block (board s) wp = Some tp →
  (∀ x, x ∈ l → is_Some (Board.get_block (board s) x)) →
  foldl (hint_move_step s wp) (Ok acc) l
  = Ok (foldl (best_step
                 (fun x => hint_move_score (Tile.level_value tp) (level_at s x))
                 HintMove) acc l).
Proof.
  intros Htp. revert acc. induction l as [|x l IH]; intros acc Hl; [done|].
  cbn [foldl]. destruct (Hl x) as [t Ht]; [set_solver|].
  assert (hint_move_step s wp (Ok acc) x
          = Ok (best_step
                  (fun x => hint_move_score (Tile.level_value tp) (level_at s x))
                  HintMove acc x)) as ->.
  { unfold hint_move_step, best_step, hint_move_score, level_at.
    destruct acc as [b a]. rewrite Htp, Ht. cbn [fst].
    repeat case_bool_decide; try done; try lia; do 2 f_equal; lia. }
  apply IH. intros y Hy. apply Hl. set_solver.
Qed.

Lemma build_fold s l acc :
  (∀ x, x ∈ l → is_Some (Board.get_block (board s) x)) →
  foldl (hint_build_step s) (Ok acc) l
  = Ok (foldl (best_step (fun x => 3 - level_at s x) HintBuild) acc l).
Proof.
  revert acc. induction l as [|x l IH]; intros acc Hl; [done|].
  cbn [foldl]. destruct (Hl x) as [t Ht]; [set_solver|].
  assert (hint_build_step s (Ok acc) x
          = Ok (best_step (fun x => 3 - level_at s x) HintBuild acc x)) as ->.
  { unfold hint_build_step, best_step, level_at.
    destruct acc as [b a]. rewrite Ht. cbn [fst]. by case_bool_decide. }
  apply IH. intros y Hy. apply Hl. set_solver.
Qed.

End HintFacts.

(** In phase ["select"] the advisor proposes a worker of the player whose
    turn it is that can move, and one with the most tiles to move to; it
    proposes nothing exactly when no placed worker of the player can move. *)
Theorem hint_select_spec (s : Game.t) (cp : Player.t) :
  Game.phase s = Game.ph_select →
  Game.players s !! Game.current_player_index s = Some cp →
  ∃ h, Game.Hint_find_best_move s = Game.Done h s ∧
    (h = None ↔ stuck s cp) ∧
    ∀ a, h = Some a →
      ∃ w p, w ∈ Player.workers cp ∧ Worker.position w = Some p ∧
        a = HintSelect (Worker.ref w) (Some p) ∧
        Board.get_valid_moves (Game.board s) p (Game.athena_activated s) ≠ [] ∧
        ∀ w' p', w' ∈ Player.workers cp → Worker.position w' = Some p' →
          (length (Board.get_valid_moves (Game.board s) p'
                     (Game.athena_activated s))
           ≤ length (Board.get_valid_moves (Game.board s) p
                       (Game.athena_activated s)))%nat.
Proof.
  intros Hph Hcp. unfold Game.Hint_find_best_move.
  unfold Game.bind at 1. unfold Game.get_current_player at 1. rewrite Hcp.
  rewrite GameFacts.bind_get, Hph. unfold Game.ret.
  rewrite HintFacts.select_fold by (simpl; lia).
  eexists. split; [reflexivity|].
  destruct (HintFacts.foldl_best (hint_select_score s)
              (fun w => HintSelect (Worker.ref w) (Worker.position w))
              (Player.workers cp) (-1) None)
    as [[Hall ->]|(x & Hx & -> & Hlt & Hmax)]; cbn [snd].
  - split; [|done]. split; [|done]. intros _ w pos Hw Hpos.
    specialize (Hall w Hw). unfold hint_select_score in Hall.
    rewrite Hpos in Hall. cbv zeta in Hall.
    destruct (decide (Board.get_valid_moves (Game.board s) pos
                        (Game.athena_activated s) = [])) as [|Hne]; [done|].
    rewrite bool_decide_eq_true_2 in Hall by done. lia.
  - unfold hint_select_score in Hlt.
    destruct (Worker.position x) as [p|] eqn:Hp; [|lia]. cbv zeta in Hlt.
    destruct (decide (Board.get_valid_moves (Game.board s) p
                        (Game.athena_activated s) = [])) as [Hnil|Hne].
    { rewrite bool_decide_eq_false_2 in Hlt by (intros H; by apply H). lia. }
    split.
    + split; [done|]. intros Hst. exfalso. by apply Hne, (Hst x).
    + intros a [= <-]. exists x, p. split_and!; try done.
      intros w' p' Hw' Hp'. specialize (Hmax w' Hw').
      unfold hint_select_score in Hmax. rewrite Hp, Hp' in Hmax.
      cbv zeta in Hmax. rewrite (bool_decide_eq_true_2 _ Hne) in Hmax.
      case_bool_decide as Hne'; [lia|].
      assert (Board.get_valid_moves (Game.board s) p'
                (Game.athena_activated s) = []) as ->
        by (destruct (decide (Board.get_valid_moves (Game.board s) p'
                                (Game.athena_activated s) = [])); done).
      simpl. lia.
Qed.

Lemma hint_select_spec_witness :
  ∃ h, Game.Hint_find_best_move
         (run_calls
            (session "Player 1" "Player 2" GodCard.Artemis GodCard.Zeus shuffle_id)
            (Game.init true))
       = Game.Done h
           (run_calls
              (session "Player 1" "Player 2" GodCard.Artemis GodCard.Zeus shuffle_id)
              (Game.init true)).
Proof.
  set (s := run_calls _ _).
  destruct (Game.players s !! Game.current_player_index s) as [cp|] eqn:Hcp;
    [|vm_compute in Hcp; discriminate].
  destruct (hint_select_spec s cp) as (h & Hh & _).
  - vm_compute. reflexivity.
  - exact Hcp.
  - by exists h.
Defined.

(** In phase ["move"] the advisor proposes a tile the selected worker can
    move to, and one of the best score, where a move scores 5 for each level
    it climbs and 100 more if it reaches level 3; so whenever the worker can
    move onto a level-3 tile the proposal is such a move.  It proposes
    nothing exactly when the worker cannot move. *)
Theorem hint_move_spec (s : Game.t) (r : WorkerRef) (w : Worker.t)
  (wp : Position) :
  Game.phase s = Game.ph_move → Game.selected_worker s = Some r →
  Game.find_worker s r = Some w → Worker.position w = Some wp →
  is_Some (Game.players s !! Game.current_player_index s) →
  let moves :=
    Board.get_valid_moves (Game.board s) wp (Game.athena_activated s) in
  ∃ h, Game.Hint_find_best_move s = Game.Done h s ∧
    (h = None ↔ moves = []) ∧
    ∀ a, h = Some a →
      ∃ p, a = HintMove p ∧ p ∈ moves ∧
        (∀ q, q ∈ moves →
           hint_move_score (level_at s wp) (level_at s q)
           <= hint_move_score (level_at s wp) (level_at s p)) ∧
        ((∃ q, q ∈ moves ∧ level_at s q = 3) → level_at s p = 3).
Proof.
  intros Hph Hsel Hf Hpos [cp Hcp] moves. unfold Game.Hint_find_best_move.
  unfold Game.bind at 1. unfold Game.get_current_player at 1. rewrite Hcp.
  rewrite GameFacts.bind_get, Hph, Hsel.
  unfold Game.bind at 1. unfold Game.worker_of at 1. rewrite Hf.
  cbv beta iota. rewrite Hpos. fold moves.
  destruct (decide (moves = [])) as [Hnil|Hne].
  { rewrite Hnil. cbn. eexists. split; [reflexivity|]. split; [done|]. done. }
  assert (∃ tp, Board.get_block (Game.board s) wp = Some tp) as [tp Htp].
  { destruct moves as [|q ?] eqn:Hm; [done|].
    assert (q ∈ moves) as Hq by (rewrite Hm; set_solver).
    apply BoardLaws.elem_of_get_valid_moves in Hq as (tp & _ & Htp & _).
    by exists tp. }
  rewrite (HintFacts.move_fold s wp tp) by
    (try done; intros x (_ & ta & _ & Hta & _)%BoardLaws.elem_of_get_valid_moves;
     by exists ta).
  cbn [Game.lift]. rewrite GameFacts.bind_ret. unfold Game.ret.
  eexists. split; [reflexivity|].
  assert (level_at s wp = Tile.level_value tp) as Hlw
    by (unfold level_at; by rewrite Htp).
  rewrite Hlw.
  destruct (HintFacts.foldl_best
              (fun x => hint_move_score (Tile.level_value tp) (level_at s x))
              HintMove moves (-1) None)
    as [[Hall ->]|(x & Hx & -> & Hlt & Hmax)]; cbn [snd].
  - exfalso. destruct moves as [|q l]; [done|].
    specialize (Hall q). unfold hint_move_score in Hall.
    assert (q ∈ q :: l) as Hq by set_solver. specialize (Hall Hq).
    repeat case_bool_decide; lia.
  - split; [done|]. intros a [= <-]. exists x. split_and!; try done.
    intros (q & Hq & Hq3). specialize (Hmax q Hq). rewrite Hq3 in Hmax.
    apply BoardLaws.elem_of_get_valid_moves in Hx
      as (tp' & tx & Htp' & Htx & _ & _ & _ & Hdiff & _).
    rewrite Htp in Htp'. injection Htp' as <-.
    unfold level_at in *. rewrite Htx in *.
    unfold hint_move_score in Hmax. repeat case_bool_decide; lia.
Qed.

Lemma hint_move_spec_witness :
  ∃ h, Game.Hint_find_best_move game_selected = Game.Done h game_selected.
Proof.
  edestruct (hint_move_spec game_selected (0%nat, 0%nat)) as (h & Hh & _).
  - vm_compute. reflexivity.
  - vm_compute. reflexivity.
  - vm_compute. reflexivity.
  - vm_compute. reflexivity.
  - vm_compute. eexists. reflexivity.
  - by exists h.
Defined.

(** In phase ["build"] the advisor proposes a tile the selected worker can
    build on, and one of the lowest: the score of a target is 3 minus its
    level.  It proposes nothing exactly when the worker cannot build. *)
Theorem hint_build_spec (s : Game.t) (r : WorkerRef) (w : Worker.t)
  (wp : Position) :
  Game.phase s = Game.ph_build → Game.selected_worker s = Some r →
  Game.find_worker s r = Some w → Worker.position w = Some wp →
  is_Some (Game.players s !! Game.current_player_index s) →
  let builds := Board.get_valid_builds (Game.board s) wp in
  ∃ h, Game.Hint_find_best_move s = Game.Done h s ∧
    (h = None ↔ builds = []) ∧
    ∀ a, h = Some a →
      ∃ p, a = HintBuild p ∧ p ∈ builds ∧
        ∀ q, q ∈ builds → level_at s p <= level_at s q.
Proof.
  intros Hph Hsel Hf Hpos [cp Hcp] builds. unfold Game.Hint_find_best_move.
  unfold Game.bind at 1. unfold Game.get_current_player at 1. rewrite Hcp.
  rewrite GameFacts.bind_get, Hph, Hsel.
  unfold Game.bind at 1. unfold Game.worker_of at 1. rewrite Hf.
  cbv beta iota. rewrite Hpos. fold builds.
  rewrite (HintFacts.build_fold s) by
    (intros x (ta & _ & Hta & _)%BoardLaws.elem_of_get_valid_builds;
     by exists ta).
  cbn [Game.lift]. rewrite GameFacts.bind_ret. unfold Game.ret.
  eexists. split; [reflexivity|].
  destruct (HintFacts.foldl_best (fun x => 3 - level_at s x) HintBuild
              builds (-1) None)
    as [[Hall ->]|(x & Hx & -> & Hlt & Hmax)]; cbn [snd].
  - split; [|done]. split; [|done]. intros _.
    destruct builds as [|q l] eqn:Hb; [done|]. exfalso.
    assert (q ∈ builds) as Hq by (rewrite Hb; set_solver).
    assert (q ∈ q :: l) as Hq' by set_solver. specialize (Hall q Hq').
    apply BoardLaws.elem_of_get_valid_builds in Hq
      as (ta & _ & Hta & _ & _ & Hd).
    unfold level_at in Hall. rewrite Hta in Hall.
    unfold Tile.is_dome in Hd. apply bool_decide_eq_false in Hd.
    unfold Tile.level_value in Hall. destruct (Tile.level ta); simpl in Hall;
      (done || lia).
  - split.
    + split; [done|]. intros Hnil. rewrite Hnil in Hx.
      by apply not_elem_of_nil in Hx.
    + intros a [= <-]. exists x. split_and!; try done.
      intros q Hq. specialize (Hmax q Hq). simpl in Hmax. lia.
Qed.

Lemma hint_build_spec_witness :
  ∃ h, Game.Hint_find_best_move game_cornered = Game.Done h game_cornered.
Proof.
  edestruct (hint_build_spec game_cornered (0%nat, 0%nat)) as (h & Hh & _).
  - vm_compute. reflexivity.
  - vm_compute. reflexivity.
  - vm_compute. reflexivity.
  - vm_compute. reflexivity.
  - vm_compute. eexists. reflexivity.
  - by exists h.
Defined.

(** In phase ["second_move"] (Artemis), the tiles the selected worker may
    move to are its valid moves other than the tile it came from.  A click
    on any other tile returns and changes nothing.  A click on one of them
    moves the worker there; the worker's player wins if the tile is at
    level 3, and otherwise the phase becomes ["build"].  [last_move] still
    names the first move. *)
Theorem second_move_click_spec (s : Game.t) (row col : Z) (r : WorkerRef)
  (w : Worker.t) (from first : Position) :
  workers_consistent s → Game.winner s = None →
  Game.phase s = Game.ph_second_move → Game.selected_worker s = Some r →
  Game.second_action s = Some (Game.mkSecond Game.a_move first) →
  Game.find_worker s r = Some w → Worker.position w = Some from →
  let targets :=
    Game.second_move_targets (Game.board s) (Game.athena_activated s) w from in
  (∀ q, q ∈ targets ↔
        q ∈ Board.get_valid_moves (Game.board s) from (Game.athena_activated s) ∧
        Some q ≠ Worker.prev_position w) ∧
  ((row, col) ∉ targets → Game.handle_tile_click row col s = Game.Done tt s) ∧
  ((row, col) ∈ targets →
   ∃ t s',
     Board.get_block (Game.board s) (row, col) = Some t ∧
     Game.handle_tile_click row col s = Game.Done tt s' ∧
     Game.find_worker s' r = Some (moved w (row, col)) ∧
     (∀ q u, Board.get_block (Game.board s) q = Some u →
        Board.get_block (Game.board s') q
        = Some (tile_after_move w (row, col) q u)) ∧
     Game.last_move s' = Game.last_move s ∧
     (Tile.level t = Level.LEVEL3 → Game.winner s' = Some (fst r)) ∧
     (Tile.level t ≠ Level.LEVEL3 →
      Game.winner s' = None ∧ Game.phase s' = Game.ph_build)).
Proof.
  intros Hc Hw Hph Hsel Hsa Hf Hpos targets.
  pose proof Hc as (Hwf & Href & Hon & Hhold).
  pose proof (Href _ _ Hf) as Hr.
  assert (∀ q, q ∈ targets ↔
            q ∈ Board.get_valid_moves (Game.board s) from (Game.athena_activated s) ∧
            Some q ≠ Worker.prev_position w) as Htargets.
  { intros q. unfold targets, Game.second_move_targets.
    destruct (Worker.prev_position w) as [pp|]; [|by intuition].
    case_bool_decide as Hpp.
    - rewrite SecondMoveFacts.elem_of_list_remove_first
        by apply BoardLaws.NoDup_get_valid_moves.
      split; intros [H1 H2]; (split; [done|congruence]).
    - split; [|by intros [? _]]. intros Hq. split; [done|]. congruence. }
  split; [exact Htargets|].
  eassert (Game.handle_tile_click row col s = _) as ->.
  { rewrite handle_tile_click_phase by exact Hw. rewrite Hph.
    unfold Game._handle_second_move_phase.
    rewrite GameFacts.bind_get, Hsel, Hsa. cbn [Game.sa_type Game.first_pos].
    rewrite bool_decide_eq_false_2 by (intros H; by apply H).
    unfold Game.bind at 1. unfold Game.worker_of at 1. rewrite Hf.
    cbv beta iota. rewrite Hpos. fold targets. reflexivity. }
  split.
  - intros Hout. by rewrite bool_decide_eq_false_2.
  - intros Hin. rewrite bool_decide_eq_true_2 by done.
    apply Htargets in Hin as [Hin _].
    set (m := Move.init r from (row, col)).
    destruct (ClickFacts.Move_execute_valid m w (Game.board s) Hwf Hpos)
      as (t & b' & Ht & Hmove & Hexec).
    { by eapply ClickFacts.valid_moves_flag. }
    pose proof (ConsistencyFacts.Worker_move_to_tiles _ _ _ _ _ Hmove) as Htiles.
    exists t.
    unfold Game.bind at 1.
    rewrite (SecondMoveFacts.execute_move_eq m s w) by done.
    rewrite Hexec. cbv beta iota.
    change (Move.to_pos m) with (row, col) in *.
    set (s1 := Game.store_worker _ _).
    assert (Game.find_worker s1 r = Some (moved w (row, col))) as Hf1.
    { unfold s1. rewrite <- Hr.
      change (Worker.ref w) with (Worker.ref (moved w (row, col))).
      eapply WorkerFacts.find_worker_store_eq.
      rewrite WorkerFacts.find_worker_set_board. simpl. by rewrite Hr. }
    assert (Game.board s1 = b') as Hb1
      by (unfold s1; by rewrite GameFacts.board_store_worker).
    destruct (MoveClickFacts.store_worker_fields (moved w (row, col))
                (Game.set_board b' s)) as (_ & Hw1 & _).
    fold s1 in Hw1. cbn [Game.winner Game.set_board] in Hw1.
    rewrite Hw in Hw1.
    assert (Game.last_move s1 = Game.last_move s) as Hlm1.
    { unfold s1, Game.store_worker. by destruct (Game.players _ !! _). }
    assert (Worker.player w = r.1) as Hpl
      by (unfold Worker.player; by rewrite Hr).
    destruct (bool_decide (Tile.level t = Level.LEVEL3)) eqn:H3.
    + apply bool_decide_eq_true in H3.
      change (Move.is_win (Move.set_winning m)) with true. cbv iota.
      rewrite GameFacts.bind_modify. unfold Game.gui_show_game_over.
      rewrite GameFacts.bind_get. unfold Game.stop_timer, Game.modify.
      rewrite Hpl.
      destruct (Game.gui _).
      all: eexists; (split; [done|]); (split; [reflexivity|]).
      all: split_and!; try done.
      all: intros q u Hq; rewrite <- (Htiles q u Hq), <- Hb1; reflexivity.
    + apply bool_decide_eq_false in H3.
      change (Move.is_win m) with false. cbv iota. unfold Game.modify.
      eexists. split; [done|]. split; [reflexivity|].
      split_and!; try done.
      intros q u Hq. rewrite <- (Htiles q u Hq), <- Hb1. reflexivity.
Qed.

Lemma second_move_click_spec_witness :
  Game.handle_tile_click 4 4 game_second_move = Game.Done tt game_second_move.
Proof.
  edestruct (second_move_click_spec game_second_move 4 4 (0%nat, 0%nat))
    as (Htargets & Hout & _).
  - apply ConsistencyFacts.reachable_consistent.
    apply reachable_run_calls, reachable_init.
  - vm_compute. reflexivity.
  - vm_compute. reflexivity.
  - vm_compute. reflexivity.
  - vm_compute. reflexivity.
  - vm_compute. reflexivity.
  - vm_compute. reflexivity.
  - apply Hout. intros [_ Hne]%Htargets. apply Hne. vm_compute. reflexivity.
Defined.

(** ** The god cards *)

(** What [can_use_power] computes for a placed worker; the argument
    [current_position] plays no part, the worker's own position is used.
    Artemis: the worker has a valid move (with the Athena restriction off)
    other than back to where it came from.  Demeter: the worker has at least
    two tiles to build on.  Zeus: the worker's own tile is below level 3.
    The base class: never.  For a worker that is not placed the three
    special cards raise [TypeError]. *)
Theorem can_use_power_spec (w : Worker.t) (b : Board.t) (p : Position) :
  (∀ pos, Worker.position w = Some pos →
     ∃ a d z,
       GodCard.can_use_power GodCard.Artemis w b p = Ok a ∧
       GodCard.can_use_power GodCard.Demeter w b p = Ok d ∧
       GodCard.can_use_power GodCard.Zeus w b p = Ok z ∧
       (a = true ↔
        ∃ q, q ∈ Board.get_valid_moves b pos false ∧
             Some q ≠ Worker.prev_position w) ∧
       (d = true ↔
        ∃ q1 q2, q1 ∈ Board.get_valid_builds b pos ∧
                 q2 ∈ Board.get_valid_builds b pos ∧ q1 ≠ q2) ∧
       (z = true ↔
        ∃ t, Board.get_block b pos = Some t ∧ Tile.level_value t < 3)) ∧
  (Worker.position w = None →
   GodCard.can_use_power GodCard.Artemis w b p = Raise TypeError ∧
   GodCard.can_use_power GodCard.Demeter w b p = Raise TypeError ∧
   GodCard.can_use_power GodCard.Zeus w b p = Raise TypeError) ∧
  (∀ n, GodCard.can_use_power (GodCard.Base n) w b p = Ok false).
Proof.
  split_and!; [|by intros Hpos; unfold GodCard.can_use_power; rewrite Hpos|done].
  intros pos Hpos. unfold GodCard.can_use_power. rewrite Hpos.
  eexists _, _,
    (match Board.get_block b pos with
     | Some tile =>
       negb (Tile.is_dome tile) && bool_decide (Tile.level_value tile < 3)
     | None => false
     end).
  split; [reflexivity|]. split; [reflexivity|].
  split_and!.
  - by destruct (Board.get_block b pos).
  - rewrite bool_decide_eq_true.
    set (l := Board.get_valid_moves b pos false).
    pose proof (BoardLaws.NoDup_get_valid_moves b pos false) as Hnd. fold l in Hnd.
    assert (∀ l' : list Position, Z.of_nat (length l') > 0 ↔ ∃ q, q ∈ l') as Hlen.
    { intros [|q l']; simpl; split; try lia.
      - intros [q Hq]. by apply not_elem_of_nil in Hq.
      - intros _. exists q. set_solver. }
    cbv zeta. rewrite Hlen.
    destruct (Worker.prev_position w) as [pp|]; simpl.
    + case_bool_decide as Hne; simpl.
      * case_bool_decide as Hpp.
        -- split.
           ++ intros [q Hq].
              apply SecondMoveFacts.elem_of_list_remove_first in Hq
                as [Hq Hqp]; [|done].
              exists q. split; [done|congruence].
           ++ intros (q & Hq & Hqp). exists q.
              apply SecondMoveFacts.elem_of_list_remove_first; [done|].
              split; [done|congruence].
        -- split.
           ++ intros [q Hq]. exists q. split; [done|]. congruence.
           ++ intros (q & Hq & _). by exists q.
      * assert (l = []) as ->
          by (destruct l; first [done | exfalso; by apply Hne]).
        split.
        -- intros [q Hq]. by apply not_elem_of_nil in Hq.
        -- intros (q & Hq & _). by apply not_elem_of_nil in Hq.
    + rewrite andb_false_r. split.
      * intros [q Hq]. by exists q.
      * intros (q & Hq & _). by exists q.
  - rewrite bool_decide_eq_true.
    pose proof (NoDup_get_valid_builds b pos) as Hnd.
    destruct (Board.get_valid_builds b pos) as [|q1 [|q2 l]]; simpl.
    + split; [lia|]. intros (q1 & _ & Hq & _). by apply not_elem_of_nil in Hq.
    + split; [lia|]. intros (x & y & Hx & Hy & Hne).
      apply list_elem_of_singleton in Hx, Hy. congruence.
    + split; [|lia]. intros _. exists q1, q2.
      split_and!; [set_solver|set_solver|].
      intros ->. apply NoDup_cons in Hnd as [Hnd _]. set_solver.
  - destruct (Board.get_block b pos) as [t|].
    + rewrite andb_true_iff, negb_true_iff, bool_decide_eq_true. split.
      * intros [_ Hl]. by exists t.
      * intros (t' & [= <-] & Hl). split; [|done].
        unfold Tile.is_dome. apply bool_decide_eq_false_2.
        intros Hd. unfold Tile.level_value in Hl. rewrite Hd in Hl.
        simpl in Hl. lia.
    + split; [done|]. by intros (t & [=] & _).
Qed.

Lemma can_use_power_spec_witness :
  GodCard.can_use_power GodCard.Zeus
    (moved (Worker.init (0%nat, 0%nat) "P1") (2, 2)) (Board.init 5) (0, 0)
  = Ok true.
Proof.
  destruct (can_use_power_spec
              (moved (Worker.init (0%nat, 0%nat) "P1") (2, 2)) (Board.init 5) (0, 0))
    as (Hplaced & _).
  destruct (Hplaced (2, 2) eq_refl) as (a & d & z & _ & _ & Hz & _ & _ & Hiff).
  rewrite Hz. f_equal. apply Hiff. eexists. split; [vm_compute; reflexivity|].
  vm_compute. reflexivity.
Defined.

(** ** A session in play *)

Module SeatFacts.

Import Game GameFacts.

#[global] Instance seats_kept_preorder : PreOrder seats_kept.
Proof.
  split.
  - intros s. by split_and!.
  - intros s1 s2 s3 (H1 & H2 & H3) (H4 & H5 & H6).
    split_and!; [congruence|congruence|auto].
Qed.

Lemma seats_store_worker w s : seats_kept s (store_worker w s).
Proof.
  unfold store_worker. destruct (players s !! _) as [p|]; [|reflexivity].
  split_and!; cbn [players set_players hint_counts current_player_index];
    rewrite ?length_insert; done.
Qed.

(** The turn index is only ever set to the index after it, modulo the
    number of players. *)
Lemma seats_next_index {A} (k : nat → M A) :
  (∀ i, preserves seats_kept (k i)) →
  preserves seats_kept
    (bind next_player_index (fun i =>
       bind (modify (set_current_player_index i)) (fun _ => k i))).
Proof.
  intros Hk s. unfold next_player_index.
  rewrite bind_bind, bind_get.
  case_bool_decide as Hn; [by rewrite bind_raise|].
  rewrite bind_ret, bind_modify.
  etrans; [|apply Hk]. split_and!; try done. intros _. simpl.
  apply Nat.mod_upper_bound. exact Hn.
Qed.

Ltac seat_frame :=
  repeat first
    [ apply seats_next_index
    | preserve_step
    | apply preserves_modify; intros ?; cbv beta;
      solve [ apply seats_store_worker
            | split_and!; simpl; rewrite ?length_insert; done ] ].

Lemma seats_place_worker r p : preserves seats_kept (place_worker r p).
Proof. unfold place_worker. seat_frame. Qed.
















End SeatFacts.

Module SelectionFacts.

Import Game GameFacts WorkerFacts.

#[global] Instance selection_kept_preorder : PreOrder selection_kept.
Proof.
  split.
  - intros s H. exact H.
  - intros s1 s2 s3 H1 H2 H. apply H2, H1, H.
Qed.




















End SelectionFacts.

Module SecondFacts.

Import Game GameFacts.

#[global] Instance second_move_kept_out_preorder : PreOrder second_move_kept_out.
Proof.
  split.
  - intros s H. exact H.
  - intros s1 s2 s3 H1 H2 H. apply H2, H1, H.
Qed.

#[global] Instance same_selected_preorder : PreOrder same_selected.
Proof.
  split; [by intros s|]. intros s1 s2 s3. unfold same_selected. congruence.
Qed.

#[global] Instance same_selection_phase_preorder : PreOrder same_selection_phase.
Proof.
  split; [by intros s|].
  intros s1 s2 s3 [H1 H2] [H3 H4]. split; congruence.
Qed.

Lemma second_out_store_worker w s : second_move_kept_out s (store_worker w s).
Proof. intros H. by rewrite SecondMoveFacts.phase_store_worker. Qed.

(** Outside [_handle_move_phase], every assignment to [phase] assigns one
    of ["select"], ["move"], ["build"], ["second_build"]. *)
Ltac out_frame :=
  repeat first
    [ preserve_step
    | apply preserves_modify; intros ?; cbv beta;
      solve [ apply second_out_store_worker
            | let Hp := fresh in
              intros Hp; simpl; first [exact Hp | discriminate] ] ].

Lemma second_out_place_worker r p : preserves second_move_kept_out (place_worker r p).
Proof. unfold place_worker. out_frame. Qed.













End SecondFacts.

Module ReturnFacts.

Import Game GameFacts.



















End ReturnFacts.


Module StartFacts.

Import Game GameFacts.

Lemma second_out_place_workers refs avail :
  preserves second_move_kept_out (place_workers refs avail).
Proof.
  pose proof SecondFacts.second_out_place_worker.
  revert avail. induction refs as [|r refs IH]; intros avail;
    cbn [place_workers]; SecondFacts.out_frame.
Qed.

Lemma second_out_start_game shuffled :
  preserves second_move_kept_out (start_game shuffled).
Proof.
  unfold start_game, randomly_place_workers, initialize_timers, start_timer.
  pose proof second_out_place_workers. SecondFacts.out_frame.
Qed.

Lemma same_selected_place_worker r p : preserves same_selected (place_worker r p).
Proof.
  unfold place_worker.
  repeat first
    [ preserve_step
    | apply preserves_modify; intros ?; cbv beta;
      solve [ apply selected_worker_store_worker | reflexivity ] ].
Qed.

(** The game [start_game] leaves, once two players are there, is in
    play. *)
Lemma start_in_play gui n1 c1 col1 n2 c2 col2 p s2 shuffled :
  two_players gui n1 c1 col1 n2 c2 col2 = Done p s2 →
  in_play (state_of (start_game shuffled s2)).
Proof.
  intros Htwo.
  assert (workers_consistent s2) as Hc2.
  { unfold two_players, bind in Htwo.
    destruct (add_player n1 c1 col1 (init gui)) as [p1 s1|] eqn:H1; [|done].
    pose proof (ConsistencyFacts.consistent_add_player n1 c1 col1 (init gui)
                  (ConsistencyFacts.consistent_init gui)) as Hc1.
    rewrite H1 in Hc1.
    pose proof (ConsistencyFacts.consistent_add_player n2 c2 col2 s1 Hc1) as Hc.
    by rewrite Htwo in Hc. }
  destruct (PlacementFacts.two_players_inv _ _ _ _ _ _ _ _ _ Htwo)
    as (nm00 & nm01 & nm10 & nm11 & Hs2).
  assert (seats_kept s2 (state_of (start_game shuffled s2)))
    as (Hpl & Hh & Hi).
  { apply frame_start_game; try exact _; try (intros; by split_and!).
    apply SeatFacts.seats_place_worker. }
  assert (same_selected s2 (state_of (start_game shuffled s2))) as Hsel.
  { apply frame_start_game; try exact _; try (intros; reflexivity).
    apply same_selected_place_worker. }
  unfold same_selected in Hsel.
  split_and!.
  - by apply (ConsistencyFacts.consistent_perform (CStartGame shuffled) s2).
  - rewrite Hpl, Hs2. reflexivity.
  - rewrite Hh, Hs2. reflexivity.
  - rewrite <- Hpl in Hi.
    assert (length (players (state_of (start_game shuffled s2))) = 2%nat) as Hl
      by (rewrite Hpl, Hs2; reflexivity).
    rewrite Hl in Hi. apply Hi. rewrite Hs2. simpl. lia.
  - intros r Hr. rewrite Hsel, Hs2 in Hr. done.
  - intros Hph. exfalso. revert Hph. apply second_out_start_game.
    by rewrite Hs2.
  - apply PhaseFacts.out_start_game. by rewrite Hs2.
Qed.



End StartFacts.

(** ** Hint credits *)



(** C7, as the spec words it, fails: in a game to which no player has been
    added yet, a hint request takes a credit, finds no player to search a
    proposal for and raises; it produces no proposal, and the credit is not
    given back: the counts go from [[3; 3]] to [[2; 3]]. *)
Lemma hint_credit_lost_on_raise :
  ¬ (∀ s c, reachable s →
       Game.hint_counts s !! Game.current_player_index s = Some c →
       (∀ h, Game.value_of (Game.provide_hint s) ≠ Some (Some h)) →
       Game.hint_counts (Game.state_of (Game.provide_hint s))
         !! Game.current_player_index s = Some c).
Proof.
  intros H.
  specialize (H (Game.init false) 3 (reachable_init false) eq_refl).
  assert (Game.provide_hint (Game.init false)
          = Game.Fail IndexError (hint_taken (Game.init false) 3)) as Hraise
    by (vm_compute; reflexivity).
  rewrite Hraise in H. simpl in H.
  assert (Some 2 = Some 3) as Heq by (apply H; intros h; discriminate).
  discriminate.
Qed.

(** ** Handing the turn on *)




(** ** A new game *)

Module NewGameFacts.

Import Game GameFacts.

#[global] Instance same_round_preorder : PreOrder same_round.
Proof.
  split; [by intros s|].
  intros s1 s2 s3 (H1 & H2 & H3 & H4 & H5) (H6 & H7 & H8 & H9 & H10).
  split_and!; congruence.
Qed.

Lemma same_round_store_worker w s : same_round s (store_worker w s).
Proof.
  destruct (MoveClickFacts.store_worker_fields w s)
    as (? & ? & _ & _ & ? & _ & ? & ? & _).
  by split_and!.
Qed.

Lemma same_round_place_worker r p : preserves same_round (place_worker r p).
Proof.
  unfold place_worker.
  repeat first
    [ preserve_step
    | apply preserves_modify; intros ?; cbv beta;
      solve [ apply same_round_store_worker | by split_and! ] ].
Qed.

Lemma same_round_placement shuffled :
  preserves same_round (randomly_place_workers shuffled) ∧
  preserves seats_kept (randomly_place_workers shuffled).
Proof.
  assert (∀ refs avail, preserves same_round (place_workers refs avail))
    by (apply frame_place_workers; [exact _|apply same_round_place_worker]).
  assert (∀ refs avail, preserves seats_kept (place_workers refs avail))
    by (apply frame_place_workers; [exact _|apply SeatFacts.seats_place_worker]).
  split; unfold randomly_place_workers; preserve.
Qed.

End NewGameFacts.

(** [new_game] returns for every answer to the two name dialogs, every
    shuffle of the two cards and every shuffle of the board positions, and
    the game it leaves is a session in play: phase ["select"], turn 0 of
    player 1, no winner, three hints each, and the clock running. *)
Theorem new_game_in_play (p1_answer p2_answer : option string)
  (god_cards : list GodCard.t) (choice : bool) (shuffled : list Position) :
  god_cards ≡ₚ [GodCard.Artemis; GodCard.Demeter] →
  shuffled ≡ₚ positions_5 →
  ∃ s,
    SantoriniGUI.new_game p1_answer p2_answer god_cards choice shuffled
    = Game.Done tt s ∧
    in_play s ∧ Game.phase s = Game.ph_select ∧
    Game.current_player_index s = 0%nat ∧ Game.turn_count s = 0 ∧
    Game.winner s = None ∧ Game.hint_counts s = [3; 3] ∧
    Timer.running <$> Game.timer s = Some true.
Proof.
  intros Hcards Hperm.
  assert (∃ drawn other, god_cards = [drawn; other]) as (drawn & other & ->).
  { pose proof (Permutation_length Hcards) as Hlen.
    destruct god_cards as [|x [|y [|z l]]]; try done. by exists x, y. }
  unfold SantoriniGUI.new_game, SantoriniGUI.deal_cards. simpl.
  rewrite GameFacts.bind_ret.
  set (cards := if choice then _ else _).
  destruct (add_player_name_or p1_answer "P"%char "layer 1" (Some cards.1)
              "#00D0FF" (Game.init true)) as (P1 & H1 & _).
  set (s1 := Game.set_players (Game.players (Game.init true) ++ [P1])
               (Game.init true)) in *.
  destruct (add_player_name_or p2_answer "P"%char "layer 2" (Some cards.2)
              "#FF0088" s1) as (P2 & H2 & _).
  set (s2 := Game.set_players (Game.players s1 ++ [P2]) s1) in *.
  assert (two_players true (SantoriniGUI.name_or p1_answer "Player 1")
            (Some cards.1) "#00D0FF"
            (SantoriniGUI.name_or p2_answer "Player 2")
            (Some cards.2) "#FF0088" = Game.Done P2 s2) as Htwo.
  { unfold two_players, Game.bind. by rewrite H1, H2. }
  unfold Game.bind at 1. rewrite H1.
  unfold Game.bind at 1. rewrite H2.
  unfold Game.bind at 1. unfold Game.get_current_player at 1.
  change (Game.players s2 !! Game.current_player_index s2) with (Some P1).
  cbv beta iota.
  destruct (PlacementFacts.placed_four _ _ _ _ _ _ _ _ _ shuffled Htwo Hperm)
    as (s' & _ & _ & _ & _ & _ & Hrun & _).
  destruct (NewGameFacts.same_round_placement shuffled) as [Hround Hseats].
  specialize (Hround s2). specialize (Hseats s2). rewrite Hrun in Hround, Hseats.
  cbn [Game.state_of] in Hround, Hseats.
  destruct Hround as (Hi & Hw & Ht & Hh & Hg).
  destruct Hseats as (Hpl & _ & _).
  pose proof (StartFacts.start_in_play _ _ _ _ _ _ _ _ _ shuffled Htwo) as Hin.
  assert (Game.start_game shuffled s2
          = Game.Done tt
              (Game.set_timer (Some (Timer.start Timer.init))
                 (Game.set_phase Game.ph_select
                    (Game.set_timer (Some Timer.init) s')))) as Hstart.
  { unfold Game.start_game. unfold Game.bind at 1. rewrite Hrun.
    unfold Game.initialize_timers.
    rewrite !GameFacts.bind_modify, GameFacts.bind_get.
    cbn [Game.gui Game.set_phase Game.set_timer]. rewrite Hg.
    change (Game.gui s2) with true. cbv iota.
    rewrite GameFacts.bind_bind.
    unfold Game.bind at 1. unfold Game.get_current_player at 1.
    cbn [Game.players Game.current_player_index Game.set_phase Game.set_timer].
    rewrite Hi. change (Game.current_player_index s2) with 0%nat.
    destruct (Game.players s' !! 0%nat) as [cp|] eqn:Hcp.
    2:{ apply lookup_ge_None in Hcp. rewrite Hpl in Hcp.
        change (length (Game.players s2)) with 2%nat in Hcp. lia. }
    rewrite GameFacts.bind_ret. reflexivity. }
  rewrite Hstart in Hin. cbn [Game.state_of] in Hin.
  eexists. split; [exact Hstart|]. split; [exact Hin|].
  split_and!; try reflexivity.
  - cbn. by rewrite Hi.
  - cbn. by rewrite Ht.
  - cbn. by rewrite Hw.
  - cbn. by rewrite Hh.
Qed.

Lemma new_game_in_play_witness :
  ∃ s,
    SantoriniGUI.new_game None (Some "Ada") [GodCard.Demeter; GodCard.Artemis]
      true shuffle_corner
    = Game.Done tt s ∧ in_play s.
Proof.
  destruct (new_game_in_play None (Some "Ada")
              [GodCard.Demeter; GodCard.Artemis] true shuffle_corner)
    as (s & Hs & Hin & _).
  - apply (bool_decide_unpack _). vm_compute. exact I.
  - apply shuffle_corner_perm.
  - by exists s.
Defined.
